(** * selenium-respectful: the rate-limited webdriver wrapper

    A shallow embedding of [selenium_respectful/respectful_webdriver.py]
    (class [RespectfulWebdriver]) together with the fragments of Python and
    of Redis that the class relies on, followed by the properties of the
    realm registry, the request ledger, the admission controller and the
    blocking wait loop. *)

From Stdlib Require Import ZArith String Ascii List Lia DecimalString DecimalZ.
From stdpp Require Import base option strings gmap.

Local Open Scope string_scope.
Local Open Scope Z_scope.

(** ** Python values and exceptions *)

Module Py.

(** The values that callers hand to the wrapper as keyword arguments.  A
    float is kept as its [repr]. *)
Inductive value : Type :=
  | PyNone
  | PyBool (b : bool)
  | PyInt (z : Z)
  | PyFloat (repr : string)
  | PyStr (s : string).

(** Modelled from the spec: the module [selenium_respectful/exceptions.py]
    is not part of the sources at hand.  The two classes imported from it,
    [SeleniumRespectfulError] and [SeleniumRespectfulRateLimitedError], carry
    a message; the rate-limited class is the only one the wait loop absorbs
    and it is not an ancestor of the plain one.  The remaining constructors
    are the built-in and third-party exceptions that the modelled statements
    can raise. *)
Inductive exn : Type :=
  | SeleniumRespectfulError (msg : string)
  | SeleniumRespectfulRateLimitedError (msg : string)
  | KeyError (key : string)
  | ValueError (msg : string)
  | TypeError (msg : string)
  | IndexError (msg : string)
  | AttributeError (msg : string)
  | ResponseError (msg : string)
  | WebDriverException (msg : string)
  | UnicodeDecodeError (msg : string).

(** A computation either returns or raises. *)
Inductive result (A : Type) : Type :=
  | Return (a : A)
  | Raise (e : exn).
Arguments Return {A} a.
Arguments Raise {A} e.

Definition bind {A B : Type} (m : result A) (k : A -> result B) : result B :=
  match m with
  | Return a => k a
  | Raise e => Raise e
  end.

(** [type(v) == int]: exact type equality, so [bool] does not qualify. *)
Definition type_is_int (v : value) : bool :=
  match v with
  | PyInt _ => true
  | _ => false
  end.

(** [str(True)] is ["True"]; [str(10)] is ["10"]. *)
Definition str (v : value) : string :=
  match v with
  | PyNone => "None"
  | PyBool true => "True"
  | PyBool false => "False"
  | PyInt z => NilZero.string_of_int (Z.to_int z)
  | PyFloat r => r
  | PyStr s => s
  end.

(** ASCII whitespace, as removed by [str.strip()]. *)
Definition is_space (c : ascii) : bool :=
  match nat_of_ascii c with
  | 9%nat | 10%nat | 11%nat | 12%nat | 13%nat | 32%nat => true
  | 28%nat | 29%nat | 30%nat | 31%nat => true
  | _ => false
  end.

Fixpoint lstrip (s : string) : string :=
  match s with
  | String c r => if is_space c then lstrip r else s
  | EmptyString => EmptyString
  end.

(** [rstrip] drops the trailing run of whitespace. *)
Fixpoint rstrip (s : string) : string :=
  match s with
  | EmptyString => EmptyString
  | String c r =>
      match rstrip r with
      | EmptyString => if is_space c then EmptyString else String c EmptyString
      | r' => String c r'
      end
  end.

Definition strip (s : string) : string := rstrip (lstrip s).

(** [s.startswith(p)] *)
Fixpoint startswith (p s : string) : bool :=
  match p, s with
  | EmptyString, _ => true
  | String a p', String b s' => Ascii.eqb a b && startswith p' s'
  | String _ _, EmptyString => false
  end.

(** [s.split(sep)] for a one-character separator. *)
Fixpoint split (sep : ascii) (s : string) : list string :=
  match s with
  | EmptyString => EmptyString :: nil
  | String c r =>
      if Ascii.eqb c sep then EmptyString :: split sep r
      else match split sep r with
           | h :: t => String c h :: t
           | nil => String c EmptyString :: nil
           end
  end.

(** [sep.join(l)] *)
Fixpoint join (sep : string) (l : list string) : string :=
  match l with
  | nil => EmptyString
  | x :: nil => x
  | x :: r => x ++ sep ++ join sep r
  end.

(** *** [int(text)]

    A text is kept as its UTF-8 encoding, the form in which the server
    holds it, so [int] stands for [int(raw.decode("utf-8"))] as
    [realm_max_requests] and [realm_timespan] write it.  The definitions
    follow CPython 3 (3.6 and later, where digits may be grouped with
    underscores): the text is first brought to ASCII, every white space
    character beyond ASCII becoming a blank and every decimal digit of
    another script the ASCII digit of the same value, and the result is
    read as [PyLong_FromString] reads a literal in base 10.  The
    interpreter's configurable limit on the length of such a text
    ([sys.set_int_max_str_digits]) is taken to be off. *)

(** The payload of a continuation byte [10xxxxxx]. *)
Definition continuation (c : ascii) : option N :=
  let n := N_of_ascii c in
  if ((128 <=? n) && (n <? 192))%N then Some (n - 128)%N else None.

(** [str.isspace] beyond ASCII. *)
Definition unicode_space (cp : N) : bool :=
  existsb (N.eqb cp) (133 :: 160 :: 5760 :: 8232 :: 8233 :: 8239 :: 8287
                      :: 12288 :: nil)%N
  || ((8192 <=? cp) && (cp <=? 8202))%N.

(** The code points of the digit zero in the scripts that have decimal
    digits of their own (general category Nd, Unicode 14.0); the other nine
    digits of each script follow its zero. *)
Definition decimal_zeros : list N :=
  (1632 :: 1776 :: 1984 :: 2406 :: 2534 :: 2662 :: 2790 :: 2918 :: 3046
   :: 3174 :: 3302 :: 3430 :: 3558 :: 3664 :: 3792 :: 3872 :: 4160 :: 4240
   :: 6112 :: 6160 :: 6470 :: 6608 :: 6784 :: 6800 :: 6992 :: 7088 :: 7232
   :: 7248 :: 42528 :: 43216 :: 43264 :: 43472 :: 43504 :: 43600 :: 44016
   :: 65296 :: 66720 :: 68912 :: 69734 :: 69872 :: 69942 :: 70096 :: 70384
   :: 70736 :: 70864 :: 71248 :: 71360 :: 71472 :: 71904 :: 72016 :: 72784
   :: 73040 :: 73120 :: 92768 :: 92864 :: 93008 :: 120782 :: 120792
   :: 120802 :: 120812 :: 120822 :: 123200 :: 123632 :: 125264 :: 130032
   :: nil)%N.

(** [Py_UNICODE_TODECIMAL] beyond ASCII. *)
Definition unicode_decimal (cp : N) : option N :=
  match List.find (fun zero => (zero <=? cp) && (cp <? zero + 10))%N
                  decimal_zeros with
  | Some zero => Some (cp - zero)%N
  | None => None
  end.

(** What a character beyond ASCII becomes: a blank, an ASCII digit, or a
    question mark, which no literal contains. *)
Definition ascii_of_code_point (cp : N) : ascii :=
  if unicode_space cp then " "%char
  else match unicode_decimal cp with
       | Some d => ascii_of_N (48 + d)
       | None => "?"%char
       end.

(** [_PyUnicode_TransformDecimalAndSpaceToASCII], on the UTF-8 bytes of the
    text; [None] when the bytes encode no text (a stray continuation byte,
    an overlong form, a surrogate, a code point above U+10FFFF, a sequence
    cut short). *)
Fixpoint transform_decimal_and_space_to_ascii (s : string) : option string :=
  match s with
  | EmptyString => Some EmptyString
  | String a r =>
      let n := N_of_ascii a in
      if (n <? 128)%N then
        option_map (String a) (transform_decimal_and_space_to_ascii r)
      else if (n <? 194)%N then None
      else if (n <? 224)%N then
        match r with
        | String b r1 =>
            match continuation b with
            | Some y =>
                option_map
                  (String (ascii_of_code_point ((n - 192) * 64 + y)%N))
                  (transform_decimal_and_space_to_ascii r1)
            | None => None
            end
        | EmptyString => None
        end
      else if (n <? 240)%N then
        match r with
        | String b (String c r2) =>
            match continuation b, continuation c with
            | Some y, Some z =>
                let cp := ((n - 224) * 4096 + y * 64 + z)%N in
                if ((cp <? 2048) || ((55296 <=? cp) && (cp <=? 57343)))%N
                then None
                else option_map (String (ascii_of_code_point cp))
                       (transform_decimal_and_space_to_ascii r2)
            | _, _ => None
            end
        | _ => None
        end
      else if (n <? 245)%N then
        match r with
        | String b (String c (String d r3)) =>
            match continuation b, continuation c, continuation d with
            | Some y, Some z, Some u =>
                let cp := ((n - 240) * 262144 + y * 4096 + z * 64 + u)%N in
                if ((cp <? 65536) || (1114111 <? cp))%N then None
                else option_map (String (ascii_of_code_point cp))
                       (transform_decimal_and_space_to_ascii r3)
            | _, _, _ => None
            end
        | _ => None
        end
      else None
  end.

(** [Py_ISSPACE]: the white space of the C locale. *)
Definition Py_ISSPACE (c : ascii) : bool :=
  match nat_of_ascii c with
  | 9%nat | 10%nat | 11%nat | 12%nat | 13%nat | 32%nat => true
  | _ => false
  end.

Fixpoint skip_spaces (s : string) : string :=
  match s with
  | String c r => if Py_ISSPACE c then skip_spaces r else s
  | EmptyString => EmptyString
  end.

Definition is_digit (c : ascii) : bool :=
  let n := N_of_ascii c in ((48 <=? n) && (n <=? 57))%N.

(** The scan of [PyLong_FromString] over digits and underscores: the digits
    read and the text left; [None] for two underscores in a row and for an
    underscore that no digit follows.  [prev] says that the character just
    read was an underscore. *)
Fixpoint scan_digits (prev : bool) (s : string) : option (string * string) :=
  match s with
  | String c r =>
      if is_digit c then
        match scan_digits false r with
        | Some (ds, rest) => Some (String c ds, rest)
        | None => None
        end
      else if Ascii.eqb c "_" then
        if prev then None else scan_digits true r
      else if prev then None else Some (EmptyString, s)
  | EmptyString => if prev then None else Some (EmptyString, EmptyString)
  end.

Definition invalid_literal : result Z :=
  Raise (ValueError "invalid literal for int() with base 10").

(** [PyLong_FromString] in base 10: white space, one sign, digits in groups
    that single underscores separate, white space, and nothing else.  (The
    message of the error is kept without the quoted text.) *)
Definition PyLong_FromString (s : string) : result Z :=
  let unsigned (t : string) : result Z :=
    match t with
    | String "_" _ => invalid_literal
    | _ =>
        match scan_digits false t with
        | Some (ds, rest) =>
            match NilZero.uint_of_string ds, skip_spaces rest with
            | Some d, EmptyString => Return (Z.of_uint d)
            | _, _ => invalid_literal
            end
        | None => invalid_literal
        end
    end in
  match skip_spaces s with
  | String "+" r => unsigned r
  | String "-" r =>
      match unsigned r with
      | Return z => Return (- z)
      | Raise e => Raise e
      end
  | t => unsigned t
  end.

(** [int(raw.decode("utf-8"))]: bytes that are no UTF-8 text end in the
    error of [decode], every other text in what [PyLong_FromString] makes of
    its ASCII form. *)
Definition int (s : string) : result Z :=
  match transform_decimal_and_space_to_ascii s with
  | Some t => PyLong_FromString t
  | None => Raise (UnicodeDecodeError "'utf-8' codec can't decode bytes")
  end.

End Py.

Import Py.

(** ** The Redis server, as far as the wrapper uses it *)

Module Redis.

(** *** Glob patterns of [KEYS] and [SCAN ... MATCH] *)

Inductive class_item : Type :=
  | CChar (c : ascii)
  | CRange (lo hi : ascii).

Inductive token : Type :=
  | TStar
  | TAny
  | TClass (negated : bool) (items : list class_item)
  | TLit (c : ascii).

(** Reading a pattern left to right.  [cls] is [Some (negated, items)] while
    the reader is inside a bracket expression; a bracket expression that is
    never closed ends with the pattern. *)
Fixpoint tokens (cls : option (bool * list class_item)) (p : string)
  {struct p} : list token :=
  match p with
  | EmptyString =>
      match cls with
      | None => nil
      | Some (neg, items) => TClass neg (rev items) :: nil
      end
  | String c r =>
      match cls with
      | None =>
          if Ascii.eqb c "*" then TStar :: tokens None r
          else if Ascii.eqb c "?" then TAny :: tokens None r
          else if Ascii.eqb c "[" then
            match r with
            | String d r' =>
                if Ascii.eqb d "^" then tokens (Some (true, nil)) r'
                else tokens (Some (false, nil)) r
            | EmptyString => tokens (Some (false, nil)) r
            end
          else if Ascii.eqb c "\" then
            match r with
            | String d r' => TLit d :: tokens None r'
            | EmptyString => TLit c :: nil
            end
          else TLit c :: tokens None r
      | Some (neg, items) =>
          match r with
          | String d r' =>
              if Ascii.eqb c "\" then tokens (Some (neg, CChar d :: items)) r'
              else if Ascii.eqb c "]" then TClass neg (rev items) :: tokens None r
              else if Ascii.eqb d "-" then
                match r' with
                | String e r'' => tokens (Some (neg, CRange c e :: items)) r''
                | EmptyString => tokens (Some (neg, CChar c :: items)) r
                end
              else tokens (Some (neg, CChar c :: items)) r
          | EmptyString =>
              if Ascii.eqb c "]" then TClass neg (rev items) :: nil
              else TClass neg (rev (CChar c :: items)) :: nil
          end
      end
  end.

Definition in_item (c : ascii) (i : class_item) : bool :=
  match i with
  | CChar d => Ascii.eqb c d
  | CRange lo hi =>
      let a := N_of_ascii lo in
      let b := N_of_ascii hi in
      let x := N_of_ascii c in
      ((N.min a b <=? x) && (x <=? N.max a b))%N
  end.

Fixpoint token_match (ts : list token) (s : string) {struct ts} : bool :=
  match ts with
  | nil => match s with EmptyString => true | _ => false end
  | TStar :: ts' =>
      (fix star (s : string) : bool :=
         token_match ts' s ||
         match s with
         | String _ r => star r
         | EmptyString => false
         end) s
  | TAny :: ts' =>
      match s with
      | String _ r => token_match ts' r
      | EmptyString => false
      end
  | TClass neg items :: ts' =>
      match s with
      | String c r => xorb neg (existsb (in_item c) items) && token_match ts' r
      | EmptyString => false
      end
  | TLit c :: ts' =>
      match s with
      | String d r => Ascii.eqb c d && token_match ts' r
      | EmptyString => false
      end
  end.

(** The server's matcher never lets a non-empty pattern match the empty
    string. *)
Definition stringmatch (pattern s : string) : bool :=
  match s with
  | EmptyString => match pattern with EmptyString => true | _ => false end
  | _ => token_match (tokens None pattern) s
  end.

(** *** The keyspace

    The wrapper keeps three kinds of keys: hashes (realm definitions), one
    set (the realm index) and plain strings with a time to live (the
    requests).  The keyspace is kept as one table per kind; a string is
    stored with the instant at which it expires. *)
Record db : Type := mkDb {
  hashes : gmap string (gmap string string);
  sets : gmap string (gset string);
  strings : gmap string (string * Z)
}.

Definition empty : db := mkDb ∅ ∅ ∅.

Definition all_keys (d : db) : gset string :=
  dom (hashes d) ∪ dom (sets d) ∪ dom (strings d).

Definition hexists (d : db) (name key : string) : bool :=
  match hashes d !! name with
  | Some h => bool_decide (is_Some (h !! key))
  | None => false
  end.

Definition hgetall (d : db) (name : string) : gmap string string :=
  default ∅ (hashes d !! name).

(** [HMSET]/[HSET]: the given fields are written over the stored ones. *)
Definition hmset (d : db) (name : string) (mapping : gmap string string) : db :=
  mkDb (<[name := mapping ∪ hgetall d name]> (hashes d)) (sets d) (strings d).

Definition hset (d : db) (name key value : string) : db :=
  mkDb (<[name := <[key := value]> (hgetall d name)]> (hashes d))
       (sets d) (strings d).

Definition smembers (d : db) (name : string) : gset string :=
  default ∅ (sets d !! name).

Definition sadd (d : db) (name member : string) : db :=
  mkDb (hashes d) (<[name := {[member]} ∪ smembers d name]> (sets d)) (strings d).

(** A set that loses its last member disappears from the keyspace. *)
Definition srem (d : db) (name member : string) : db :=
  let s := smembers d name ∖ {[member]} in
  mkDb (hashes d)
       (if decide (s = ∅) then delete name (sets d) else <[name := s]> (sets d))
       (strings d).

Definition delete (d : db) (name : string) : db :=
  mkDb (base.delete name (hashes d)) (base.delete name (sets d))
       (base.delete name (strings d)).

(** [KEYS pattern]; the order of the answer is the server's. *)
Definition keys (d : db) (pattern : string) : list string :=
  List.filter (stringmatch pattern) (elements (all_keys d)).

(** [SCAN 0 MATCH pattern COUNT n], answered in a single complete pass: the
    wrapper asks for more elements than the database holds. *)
Definition scan (d : db) (pattern : string) : list string :=
  List.filter (stringmatch pattern) (elements (all_keys d)).

(** [INFO] lists a database only when it holds at least one key. *)
Definition info_keys (d : db) : option Z :=
  let n := size (all_keys d) in
  if decide (n = 0%nat) then None else Some (Z.of_nat n).

(** [SETEX name time value] at instant [now]; [SET] replaces a key of any
    kind. *)
Definition setex (d : db) (now : Z) (name : string) (time : Z) (value : string)
  : result db :=
  if decide (time <= 0) then Raise (ResponseError "invalid expire time in setex")
  else Return (mkDb (base.delete name (hashes d)) (base.delete name (sets d))
                    (<[name := (value, now + time)]> (strings d))).

(** Keys whose time to live has run out at instant [now] are gone. *)
Definition expire (d : db) (now : Z) : db :=
  mkDb (hashes d) (sets d) (filter (λ kv, now < snd (snd kv)) (strings d)).

End Redis.

Notation "'do' x <- m ; k" := (bind m (fun x => k))
  (at level 10, x name, m at level 100, k at level 200,
   format "'[v' 'do'  x  <-  m ; '/' k ']'").
Notation "'run' m ; k" := (bind m (fun _ => k))
  (at level 10, m at level 100, k at level 200,
   format "'[v' 'run'  m ; '/' k ']'").

(** ** YAML documents and the operators applied to them *)

Module Yaml.

#[warnings="-register-all"] Inductive node : Type :=
  | YNull
  | YBool (b : bool)
  | YInt (z : Z)
  | YFloat (repr : string)
  | YStr (s : string)
  | YSeq (items : list node)
  | YMap (entries : list (string * node)).

Fixpoint assoc (k : string) (l : list (string * node)) : option node :=
  match l with
  | nil => None
  | (k', v) :: r => if String.eqb k k' then Some v else assoc k r
  end.

Fixpoint assoc_set (k : string) (v : node) (l : list (string * node))
  : list (string * node) :=
  match l with
  | nil => (k, v) :: nil
  | (k', v') :: r =>
      if String.eqb k k' then (k, v) :: r else (k', v') :: assoc_set k v r
  end.

Fixpoint substring_of (p s : string) : bool :=
  startswith p s ||
  match s with
  | String _ r => substring_of p r
  | EmptyString => false
  end.

Definition is_str (k : string) (n : node) : bool :=
  match n with
  | YStr s => String.eqb k s
  | _ => false
  end.

(** [k in n] for a string [k] *)
Definition contains (k : string) (n : node) : result bool :=
  match n with
  | YMap l => Return (bool_decide (is_Some (assoc k l)))
  | YSeq l => Return (existsb (is_str k) l)
  | YStr s => Return (substring_of k s)
  | _ => Raise (TypeError "argument is not iterable")
  end.

(** [n[k]] for a string [k] *)
Definition getitem (n : node) (k : string) : result node :=
  match n with
  | YMap l =>
      match assoc k l with
      | Some v => Return v
      | None => Raise (KeyError k)
      end
  | YSeq _ => Raise (TypeError "list indices must be integers or slices, not str")
  | YStr _ => Raise (TypeError "string indices must be integers")
  | _ => Raise (TypeError "object is not subscriptable")
  end.

(** [n[k] = v] for a string [k] *)
Definition setitem (n : node) (k : string) (v : node) : result node :=
  match n with
  | YMap l => Return (YMap (assoc_set k v l))
  | YSeq _ => Raise (TypeError "list indices must be integers or slices, not str")
  | _ => Raise (TypeError "object does not support item assignment")
  end.

(** [isinstance(n, int)]: [bool] is a subclass of [int]. *)
Definition isinstance_int (n : node) : bool :=
  match n with
  | YInt _ | YBool _ => true
  | _ => false
  end.

(** [n < 0], asked only of instances of [int]. *)
Definition negative (n : node) : bool :=
  match n with
  | YInt z => z <? 0
  | _ => false
  end.

End Yaml.

Import Yaml.

(** ** The process: server, clock, identifier source, actuator *)

(** What [get_func] is to the wrapper: whether it is a function object, the
    text [inspect.getsource] returns for it, and what calling it produces. *)
Record func : Type := mkFunc {
  is_function : bool;
  getsource : string;
  call : result value
}.

Record world : Type := mkWorld {
  redis : Redis.db;
  clock : Z;                (* seconds *)
  uuid4 : nat -> string;    (* the identifiers [uuid.uuid4()] hands out *)
  drawn : nat;              (* how many of them were taken *)
  navigations : nat;        (* how often [get_func] was called *)
  slept : Z                 (* seconds spent in [time.sleep] *)
}.

(** Statements run in a world and may raise; what they did before raising
    stays done. *)
Definition M (A : Type) : Type := world -> result A * world.

Definition ret {A : Type} (a : A) : M A := fun w => (Return a, w).

Definition raise {A : Type} (e : exn) : M A := fun w => (Raise e, w).

Definition mbind {A B : Type} (m : M A) (k : A -> M B) : M B :=
  fun w =>
    match m w with
    | (Return a, w') => k a w'
    | (Raise e, w') => (Raise e, w')
    end.

Definition lift {A : Type} (r : result A) : M A := fun w => (r, w).

Notation "'let*' x := m 'in' k" := (mbind m (fun x => k))
  (at level 10, x name, m at level 100, k at level 200,
   format "'[v' 'let*'  x  :=  m  'in' '/' k ']'").
Notation "m >> k" := (mbind m (fun _ => k))
  (at level 62, right associativity).

Fixpoint for_each {A : Type} (l : list A) (body : A -> M unit) : M unit :=
  match l with
  | nil => ret tt
  | x :: r => body x >> for_each r body
  end.

Definition with_redis {A : Type} (f : Redis.db -> A) : M A :=
  fun w => (Return (f (redis w)), w).

Definition update_redis (f : Redis.db -> Redis.db) : M unit :=
  fun w => (Return tt,
            mkWorld (f (redis w)) (clock w) (uuid4 w) (drawn w)
                    (navigations w) (slept w)).

(** [str(uuid.uuid4())] *)
Definition new_uuid : M string :=
  fun w => (Return (uuid4 w (drawn w)),
            mkWorld (redis w) (clock w) (uuid4 w) (S (drawn w))
                    (navigations w) (slept w)).

(** [time.sleep(seconds)]: the clock moves and the server retires the keys
    whose time has come. *)
Definition sleep (seconds : Z) : M unit :=
  fun w => (Return tt,
            mkWorld (Redis.expire (redis w) (clock w + seconds))
                    (clock w + seconds) (uuid4 w) (drawn w)
                    (navigations w) (slept w + seconds)).

(** [get_func()] *)
Definition invoke (get_func : func) : M value :=
  fun w => (call get_func,
            mkWorld (redis w) (clock w) (uuid4 w) (drawn w)
                    (S (navigations w)) (slept w)).

(** ** class RespectfulWebdriver *)

Definition default_config : node :=
  YMap (("redis", YMap (("host", YStr "localhost")
                        :: ("port", YInt 6379)
                        :: ("database", YInt 0) :: nil))
        :: ("safety_threshold", YInt 0) :: nil).

Definition redis_prefix : string := "SeleniumRequester".

Definition _realm_redis_key (realm : string) : string :=
  redis_prefix ++ ":REALMS:" ++ realm.

(** The key of the realm index, ["%s:REALMS" % self.redis_prefix]. *)
Definition realms_key : string := redis_prefix ++ ":REALMS".

(** ["%s:REQUEST:%s:*" % (self.redis_prefix, realm)] *)
Definition request_pattern (realm : string) : string :=
  redis_prefix ++ ":REQUEST:" ++ realm ++ ":*".

(** ["%s:REQUEST:%s:%s" % (self.redis_prefix, realm, request_uuid)] *)
Definition request_key (realm request_uuid : string) : string :=
  redis_prefix ++ ":REQUEST:" ++ realm ++ ":" ++ request_uuid.

Definition register_realm (realm : string) (max_requests timespan : value)
  : M bool :=
  let redis_key := _realm_redis_key realm in
  let* present := with_redis (fun d => Redis.hexists d redis_key "max_requests") in
  if negb present then
    update_redis (fun d =>
      Redis.hmset d redis_key
        (<["max_requests" := str max_requests]>
           (<["timespan" := str timespan]> ∅))) >>
    update_redis (fun d => Redis.sadd d realms_key realm) >>
    ret true
  else ret true.

Definition register_realms (realm_tuples : list (string * value * value))
  : M bool :=
  for_each realm_tuples
    (fun '(realm, max_requests, timespan) =>
       register_realm realm max_requests timespan >> ret tt) >>
  ret true.

Definition update_realm (realm : string) (kwargs : gmap string value)
  : M bool :=
  let redis_key := _realm_redis_key realm in
  let updatable_keys := "max_requests" :: "timespan" :: nil in
  for_each updatable_keys
    (fun updatable_key =>
       match kwargs !! updatable_key with
       | Some v =>
           if type_is_int v
           then update_redis (fun d => Redis.hset d redis_key updatable_key (str v))
           else ret tt
       | None => ret tt
       end) >>
  ret true.

Definition unregister_realm (realm : string) : M bool :=
  update_redis (fun d => Redis.delete d (_realm_redis_key realm)) >>
  update_redis (fun d => Redis.srem d realms_key realm) >>
  let* request_keys := with_redis (fun d => Redis.keys d (request_pattern realm)) in
  for_each request_keys (fun k => update_redis (fun d => Redis.delete d k)) >>
  ret true.

Definition unregister_realms (realms : list string) : M bool :=
  for_each realms (fun realm => unregister_realm realm >> ret tt) >>
  ret true.

Definition fetch_registered_realms : M (list string) :=
  with_redis (fun d => elements (Redis.smembers d realms_key)).

Definition _fetch_realm_info (realm : string) : M (gmap string string) :=
  let redis_key := _realm_redis_key realm in
  with_redis (fun d => Redis.hgetall d redis_key).

(** [int(realm_info[field]...)] *)
Definition realm_field (field realm : string) : M Z :=
  let* realm_info := _fetch_realm_info realm in
  match realm_info !! field with
  | Some raw => lift (int raw)
  | None => raise (KeyError field)
  end.

Definition realm_max_requests (realm : string) : M Z :=
  realm_field "max_requests" realm.

Definition realm_timespan (realm : string) : M Z :=
  realm_field "timespan" realm.

Definition _redis_keys_in_db : M Z :=
  let* entry := with_redis Redis.info_keys in
  match entry with
  | Some n => ret n
  | None => raise (AttributeError "'NoneType' object has no attribute 'get'")
  end.

Definition _requests_in_timespan (realm : string) : M Z :=
  let* _count := _redis_keys_in_db in
  let* found := with_redis (fun d => Redis.scan d (request_pattern realm)) in
  ret (Z.of_nat (length found)).

(** [safety_threshold] stands for [self.config["safety_threshold"]]. *)
Definition _can_perform_get (safety_threshold : Z) (realm : string) : M bool :=
  let* used := _requests_in_timespan realm in
  let* allowed := realm_max_requests realm in
  ret (used <? allowed - safety_threshold).

Definition _validate_get_func (get_func : func) : M unit :=
  if negb (is_function get_func) then
    raise (SeleniumRespectfulError "'get_func' is expected to be a lambda")
  else
    let get_func_string := getsource get_func in
    match nth_error (split ":" get_func_string) 1 with
    | None => raise (IndexError "list index out of range")
    | Some piece =>
        let post_lambda_string := strip piece in
        if negb (startswith "self.webdriver.get" post_lambda_string) then
          raise (SeleniumRespectfulError
                   "The lambda can only contain a self.webdriver.get function call")
        else ret tt
    end.

(** The first loop of [_perform_webdriver_get]: the realms that cannot take
    one more request, in the order asked. *)
Fixpoint rate_limited (safety_threshold : Z) (realms : list string)
  : M (list string) :=
  match realms with
  | nil => ret nil
  | realm :: rest =>
      let* ok := _can_perform_get safety_threshold realm in
      let* others := rate_limited safety_threshold rest in
      ret (if negb ok then realm :: others else others)
  end.

Definition _perform_webdriver_get (safety_threshold : Z) (get_func : func)
  (realms : list string) : M value :=
  _validate_get_func get_func >>
  let* rate_limited_realms := rate_limited safety_threshold realms in
  if (length rate_limited_realms =? 0)%nat then
    for_each realms
      (fun realm =>
         let* request_uuid := new_uuid in
         let* time := realm_timespan realm in
         fun w =>
           match Redis.setex (redis w) (clock w)
                   (request_key realm request_uuid) time request_uuid with
           | Return d => update_redis (fun _ => d) w
           | Raise e => (Raise e, w)
           end) >>
    invoke get_func
  else
    raise (SeleniumRespectfulRateLimitedError
             ("Currently rate-limited on Realm(s): "
              ++ join ", " rate_limited_realms)).

(** The [while True] loop of [_webdriver_get]; [None] when [fuel] rounds were
    not enough to leave it. *)
Fixpoint wait_loop (fuel : nat) (safety_threshold : Z) (get_func : func)
  (realms : list string) (w : world) : option (result value * world) :=
  match fuel with
  | O => None
  | S fuel' =>
      match _perform_webdriver_get safety_threshold get_func realms w with
      | (Raise (SeleniumRespectfulRateLimitedError _), w') =>
          wait_loop fuel' safety_threshold get_func realms (snd (sleep 1 w'))
      | outcome => Some outcome
      end
  end.

Definition _webdriver_get (fuel : nat) (safety_threshold : Z) (get_func : func)
  (realms : list string) (wait : bool) (w : world)
  : option (result value * world) :=
  match
    (let* registered_realms := fetch_registered_realms in
     for_each realms
       (fun realm =>
          if negb (bool_decide (realm ∈ registered_realms)) then
            raise (SeleniumRespectfulError
                     ("Realm '" ++ realm ++ "' hasn't been registered"))
          else ret tt)) w
  with
  | (Raise e, w') => Some (Raise e, w')
  | (Return _, w') =>
      if wait then wait_loop fuel safety_threshold get_func realms w'
      else Some (_perform_webdriver_get safety_threshold get_func realms w')
  end.

(** The function object that [_selenium_webdriver_proxy_get] builds:
    a lambda around one call of [self.webdriver.get], whose source text is
    the statement it is written in. *)
Definition proxy_lambda (navigate : result value) : func :=
  mkFunc true
    ("        return self._webdriver_get(lambda: self.webdriver.get("
     ++ "*args, **kwargs), realms=realms, wait=wait)")
    navigate.

Definition _selenium_webdriver_proxy_get (fuel : nat) (safety_threshold : Z)
  (navigate : result value) (realms : list string) (wait : bool) (w : world)
  : option (result value * world) :=
  if (length realms =? 0)%nat then
    Some (Raise (SeleniumRespectfulError "'realms' is a required kwarg"), w)
  else _webdriver_get fuel safety_threshold (proxy_lambda navigate) realms wait w.

(** *** Configuration and construction *)

(** The second loop of [_load_config]: the expected keys that
    [config["redis"]] lacks. *)
Fixpoint missing_keys (section : node) (expected : list string)
  : result (list string) :=
  match expected with
  | nil => Return nil
  | expected_redis_key :: rest =>
      do present <- contains expected_redis_key section;
      do others <- missing_keys section rest;
      Return (if negb present then expected_redis_key :: others else others)
  end.

(** [file] is what [yaml.load] reads from ["selenium-respectful.config.yml"],
    or [None] when opening it raises [FileNotFoundError].  The answer [YNull]
    is Python's [None]. *)
Definition _load_config (file : option node) : result node :=
  match file with
  | None => Return default_config
  | Some config =>
      do has_threshold <- contains "safety_threshold" config;
      do config <-
        (if negb has_threshold then
           do default <- getitem default_config "safety_threshold";
           setitem config "safety_threshold" default
         else
           do threshold <- getitem config "safety_threshold";
           if negb (isinstance_int threshold) || negative threshold then
             Raise (SeleniumRespectfulError
               "'safety_threshold' key must be a positive integer in 'selenium-respectful.config.yml'")
           else Return config);
      do has_redis <- contains "redis" config;
      if negb has_redis then
        Raise (SeleniumRespectfulError
          "'redis' key is missing from 'selenium-respectful.config.yml'")
      else
        let expected_redis_keys := "host" :: "port" :: "database" :: nil in
        do section <- getitem config "redis";
        do missing_redis_keys <- missing_keys section expected_redis_keys;
        if negb (length missing_redis_keys =? 0)%nat then
          Raise (SeleniumRespectfulError
            ("'" ++ join ", " missing_redis_keys ++ "' "
             ++ (if (length missing_redis_keys =? 1)%nat then "is" else "are")
             ++ " missing from the 'redis' configuration key in 'selenium-respectful.config.yml'"))
        else Return YNull
  end.

(** What the constructor meets outside the object. *)
Record surroundings : Type := mkSurroundings {
  config_file : option node;     (* the parsed file, if there is one *)
  webdriver_is_remote : bool;    (* [WebDriver in webdriver.__class__.__bases__] *)
  server_answers : bool          (* [self.redis.echo] does not raise *)
}.

(** The attributes set by [__init__]: the configuration and the arguments
    given to [StrictRedis]. *)
Record instance : Type := mkInstance {
  config : node;
  host : node;
  port : node;
  database : node
}.

Definition __init__ (env : surroundings) : result instance :=
  do config <- _load_config (config_file env);
  if negb (webdriver_is_remote env) then
    Raise (SeleniumRespectfulError
      "The provided webdriver does not inherit from RemoteWebDriver")
  else
    do section <- getitem config "redis";
    do host <- getitem section "host";
    do section <- getitem config "redis";
    do port <- getitem section "port";
    do section <- getitem config "redis";
    do database <- getitem section "database";
    if negb (server_answers env) then
      Raise (SeleniumRespectfulError
        "Could not establish a connection to the provided Redis server")
    else Return (mkInstance config host port database).

(** ** Vocabulary of the properties *)

(** The realm has a stored definition: the test [register_realm] makes. *)
Definition has_definition (d : Redis.db) (realm : string) : bool :=
  Redis.hexists d (_realm_redis_key realm) "max_requests".

(** The realm is named in the registry index. *)
Definition registered (d : Redis.db) (realm : string) : Prop :=
  realm ∈ Redis.smembers d realms_key.

(** One field of the realm's stored definition, as the server keeps it. *)
Definition stored (d : Redis.db) (realm field : string) : option string :=
  Redis.hgetall d (_realm_redis_key realm) !! field.

(** The integer a call of [update_realm] supplies for a field, if any. *)
Definition supplied_int (kwargs : gmap string value) (field : string)
  : option Z :=
  match kwargs !! field with
  | Some (PyInt z) => Some z
  | _ => None
  end.

(** The number of live requests the server reports for the realm. *)
Definition active_count (d : Redis.db) (realm : string) : Z :=
  Z.of_nat (length (Redis.scan d (request_pattern realm))).

(** The stored integer of a field, when there is one. *)
Definition stored_int (d : Redis.db) (realm field : string) : option Z :=
  match stored d realm field with
  | Some raw =>
      match int raw with
      | Return z => Some z
      | Raise _ => None
      end
  | None => None
  end.

(** [capacity = max_requests - safety_threshold] and
    [headroom = capacity - active_count]. *)
Definition headroom (d : Redis.db) (safety_threshold : Z) (realm : string)
  : option Z :=
  match stored_int d realm "max_requests" with
  | Some max_requests =>
      Some (max_requests - safety_threshold - active_count d realm)
  | None => None
  end.

Definition has_room (d : Redis.db) (safety_threshold : Z) (realm : string)
  : bool :=
  match headroom d safety_threshold realm with
  | Some h => 0 <? h
  | None => false
  end.

(** The realms of a request that have no headroom left, in the order asked. *)
Definition saturated (d : Redis.db) (safety_threshold : Z)
  (realms : list string) : list string :=
  List.filter (fun realm => negb (has_room d safety_threshold realm)) realms.

Definition is_rate_limited (e : exn) : bool :=
  match e with
  | SeleniumRespectfulRateLimitedError _ => true
  | _ => false
  end.

Definition is_respectful_error (e : exn) : bool :=
  match e with
  | SeleniumRespectfulError _ => true
  | _ => false
  end.

(** What one round of the wait loop hands back when the loop ends there:
    anything but a rate-limited error. *)
Definition leaves_loop (outcome : result value * world) : bool :=
  match fst outcome with
  | Raise e => negb (is_rate_limited e)
  | Return _ => true
  end.

(** [rounds t g realms w k o]: starting in [w], the wait loop is denied [k]
    times, sleeping one second after each denial, and its next attempt ends
    with [o]. *)
Inductive rounds (safety_threshold : Z) (get_func : func)
  (realms : list string) : world -> nat -> result value * world -> Prop :=
  | rounds_leave w o :
      _perform_webdriver_get safety_threshold get_func realms w = o ->
      leaves_loop o = true ->
      rounds safety_threshold get_func realms w 0 o
  | rounds_denied w msg w' k o :
      _perform_webdriver_get safety_threshold get_func realms w
        = (Raise (SeleniumRespectfulRateLimitedError msg), w') ->
      rounds safety_threshold get_func realms (snd (sleep 1 w')) k o ->
      rounds safety_threshold get_func realms w (S k) o.

(** The requests that a granted admission writes: the [i]-th realm asked
    gets the [i]-th identifier drawn, for that realm's own time span. *)
Definition lease (w : world) (timespan_of : string -> Z) (i : nat)
  (realm : string) : string * (string * Z) :=
  let request_uuid := uuid4 w (drawn w + i)%nat in
  (request_key realm request_uuid,
   (request_uuid, clock w + timespan_of realm)).

Definition leases (w : world) (timespan_of : string -> Z)
  (realms : list string) : list (string * (string * Z)) :=
  imap (lease w timespan_of) realms.

(** The characters that mean something else than themselves in a pattern. *)
Definition is_glob_special (c : ascii) : bool :=
  Ascii.eqb c "*" || Ascii.eqb c "?" || Ascii.eqb c "[" || Ascii.eqb c "\".

Fixpoint plain (s : string) : bool :=
  match s with
  | EmptyString => true
  | String c r => negb (is_glob_special c) && plain r
  end.

(** Reading [max_requests] ends in the wrapper's own error, the one a
    realm-not-found failure would be reported with. *)
Definition read_reports_realm_not_found (w : world) (realm : string) : Prop :=
  exists msg,
    fst (realm_max_requests realm w) = Raise (SeleniumRespectfulError msg).

(** Every realm named in the index has a stored definition. *)
Definition index_sound (d : Redis.db) : Prop :=
  forall realm, registered d realm -> has_definition d realm = true.

(** The server after the requests [entries] (key, value, expiry) were
    written one after the other. *)
Definition issue (d : Redis.db) (entries : list (string * (string * Z)))
  : Redis.db :=
  fold_left
    (fun d entry =>
       Redis.mkDb (base.delete (fst entry) (Redis.hashes d))
                  (base.delete (fst entry) (Redis.sets d))
                  (<[fst entry := snd entry]> (Redis.strings d)))
    entries d.

(** The server after the keys [names] were deleted one after the other. *)
Definition delete_all (d : Redis.db) (names : list string) : Redis.db :=
  fold_left Redis.delete names d.

(** A statement that only looks at the world. *)
Definition read_only {A : Type} (m : M A) : Prop :=
  forall w, snd (m w) = w.

(** Two worlds at the same instant, with the same time slept and the same
    source of identifiers. *)
Definition same_time (w w' : world) : Prop :=
  clock w' = clock w /\ slept w' = slept w /\ uuid4 w' = uuid4 w.

(** A statement that takes no time. *)
Definition instant {A : Type} (m : M A) : Prop :=
  forall w, same_time w (snd (m w)).

(** Two worlds with the same realm index and the same realm definitions. *)
Definition same_registry (w w' : world) : Prop :=
  Redis.sets (redis w') !! realms_key = Redis.sets (redis w) !! realms_key
  /\ forall realm,
       Redis.hashes (redis w') !! _realm_redis_key realm
       = Redis.hashes (redis w) !! _realm_redis_key realm.

(** One call of the wrapper's interface, or one passage of time. *)
Inductive step : world -> world -> Prop :=
  | step_register realm max_requests timespan w :
      step w (snd (register_realm realm max_requests timespan w))
  | step_update realm kwargs w :
      step w (snd (update_realm realm kwargs w))
  | step_unregister realm w :
      step w (snd (unregister_realm realm w))
  | step_attempt safety_threshold get_func realms w :
      step w (snd (_perform_webdriver_get safety_threshold get_func realms w))
  | step_sleep seconds w :
      step w (snd (sleep seconds w)).

(** [get_func] passes [_validate_get_func]. *)
Definition valid_get_func (get_func : func) : Prop :=
  forall w, _validate_get_func get_func w = (Return tt, w).

(** *** Worlds and requests used as examples *)

Definition sample_uuid4 (n : nat) : string :=
  string_of_list_ascii (repeat "u"%char (S n)).

Definition fresh_world : world := mkWorld Redis.empty 0 sample_uuid4 0 0 0.

Definition navigate : func := proxy_lambda (Return PyNone).

(** One realm ["A"] with room for one request every two seconds. *)
Definition world_A : world :=
  snd (register_realm "A" (PyInt 1) (PyInt 2) fresh_world).

(** ... after one admitted request. *)
Definition world_A_busy : world :=
  snd (_perform_webdriver_get 0 navigate ("A" :: nil) world_A).

(** Realm ["A"] is full from the start, realm ["B"] has room for ten. *)
Definition world_AB : world :=
  snd (register_realm "B" (PyInt 10) (PyInt 60)
         (snd (register_realm "A" (PyInt 0) (PyInt 60) fresh_world))).

(** Two realms with room. *)
Definition world_CD : world :=
  snd (register_realm "D" (PyInt 5) (PyInt 30)
         (snd (register_realm "C" (PyInt 3) (PyInt 7) fresh_world))).

(** A realm ["api:v2"] with one admitted request, and no realm ["api"]. *)
Definition world_nested : world :=
  snd (_perform_webdriver_get 0 navigate ("api:v2" :: nil)
         (snd (register_realm "api:v2" (PyInt 5) (PyInt 60) fresh_world))).

(** A realm ["[a]"] with one admitted request. *)
Definition world_bracket : world :=
  snd (_perform_webdriver_get 0 navigate ("[a]" :: nil)
         (snd (register_realm "[a]" (PyInt 5) (PyInt 60) fresh_world))).

Definition sample_config : node :=
  YMap (("redis", YMap (("host", YStr "redis.internal")
                        :: ("port", YInt 6380)
                        :: ("database", YInt 2) :: nil))
        :: ("safety_threshold", YInt 3) :: nil).

(** *** Further vocabulary *)

(** No colon occurs in the string (as in the text of a UUID). *)
Fixpoint colon_free (s : string) : bool :=
  match s with
  | EmptyString => true
  | String c r => negb (Ascii.eqb c ":") && colon_free r
  end.

(** What every request key of a realm starts with. *)
Definition request_prefix (realm : string) : string :=
  redis_prefix ++ ":REQUEST:" ++ realm ++ ":".

(** The first tuple of a list that names the realm. *)
Fixpoint first_tuple (realm : string)
  (realm_tuples : list (string * value * value)) : option (value * value) :=
  match realm_tuples with
  | nil => None
  | (name, max_requests, timespan) :: rest =>
      if String.eqb realm name then Some (max_requests, timespan)
      else first_tuple realm rest
  end.

(** Every realm named in the index has both fields of its definition. *)
Definition index_defined (d : Redis.db) : Prop :=
  forall realm,
    registered d realm ->
    is_Some (stored d realm "max_requests")
    /\ is_Some (stored d realm "timespan").



(** Only whitespace occurs in the string. *)
Fixpoint blank (s : string) : bool :=
  match s with
  | EmptyString => true
  | String c r => is_space c && blank r
  end.

(** Neither whitespace nor a colon occurs in the string. *)
Fixpoint solid (s : string) : bool :=
  match s with
  | EmptyString => true
  | String c r => negb (is_space c) && negb (Ascii.eqb c ":") && solid r
  end.

(** The connection fields that a [redis] section lacks, in the order in
    which [_load_config] looks for them. *)
Definition lacking (section : list (string * node)) : list string :=
  List.filter (fun key => negb (bool_decide (is_Some (assoc key section))))
    ("host" :: "port" :: "database" :: nil).

(** The [safety_threshold] of a configuration passes the check: it is
    absent, or an instance of [int] that is not negative. *)
Definition threshold_accepted (entries : list (string * node)) : bool :=
  match assoc "safety_threshold" entries with
  | None => true
  | Some t => isinstance_int t && negb (negative t)
  end.

Definition is_mapping (n : node) : bool :=
  match n with
  | YMap _ => true
  | _ => false
  end.

(** *** The ledger in the spec's words

    The spec counts the leases of a realm; the code counts the keys that a
    pattern built from the realm's name matches.  The definitions of this
    part follow the spec, to be compared with [active_count], [headroom]
    and [saturated] above, which follow the code. *)

(** A lease of the realm, as the spec lays it out: an entry of the strings
    under the key [P:REQUEST:<realm>:<uuid>] that holds [<uuid>] until its
    time is up. *)
Definition is_lease_of (realm : string) (entry : string * (string * Z))
  : bool :=
  String.eqb (fst entry) (request_key realm (fst (snd entry))).

(** The leases of the realm that the server still holds. *)
Definition live_leases (d : Redis.db) (realm : string)
  : list (string * (string * Z)) :=
  List.filter (is_lease_of realm) (map_to_list (Redis.strings d)).

(** The spec's active count: the number of the realm's leases that have not
    expired. *)
Definition lease_count (d : Redis.db) (realm : string) : Z :=
  Z.of_nat (length (live_leases d realm)).

(** The spec's headroom: [max_requests - safety_threshold] less the active
    count. *)
Definition lease_headroom (d : Redis.db) (safety_threshold : Z)
  (realm : string) : option Z :=
  match stored_int d realm "max_requests" with
  | Some max_requests =>
      Some (max_requests - safety_threshold - lease_count d realm)
  | None => None
  end.

(** The realms of a request that the spec calls saturated: those whose
    headroom is zero or less, in the order asked. *)
Definition lease_saturated (d : Redis.db) (safety_threshold : Z)
  (realms : list string) : list string :=
  List.filter
    (fun realm =>
       match lease_headroom d safety_threshold realm with
       | Some h => h <=? 0
       | None => false
       end) realms.

(** The realm is counted exactly: the scan for its pattern finds as many
    keys as the realm has leases. *)
Definition counted_exactly (d : Redis.db) (realm : string) : Prop :=
  active_count d realm = lease_count d realm.

(** Every key that starts with the realm's request prefix is a lease of the
    realm. *)
Definition prefix_is_own (d : Redis.db) (realm : string) : Prop :=
  forall k rest,
    k ∈ Redis.all_keys d ->
    k = request_prefix realm ++ rest ->
    exists v, Redis.strings d !! k = Some v /\ is_lease_of realm (k, v) = true.

(** How often the realm is named in a request. *)
Definition times_asked (realms : list string) (realm : string) : nat :=
  length (List.filter (String.eqb realm) realms).

(** *** More worlds used as examples *)

(** Realm ["A"] was never registered, but [update_realm] gave it a
    [max_requests]. *)
Definition world_A_updated : world :=
  snd (update_realm "A" (<["max_requests" := PyInt 5]> ∅) fresh_world).

(** Realm ["api"] with room for one request, beside realm ["api:v2"] with
    one admitted request. *)
Definition world_api : world :=
  snd (register_realm "api" (PyInt 1) (PyInt 60) world_nested).

(** Realm ["C"] with room for three requests and realm ["Z"] registered
    with a time span of zero seconds. *)
Definition world_CZ : world :=
  snd (register_realm "Z" (PyInt 5) (PyInt 0)
         (snd (register_realm "C" (PyInt 3) (PyInt 7) fresh_world))).

(** Realm ["[a]"] with room for one request, after one admitted request. *)
Definition world_bracket_full : world :=
  snd (_perform_webdriver_get 0 navigate ("[a]" :: nil)
         (snd (register_realm "[a]" (PyInt 1) (PyInt 60) fresh_world))).

(** Realm ["A"] is full from the start and realm ["F"] was registered with
    a [max_requests] that is no number. *)
Definition world_AF : world :=
  snd (register_realm "F" (PyStr "FOO") (PyInt 60)
         (snd (register_realm "A" (PyInt 0) (PyInt 60) fresh_world))).

(** Realms ["C"] and ["D"] after one admitted request for both. *)
Definition world_CD_busy : world :=
  snd (_perform_webdriver_get 0 navigate ("C" :: "D" :: nil) world_CD).


(** * Properties *)

(** ** Python: printing and reading integers *)

Lemma transform_uint d :
  transform_decimal_and_space_to_ascii (NilEmpty.string_of_uint d)
  = Some (NilEmpty.string_of_uint d).
Proof.
  induction d; cbn [NilEmpty.string_of_uint transform_decimal_and_space_to_ascii];
    [reflexivity|..];
    match goal with
    | |- context [N.ltb (N_of_ascii ?c) 128] =>
        change (N.ltb (N_of_ascii c) 128) with true
    end; cbv iota; rewrite IHd; reflexivity.
Qed.

Lemma skip_spaces_uint d :
  skip_spaces (NilEmpty.string_of_uint d) = NilEmpty.string_of_uint d.
Proof. destruct d; reflexivity. Qed.

Lemma scan_digits_uint d :
  scan_digits false (NilEmpty.string_of_uint d)
  = Some (NilEmpty.string_of_uint d, EmptyString).
Proof.
  induction d; cbn [NilEmpty.string_of_uint scan_digits];
    [reflexivity|..];
    match goal with
    | |- context [is_digit ?c] => change (is_digit c) with true
    end; cbv iota; rewrite IHd; reflexivity.
Qed.

Lemma uint_of_string_uint d :
  d <> Decimal.Nil ->
  NilZero.uint_of_string (NilEmpty.string_of_uint d) = Some d.
Proof.
  intros Hd.
  replace (NilEmpty.string_of_uint d) with (NilZero.string_of_uint d)
    by now destruct d.
  now apply NilZero.usu.
Qed.

(** A run of digits reads as the number it spells. *)
Lemma unsigned_uint d :
  d <> Decimal.Nil ->
  match NilEmpty.string_of_uint d with
  | String "_" _ => invalid_literal
  | _ =>
      match scan_digits false (NilEmpty.string_of_uint d) with
      | Some (ds, rest) =>
          match NilZero.uint_of_string ds, skip_spaces rest with
          | Some d, EmptyString => Return (Z.of_uint d)
          | _, _ => invalid_literal
          end
      | None => invalid_literal
      end
  end = Return (Z.of_uint d).
Proof.
  intros Hd. rewrite scan_digits_uint, (uint_of_string_uint d Hd).
  destruct d; reflexivity.
Qed.

Lemma int_uint d :
  d <> Decimal.Nil ->
  int (NilEmpty.string_of_uint d) = Return (Z.of_uint d).
Proof.
  intros Hd. unfold int. rewrite transform_uint.
  unfold PyLong_FromString. rewrite skip_spaces_uint.
  rewrite <- (unsigned_uint d Hd).
  destruct d; reflexivity.
Qed.

Lemma int_neg_uint d :
  d <> Decimal.Nil ->
  int (String "-" (NilEmpty.string_of_uint d)) = Return (- Z.of_uint d).
Proof.
  intros Hd. unfold int.
  change (transform_decimal_and_space_to_ascii
            (String "-" (NilEmpty.string_of_uint d)))
    with (option_map (String "-")
            (transform_decimal_and_space_to_ascii (NilEmpty.string_of_uint d))).
  rewrite transform_uint. cbn [option_map].
  unfold PyLong_FromString.
  change (skip_spaces (String "-" (NilEmpty.string_of_uint d)))
    with (String "-" (NilEmpty.string_of_uint d)).
  cbv iota beta. rewrite (unsigned_uint d Hd). reflexivity.
Qed.

(** Reading back what [str] printed for an integer gives the integer. *)
Lemma int_str z : int (str (PyInt z)) = Return z.
Proof.
  destruct z as [|p|p]; [reflexivity | |]; cbn [str Z.to_int].
  - cbn [NilZero.string_of_int].
    pose proof (DecimalPos.Unsigned.to_uint_nonnil p) as Hp.
    replace (NilZero.string_of_uint (Pos.to_uint p))
      with (NilEmpty.string_of_uint (Pos.to_uint p))
      by now destruct (Pos.to_uint p).
    rewrite int_uint by assumption.
    f_equal. exact (DecimalZ.of_to (Z.pos p)).
  - cbn [NilZero.string_of_int].
    pose proof (DecimalPos.Unsigned.to_uint_nonnil p) as Hp.
    replace (NilZero.string_of_uint (Pos.to_uint p))
      with (NilEmpty.string_of_uint (Pos.to_uint p))
      by now destruct (Pos.to_uint p).
    rewrite int_neg_uint by assumption.
    f_equal. exact (DecimalZ.of_to (Z.neg p)).
Qed.

(** [int] on texts that are not the print of an integer: blanks around the
    number, a sign, single underscores between digits and the digits of
    other scripts are read; a blank after the sign, an underscore out of
    place, a fraction and a word are refused; bytes that are no UTF-8 text
    do not decode. *)
Example int_reads_as_the_interpreter :
  int " 42 " = Return 42
  /\ int "+7" = Return 7
  /\ int "1_000" = Return 1000
  /\ int "٤٢" = Return 42
  /\ int (String (ascii_of_nat 194) (String (ascii_of_nat 160) "5")) = Return 5
  /\ int "+ 7" = invalid_literal
  /\ int "1__0" = invalid_literal
  /\ int "_1" = invalid_literal
  /\ int "12.5" = invalid_literal
  /\ int "FOO" = invalid_literal
  /\ int "" = invalid_literal
  /\ int (String (ascii_of_nat 28) "5") = invalid_literal
  /\ int (String (ascii_of_nat 255) "5")
     = Raise (UnicodeDecodeError "'utf-8' codec can't decode bytes").
Proof.
  repeat match goal with |- _ /\ _ => split end; vm_compute; reflexivity.
Qed.

(** ** The three families of keys never meet *)

Ltac spell_keys :=
  cbv [request_key _realm_redis_key realms_key request_pattern redis_prefix
       String.append].

Lemma realm_key_inj r r' : _realm_redis_key r = _realm_redis_key r' -> r = r'.
Proof. spell_keys. congruence. Qed.

Lemma realm_key_not_index r : _realm_redis_key r <> realms_key.
Proof. spell_keys. congruence. Qed.

Lemma request_key_not_realm_key r u r' : request_key r u <> _realm_redis_key r'.
Proof. spell_keys. congruence. Qed.

Lemma request_key_not_index r u : request_key r u <> realms_key.
Proof. spell_keys. congruence. Qed.

(** ** update_realm *)

Lemma stored_hset d realm field v field' :
  stored (Redis.hset d (_realm_redis_key realm) field v) realm field'
  = if decide (field = field') then Some v else stored d realm field'.
Proof.
  unfold stored, Redis.hgetall, Redis.hset. cbn [Redis.hashes].
  rewrite lookup_insert_eq. simpl.
  rewrite lookup_insert. reflexivity.
Qed.

Lemma hashes_hset_other d name field v other :
  other <> name ->
  Redis.hashes (Redis.hset d name field v) !! other = Redis.hashes d !! other.
Proof. intros H. cbn. now rewrite lookup_insert_ne. Qed.

(** What one call of [update_realm] does to the world. *)
Lemma update_realm_effect
  (w : world) (realm : string) (kwargs : gmap string value) :
  exists w',
    update_realm realm kwargs w = (Return true, w')
    /\ (forall field,
          stored (redis w') realm field
          = if bool_decide (field = "max_requests" \/ field = "timespan")
            then match supplied_int kwargs field with
                 | Some z => Some (str (PyInt z))
                 | None => stored (redis w) realm field
                 end
            else stored (redis w) realm field)
    /\ (forall other, other <> _realm_redis_key realm ->
          Redis.hashes (redis w') !! other = Redis.hashes (redis w) !! other)
    /\ Redis.sets (redis w') = Redis.sets (redis w)
    /\ Redis.strings (redis w') = Redis.strings (redis w)
    /\ (supplied_int kwargs "max_requests" = None ->
        supplied_int kwargs "timespan" = None -> w' = w).
Proof.
  unfold update_realm, supplied_int.
  cbn [for_each mbind ret].
  unfold mbind, ret, update_redis.
  destruct (kwargs !! "max_requests") as [[| | m | |]|] eqn:Hm;
    destruct (kwargs !! "timespan") as [[| | t | |]|] eqn:Ht;
    cbn [type_is_int redis]; eexists; (split; [reflexivity|]);
    cbn [redis];
    (split; [intros field; case_bool_decide as Hf;
             [destruct Hf as [-> | ->]; rewrite ?Hm, ?Ht;
              rewrite ?stored_hset; repeat case_decide; try congruence; reflexivity
             | rewrite ?stored_hset; repeat case_decide; try reflexivity;
               exfalso; apply Hf; auto]
            |]);
    (split; [intros other Ho; rewrite ?hashes_hset_other by assumption; reflexivity|]);
    (split; [reflexivity|]); (split; [reflexivity|]);
    intros H1 H2; try discriminate; reflexivity.
Qed.

(** C5: [update_realm] always returns [True]; afterwards each of the fields
    [max_requests] and [timespan] holds the supplied value when that value
    is an [int], and what it held before otherwise (an unknown name, or a
    value that is not an [int], changes nothing and raises nothing); no other
    field, key, set or request changes; and when neither field is supplied
    with an [int] the whole world is as before. *)
Theorem update_realm_overwrites_exactly_int_fields
  (w : world) (realm : string) (kwargs : gmap string value) :
  exists w',
    update_realm realm kwargs w = (Return true, w')
    /\ (forall field,
          stored (redis w') realm field
          = if bool_decide (field = "max_requests" \/ field = "timespan")
            then match supplied_int kwargs field with
                 | Some z => Some (str (PyInt z))
                 | None => stored (redis w) realm field
                 end
            else stored (redis w) realm field)
    /\ (forall other, other <> _realm_redis_key realm ->
          Redis.hashes (redis w') !! other = Redis.hashes (redis w) !! other)
    /\ Redis.sets (redis w') = Redis.sets (redis w)
    /\ Redis.strings (redis w') = Redis.strings (redis w)
    /\ (supplied_int kwargs "max_requests" = None ->
        supplied_int kwargs "timespan" = None -> w' = w).
Proof. apply update_realm_effect. Qed.

(** C10: a field supplied with [True] or [False] keeps its stored value,
    because [type(True) == int] is false; and a call that supplies nothing
    but booleans for the two fields leaves the world as it was. *)
Theorem update_realm_ignores_booleans
  (w : world) (realm : string) (kwargs : gmap string value)
  (field : string) (b : bool) :
  field = "max_requests" \/ field = "timespan" ->
  kwargs !! field = Some (PyBool b) ->
  type_is_int (PyBool b) = false
  /\ fst (update_realm realm kwargs w) = Return true
  /\ stored (redis (snd (update_realm realm kwargs w))) realm field
     = stored (redis w) realm field
  /\ ((forall f v, f = "max_requests" \/ f = "timespan" ->
         kwargs !! f = Some v -> exists b', v = PyBool b') ->
      snd (update_realm realm kwargs w) = w).
Proof.
  intros Hf Hb.
  destruct (update_realm_effect w realm kwargs)
    as (w' & -> & Hst & _ & _ & _ & Hsame).
  cbn [fst snd]. repeat split.
  - rewrite Hst. rewrite bool_decide_eq_true_2 by assumption.
    unfold supplied_int. now rewrite Hb.
  - intros Hall. apply Hsame; unfold supplied_int.
    + destruct (kwargs !! "max_requests") as [v|] eqn:E; [|reflexivity].
      destruct (Hall "max_requests" v) as [b' ->]; auto.
    + destruct (kwargs !! "timespan") as [v|] eqn:E; [|reflexivity].
      destruct (Hall "timespan" v) as [b' ->]; auto.
Qed.

Lemma update_realm_ignores_booleans_witness :
  stored (redis (snd (update_realm "A"
                        (<["max_requests" := PyBool true]> ∅) world_A)))
         "A" "max_requests"
  = stored (redis world_A) "A" "max_requests".
Proof.
  apply (update_realm_ignores_booleans world_A "A"
           (<["max_requests" := PyBool true]> ∅) "max_requests" true).
  - left; reflexivity.
  - reflexivity.
Defined.

(** ** register_realm *)

(** What one call of [register_realm] does to the world. *)
Lemma register_realm_effect (w : world) (realm : string)
  (max_requests timespan : value) :
  (has_definition (redis w) realm = true ->
   register_realm realm max_requests timespan w = (Return true, w))
  /\ (has_definition (redis w) realm = false ->
      exists w',
        register_realm realm max_requests timespan w = (Return true, w')
        /\ stored (redis w') realm "max_requests" = Some (str max_requests)
        /\ stored (redis w') realm "timespan" = Some (str timespan)
        /\ Redis.smembers (redis w') realms_key
           = {[realm]} ∪ Redis.smembers (redis w) realms_key
        /\ (forall other, other <> _realm_redis_key realm ->
              Redis.hashes (redis w') !! other = Redis.hashes (redis w) !! other)
        /\ (forall other, other <> realms_key ->
              Redis.sets (redis w') !! other = Redis.sets (redis w) !! other)
        /\ Redis.strings (redis w') = Redis.strings (redis w)
        /\ clock w' = clock w /\ drawn w' = drawn w
        /\ navigations w' = navigations w).
Proof.
  unfold has_definition, register_realm, mbind, with_redis, update_redis, ret.
  split; intros H; rewrite H; cbn [negb]; [reflexivity|].
  eexists; split; [reflexivity|]. cbn [redis clock drawn navigations].
  unfold stored, Redis.hgetall, Redis.smembers, Redis.sadd, Redis.hmset.
  cbn [Redis.hashes Redis.sets Redis.strings].
  rewrite !lookup_insert_eq. cbn [default from_option id].
  repeat split.
  - apply lookup_union_Some_l. apply lookup_insert_eq.
  - apply lookup_union_Some_l.
    rewrite lookup_insert_ne by discriminate. apply lookup_insert_eq.
  - intros other Ho. now rewrite lookup_insert_ne.
  - intros other Ho. now rewrite lookup_insert_ne.
Qed.

Lemma has_definition_stored d realm :
  has_definition d realm = true <-> is_Some (stored d realm "max_requests").
Proof.
  unfold has_definition, stored, Redis.hexists, Redis.hgetall.
  destruct (Redis.hashes d !! _realm_redis_key realm) as [h|]; simpl.
  - apply bool_decide_eq_true.
  - rewrite lookup_empty. split; [discriminate | intros [? [=]]].
Qed.

(** In a store whose index is sound, a realm named in the index is one the
    wrapper takes for registered, so registering it again changes nothing. *)
Lemma register_realm_indexed (w : world) (realm : string)
  (max_requests timespan : value) :
  index_sound (redis w) -> registered (redis w) realm ->
  register_realm realm max_requests timespan w = (Return true, w).
Proof.
  intros Hs Hr. apply register_realm_effect. now apply Hs.
Qed.

(** ** Reading a realm's definition *)

Lemma realm_field_missing w realm field :
  stored (redis w) realm field = None ->
  realm_field field realm w = (Raise (KeyError field), w).
Proof.
  unfold stored, realm_field, _fetch_realm_info, mbind, with_redis, raise.
  now intros ->.
Qed.

Lemma realm_field_raw w realm field raw :
  stored (redis w) realm field = Some raw ->
  realm_field field realm w = (int raw, w).
Proof.
  unfold stored, realm_field, _fetch_realm_info, mbind, with_redis, lift.
  now intros ->.
Qed.

Lemma realm_field_int w realm field z :
  stored (redis w) realm field = Some (str (PyInt z)) ->
  realm_field field realm w = (Return z, w).
Proof.
  intros H. rewrite (realm_field_raw _ _ _ _ H). now rewrite int_str.
Qed.

(** C8, counterexample: in a world where nothing is registered,
    reading [max_requests] of ["A"] ends in [KeyError], which is not the
    wrapper's realm-not-found error. *)
Lemma realm_read_unregistered_raises_key_error :
  ~ registered (redis fresh_world) "A"
  /\ realm_max_requests "A" fresh_world = (Raise (KeyError "max_requests"), fresh_world)
  /\ ~ read_reports_realm_not_found fresh_world "A".
Proof.
  split; [|split].
  - unfold registered, Redis.smembers, fresh_world, Redis.empty.
    cbn [redis Redis.sets]. rewrite lookup_empty. apply not_elem_of_empty.
  - reflexivity.
  - intros [msg H]. vm_compute in H. discriminate H.
Qed.

(** C8, amended: a realm whose definition lacks a field (so every realm with
    no stored definition at all) makes the read of that field end in
    [KeyError]; a field written from an integer is read back as that
    integer; and right after a registration with integers both fields read
    back as the registered integers.  No read changes the world. *)
Theorem realm_definition_read (w : world) (realm : string) :
  (stored (redis w) realm "max_requests" = None ->
   realm_max_requests realm w = (Raise (KeyError "max_requests"), w))
  /\ (stored (redis w) realm "timespan" = None ->
      realm_timespan realm w = (Raise (KeyError "timespan"), w))
  /\ (forall m, stored (redis w) realm "max_requests" = Some (str (PyInt m)) ->
        realm_max_requests realm w = (Return m, w))
  /\ (forall t, stored (redis w) realm "timespan" = Some (str (PyInt t)) ->
        realm_timespan realm w = (Return t, w))
  /\ (forall m t,
        has_definition (redis w) realm = false ->
        let w' := snd (register_realm realm (PyInt m) (PyInt t) w) in
        realm_max_requests realm w' = (Return m, w')
        /\ realm_timespan realm w' = (Return t, w')).
Proof.
  unfold realm_max_requests, realm_timespan.
  split; [|split; [|split; [|split]]].
  - apply realm_field_missing.
  - apply realm_field_missing.
  - intros m. apply realm_field_int.
  - intros t. apply realm_field_int.
  - intros m t H.
    destruct (register_realm_effect w realm (PyInt m) (PyInt t)) as [_ Ha].
    destruct (Ha H) as (w1 & E & Hm & Ht & _).
    rewrite E. cbn [snd].
    split; now apply realm_field_int.
Qed.

Lemma realm_definition_read_witness :
  realm_max_requests "B" world_A = (Raise (KeyError "max_requests"), world_A)
  /\ realm_max_requests "A" world_A = (Return 1, world_A)
  /\ realm_timespan "A" world_A = (Return 2, world_A).
Proof.
  pose proof (realm_definition_read world_A "B") as (Hb & _).
  pose proof (realm_definition_read world_A "A") as (_ & _ & Hm & Ht & _).
  split; [apply Hb; reflexivity|].
  split; [apply (Hm 1); reflexivity | apply (Ht 2); reflexivity].
Defined.

(** ** Configuration and construction *)

Ltac split_match :=
  match goal with
  | |- context [match ?x with _ => _ end] => destruct x eqn:?
  | |- context [if ?x then _ else _] => destruct x eqn:?
  end.

(** Whatever the file holds, [_load_config] never hands it back: the
    branch that read a file either raises or falls off its end. *)
Lemma load_config_never_returns_the_file (config r : node) :
  _load_config (Some config) = Return r -> r = YNull.
Proof.
  unfold _load_config, bind.
  repeat split_match; congruence.
Qed.

(** Without a file the defaults are used. *)
Lemma load_config_without_file : _load_config None = Return default_config.
Proof. reflexivity. Qed.

(** So construction never succeeds when the file exists. *)
Lemma init_with_config_file_fails (env : surroundings) (config : node) :
  config_file env = Some config -> exists e, __init__ env = Raise e.
Proof.
  intros H. unfold __init__. rewrite H.
  destruct (_load_config (Some config)) as [r|e] eqn:E; [|eauto].
  apply load_config_never_returns_the_file in E. subst r.
  cbn [bind]. destruct (webdriver_is_remote env); cbn [negb]; eauto.
Qed.

Lemma assoc_set_other k k' v l :
  k <> k' -> assoc k' (assoc_set k v l) = assoc k' l.
Proof.
  intros Hne. induction l as [|[k0 v0] l IH]; cbn [assoc assoc_set].
  - destruct (String.eqb_spec k' k); congruence.
  - destruct (String.eqb_spec k k0) as [->|]; cbn [assoc].
    + destruct (String.eqb_spec k' k0); congruence.
    + now rewrite IH.
Qed.

(** The checks that [_load_config] does make: a threshold that is not an
    [int] or is negative, a missing [redis] section and a [redis] section
    that lacks a connection field are each refused with the wrapper's error. *)
Lemma load_config_rejects (entries : list (string * node)) :
  (forall t, assoc "safety_threshold" entries = Some t ->
     isinstance_int t = false \/ negative t = true ->
     _load_config (Some (YMap entries))
     = Raise (SeleniumRespectfulError
         "'safety_threshold' key must be a positive integer in 'selenium-respectful.config.yml'"))
  /\ (assoc "redis" entries = None ->
      exists msg,
        _load_config (Some (YMap entries)) = Raise (SeleniumRespectfulError msg))
  /\ (forall section field,
        assoc "redis" entries = Some (YMap section) ->
        In field ("host" :: "port" :: "database" :: nil) ->
        assoc field section = None ->
        exists msg,
          _load_config (Some (YMap entries)) = Raise (SeleniumRespectfulError msg)).
Proof.
  split; [|split].
  - intros t Ht Hbad. unfold _load_config, contains, getitem, bind.
    rewrite Ht. rewrite bool_decide_eq_true_2 by eauto. cbn [negb].
    destruct Hbad as [-> | ->]; [reflexivity|].
    now rewrite orb_true_r.
  - intros Hr. unfold _load_config.
    destruct (assoc "safety_threshold" entries) as [t|] eqn:Ht.
    + unfold contains at 1. rewrite Ht.
      rewrite bool_decide_eq_true_2 by eauto. cbn [negb bind].
      unfold getitem at 1. rewrite Ht. cbn [bind].
      destruct (negb (isinstance_int t) || negative t); cbn [bind]; [eauto|].
      unfold contains. rewrite Hr.
      rewrite bool_decide_eq_false_2 by (intros [? [=]]). cbn [negb bind]. eauto.
    + unfold contains at 1. rewrite Ht.
      rewrite bool_decide_eq_false_2 by (intros [? [=]]).
      cbn [negb bind getitem default_config assoc String.eqb Ascii.eqb
           Bool.eqb setitem].
      unfold contains. rewrite assoc_set_other by discriminate. rewrite Hr.
      rewrite bool_decide_eq_false_2 by (intros [? [=]]). cbn [negb bind]. eauto.
  - intros section field Hr Hin Hf.
    assert (forall e2, assoc "redis" e2 = Some (YMap section) ->
      exists msg,
        (do has_redis <- contains "redis" (YMap e2);
         if negb has_redis then
           Raise (SeleniumRespectfulError
             "'redis' key is missing from 'selenium-respectful.config.yml'")
         else
           do section <- getitem (YMap e2) "redis";
           do missing_redis_keys <-
             missing_keys section ("host" :: "port" :: "database" :: nil);
           if negb (length missing_redis_keys =? 0)%nat then
             Raise (SeleniumRespectfulError
               ("'" ++ join ", " missing_redis_keys ++ "' "
                ++ (if (length missing_redis_keys =? 1)%nat then "is" else "are")
                ++ " missing from the 'redis' configuration key in 'selenium-respectful.config.yml'"))
           else Return YNull)
        = Raise (SeleniumRespectfulError msg)) as Hsec.
    { intros e2 H2. unfold contains at 1, getitem, bind at 1 2 3. rewrite H2.
      rewrite bool_decide_eq_true_2 by eauto. cbn [negb].
      unfold missing_keys, contains, bind.
      cbn [In] in Hin. destruct Hin as [<-|[<-|[<-|[]]]]; rewrite Hf;
        rewrite (bool_decide_eq_false_2 (is_Some None)) by (intros [? [=]]);
        cbn [negb]; repeat case_bool_decide; cbn [negb length Nat.eqb]; eauto. }
    unfold _load_config.
    destruct (assoc "safety_threshold" entries) as [t|] eqn:Ht.
    + unfold contains at 1. rewrite Ht.
      rewrite bool_decide_eq_true_2 by eauto. cbn [negb bind].
      unfold getitem at 1. rewrite Ht. cbn [bind].
      destruct (negb (isinstance_int t) || negative t); cbn [bind]; [eauto|].
      now apply Hsec.
    + unfold contains at 1. rewrite Ht.
      rewrite bool_decide_eq_false_2 by (intros [? [=]]).
      cbn [negb bind getitem default_config assoc String.eqb Ascii.eqb
           Bool.eqb setitem].
      apply Hsec. now rewrite assoc_set_other by discriminate.
Qed.

(** C9, at a well-formed file: [_load_config] returns [None] instead of the
    configuration it has just checked, and [__init__] then fails on
    [self.config["redis"]] with [TypeError]; the defaults are only reached
    when there is no file. *)
Theorem load_config_existing_file_returns_none :
  _load_config (Some sample_config) = Return YNull
  /\ __init__ (mkSurroundings (Some sample_config) true true)
     = Raise (TypeError "object is not subscriptable")
  /\ __init__ (mkSurroundings None true true)
     = Return (mkInstance default_config (YStr "localhost") (YInt 6379) (YInt 0)).
Proof. repeat split; reflexivity. Qed.

(** ** Admission: the realms must be known *)

(** The first loop of [_webdriver_get], over a fixed answer of
    [fetch_registered_realms]. *)
Lemma validation_loop (known_realms realms : list string) (w : world) :
  let check :=
    for_each realms
      (fun realm =>
         if negb (bool_decide (realm ∈ known_realms)) then
           raise (SeleniumRespectfulError
                    ("Realm '" ++ realm ++ "' hasn't been registered"))
         else ret tt) in
  (Forall (fun realm => realm ∈ known_realms) realms /\ check w = (Return tt, w))
  \/ (exists known unknown rest,
        realms = (known ++ (unknown :: rest))%list
        /\ Forall (fun realm => realm ∈ known_realms) known
        /\ (unknown ∉ known_realms)
        /\ check w
           = (Raise (SeleniumRespectfulError
                       ("Realm '" ++ unknown ++ "' hasn't been registered")), w)).
Proof.
  induction realms as [|realm realms IH]; cbn [for_each].
  - left. split; [constructor | reflexivity].
  - unfold mbind. case_bool_decide as Hin; cbn [negb].
    + unfold ret at 1.
      destruct IH as [[Hall E] | (known & unknown & rest & -> & Hk & Hu & E)].
      * left. split; [now constructor | exact E].
      * right. exists (realm :: known), unknown, rest.
        repeat split; [now constructor | exact Hu | exact E].
    + right. exists nil, realm, realms.
      repeat split; [constructor | exact Hin].
Qed.

Lemma registered_elements (d : Redis.db) (realm : string) :
  realm ∈ elements (Redis.smembers d realms_key) <-> registered d realm.
Proof. unfold registered. apply elem_of_elements. Qed.

Lemma fetch_registered_realms_spec (w : world) :
  fetch_registered_realms w
  = (Return (elements (Redis.smembers (redis w) realms_key)), w).
Proof. reflexivity. Qed.

(** C6: when some requested realm is not in the index, [_webdriver_get]
    raises the wrapper's error naming the first such realm, in either mode
    and whatever the definitions, the counts and the function are; the world
    it leaves is the world it found, so nothing was written and the function
    was not called.  The same holds for a call through [get]. *)
Theorem unknown_realm_refused_before_any_check
  (fuel : nat) (safety_threshold : Z) (get_func : func)
  (realms : list string) (wait : bool) (w : world) :
  (exists realm, realm ∈ realms /\ ~ registered (redis w) realm) ->
  exists known unknown rest,
    realms = (known ++ (unknown :: rest))%list
    /\ Forall (registered (redis w)) known
    /\ ~ registered (redis w) unknown
    /\ _webdriver_get fuel safety_threshold get_func realms wait w
       = Some (Raise (SeleniumRespectfulError
                        ("Realm '" ++ unknown ++ "' hasn't been registered")), w)
    /\ _selenium_webdriver_proxy_get fuel safety_threshold (call get_func)
         realms wait w
       = Some (Raise (SeleniumRespectfulError
                        ("Realm '" ++ unknown ++ "' hasn't been registered")), w).
Proof.
  intros (r & Hr & Hnot).
  pose proof (validation_loop
                (elements (Redis.smembers (redis w) realms_key)) realms w) as H.
  cbv zeta in H.
  destruct H as [[Hall _] | (known & unknown & rest & -> & Hk & Hu & E)].
  - exfalso. apply Hnot. rewrite Forall_forall in Hall.
    apply registered_elements, Hall. exact Hr.
  - exists known, unknown, rest.
    assert (forall g, _webdriver_get fuel safety_threshold g
                        (known ++ (unknown :: rest))%list wait w
              = Some (Raise (SeleniumRespectfulError
                        ("Realm '" ++ unknown ++ "' hasn't been registered")), w))
      as Hg.
    { intros g. unfold _webdriver_get, mbind at 1.
      rewrite fetch_registered_realms_spec. now rewrite E. }
    repeat split.
    + eapply Forall_impl; [exact Hk|]. intros x Hx. now apply registered_elements.
    + intros Hreg. apply Hu. now apply registered_elements.
    + apply Hg.
    + unfold _selenium_webdriver_proxy_get.
      destruct known; cbn [length app Nat.eqb]; apply Hg.
Qed.

Lemma unknown_realm_refused_before_any_check_witness :
  exists known unknown rest,
    ("A" :: "nowhere" :: nil) = (known ++ (unknown :: rest))%list
    /\ ~ registered (redis world_A) unknown
    /\ _webdriver_get 3 0 navigate ("A" :: "nowhere" :: nil) true world_A
       = Some (Raise (SeleniumRespectfulError
                        ("Realm '" ++ unknown ++ "' hasn't been registered")),
               world_A).
Proof.
  destruct (unknown_realm_refused_before_any_check 3 0 navigate
              ("A" :: "nowhere" :: nil) true world_A)
    as (known & unknown & rest & E & _ & Hu & H & _).
  - exists "nowhere". split.
    + apply list_elem_of_In. right. left. reflexivity.
    + intros H. apply registered_elements in H.
      apply list_elem_of_In in H. vm_compute in H.
      destruct H as [H|[]]. discriminate H.
  - exists known, unknown, rest. repeat split; assumption.
Defined.

(** ** Statements that only read, statements that take no time *)

Lemma same_time_refl w : same_time w w.
Proof. repeat split. Qed.

Lemma same_time_trans w1 w2 w3 :
  same_time w1 w2 -> same_time w2 w3 -> same_time w1 w3.
Proof. unfold same_time. intros (-> & -> & ->) (-> & -> & ->). repeat split. Qed.

Lemma instant_bind {A B} (m : M A) (k : A -> M B) :
  instant m -> (forall a, instant (k a)) -> instant (mbind m k).
Proof.
  intros Hm Hk w. unfold mbind. specialize (Hm w).
  destruct (m w) as [[a|e] w1]; cbn [snd] in *; [|exact Hm].
  eapply same_time_trans; [exact Hm | apply Hk].
Qed.

Lemma instant_for_each {A} (l : list A) (body : A -> M unit) :
  (forall a, instant (body a)) -> instant (for_each l body).
Proof.
  intros Hb. induction l as [|a l IH]; cbn [for_each].
  - intros w. apply same_time_refl.
  - apply instant_bind; auto.
Qed.

Lemma read_only_instant {A} (m : M A) : read_only m -> instant m.
Proof. intros H w. rewrite H. apply same_time_refl. Qed.

Lemma read_only_bind {A B} (m : M A) (k : A -> M B) :
  read_only m -> (forall a, read_only (k a)) -> read_only (mbind m k).
Proof.
  intros Hm Hk w. unfold mbind. specialize (Hm w).
  destruct (m w) as [[a|e] w1]; cbn [snd] in *; subst w1; [apply Hk | reflexivity].
Qed.

Lemma read_only_ret {A} (a : A) : read_only (ret a).
Proof. intros w. reflexivity. Qed.

Lemma read_only_raise {A} (e : exn) : read_only (@raise A e).
Proof. intros w. reflexivity. Qed.

Lemma read_only_lift {A} (r : result A) : read_only (lift r).
Proof. intros w. reflexivity. Qed.

Lemma read_only_with_redis {A} (f : Redis.db -> A) : read_only (with_redis f).
Proof. intros w. reflexivity. Qed.

Lemma read_only_realm_field field realm : read_only (realm_field field realm).
Proof.
  apply read_only_bind; [apply read_only_with_redis|].
  intros info. destruct (info !! field);
    [apply read_only_lift | apply read_only_raise].
Qed.

Lemma read_only_requests_in_timespan realm :
  read_only (_requests_in_timespan realm).
Proof.
  apply read_only_bind.
  - apply read_only_bind; [apply read_only_with_redis|].
    intros [n|]; [apply read_only_ret | apply read_only_raise].
  - intros _. apply read_only_bind; [apply read_only_with_redis|].
    intros found. apply read_only_ret.
Qed.

Lemma read_only_can_perform_get t realm : read_only (_can_perform_get t realm).
Proof.
  apply read_only_bind; [apply read_only_requests_in_timespan|].
  intros used. apply read_only_bind; [apply read_only_realm_field|].
  intros allowed. apply read_only_ret.
Qed.

Lemma read_only_rate_limited t realms : read_only (rate_limited t realms).
Proof.
  induction realms as [|realm realms IH]; cbn [rate_limited].
  - apply read_only_ret.
  - apply read_only_bind; [apply read_only_can_perform_get|].
    intros ok. apply read_only_bind; [exact IH|].
    intros others. apply read_only_ret.
Qed.

Lemma read_only_validate_get_func g : read_only (_validate_get_func g).
Proof.
  unfold _validate_get_func.
  destruct (negb (is_function g)); [apply read_only_raise|].
  destruct (nth_error _ 1); [|apply read_only_raise].
  destruct (negb _); [apply read_only_raise | apply read_only_ret].
Qed.

Lemma instant_update_redis f : instant (update_redis f).
Proof. intros w. repeat split. Qed.

Lemma instant_new_uuid : instant new_uuid.
Proof. intros w. repeat split. Qed.

Lemma instant_invoke g : instant (invoke g).
Proof. intros w. repeat split. Qed.

(** One attempt takes no time: the clock moves only in [time.sleep]. *)
Lemma instant_perform_webdriver_get t g realms :
  instant (_perform_webdriver_get t g realms).
Proof.
  unfold _perform_webdriver_get.
  apply instant_bind; [apply read_only_instant, read_only_validate_get_func|].
  intros _. apply instant_bind; [apply read_only_instant, read_only_rate_limited|].
  intros limited. destruct (length limited =? 0)%nat.
  - apply instant_bind; [|intros _; apply instant_invoke].
    apply instant_for_each. intros realm.
    apply instant_bind; [apply instant_new_uuid|]. intros u.
    apply instant_bind; [apply read_only_instant, read_only_realm_field|].
    intros time w.
    destruct (Redis.setex _ _ _ _ _); [apply instant_update_redis|].
    apply same_time_refl.
  - apply read_only_instant, read_only_raise.
Qed.

(** ** The wait loop *)

(** An attempt that returns, returns what the function returned. *)
Lemma perform_returns_the_result t g realms w v w' :
  _perform_webdriver_get t g realms w = (Return v, w') -> call g = Return v.
Proof.
  unfold _perform_webdriver_get, mbind.
  destruct (_validate_get_func g w) as [[[]|e] w1]; [|discriminate].
  destruct (rate_limited t realms w1) as [[limited|e] w2]; [|discriminate].
  destruct (length limited =? 0)%nat; [|discriminate].
  destruct (for_each realms _ w2) as [[[]|e] w3]; [|discriminate].
  unfold invoke. congruence.
Qed.

Lemma wait_loop_step fuel t g realms w :
  wait_loop (S fuel) t g realms w
  = match _perform_webdriver_get t g realms w with
    | (Raise (SeleniumRespectfulRateLimitedError _), w') =>
        wait_loop fuel t g realms (snd (sleep 1 w'))
    | outcome => Some outcome
    end.
Proof. reflexivity. Qed.

Lemma wait_loop_leaves fuel t g realms w o :
  _perform_webdriver_get t g realms w = o -> leaves_loop o = true ->
  wait_loop (S fuel) t g realms w = Some o.
Proof.
  intros E Hl. rewrite wait_loop_step, E.
  destruct o as [[v|e] w']; [reflexivity|].
  destruct e; try reflexivity. discriminate Hl.
Qed.

Lemma wait_loop_denied fuel t g realms w msg w' :
  _perform_webdriver_get t g realms w
  = (Raise (SeleniumRespectfulRateLimitedError msg), w') ->
  wait_loop (S fuel) t g realms w = wait_loop fuel t g realms (snd (sleep 1 w')).
Proof. intros E. now rewrite wait_loop_step, E. Qed.

(** The loop ends with [o] within [fuel] rounds exactly when some number
    [k < fuel] of denials, each followed by a sleep of one second, leads to
    an attempt that ends with [o]. *)
Lemma wait_loop_rounds fuel t g realms w o :
  wait_loop fuel t g realms w = Some o
  <-> exists k, (k < fuel)%nat /\ rounds t g realms w k o.
Proof.
  split.
  - revert w. induction fuel as [|fuel IH]; intros w H; [discriminate|].
    rewrite wait_loop_step in H.
    destruct (_perform_webdriver_get t g realms w) as [[v|e] w'] eqn:E.
    + injection H as <-. exists 0%nat. split; [lia|].
      now apply rounds_leave.
    + destruct (is_rate_limited e) eqn:Hrl.
      * destruct e; try discriminate Hrl.
        destruct (IH _ H) as (k & Hk & Hr).
        exists (S k). split; [lia|]. eapply rounds_denied; eauto.
      * assert (Some (Raise e, w') = Some o) as [= <-]
          by (destruct e; try exact H; discriminate Hrl).
        exists 0%nat. split; [lia|]. apply rounds_leave; [exact E|].
        unfold leaves_loop. cbn [fst]. now rewrite Hrl.
  - intros (k & Hk & Hr). revert fuel Hk.
    induction Hr as [w o E Hl | w msg w' k o E Hr IH]; intros fuel Hk.
    + destruct fuel as [|fuel]; [lia|]. now apply wait_loop_leaves.
    + destruct fuel as [|fuel]; [lia|].
      rewrite (wait_loop_denied _ _ _ _ _ _ _ E). apply IH. lia.
Qed.

(** Every denial costs one second of sleep and nothing else does. *)
Lemma rounds_slept t g realms w k o :
  rounds t g realms w k o ->
  slept (snd o) = slept w + Z.of_nat k
  /\ clock (snd o) = clock w + Z.of_nat k
  /\ leaves_loop o = true.
Proof.
  induction 1 as [w o E Hl | w msg w' k o E Hr IH].
  - destruct (instant_perform_webdriver_get t g realms w) as (Hc & Hs & _).
    rewrite E in Hc, Hs. rewrite Hc, Hs. repeat split; [lia | lia | exact Hl].
  - destruct (instant_perform_webdriver_get t g realms w) as (Hc & Hs & _).
    rewrite E in Hc, Hs. cbn [snd] in Hc, Hs.
    destruct IH as (IHs & IHc & IHl). cbn [sleep snd slept clock] in IHs, IHc.
    repeat split; [lia | lia | exact IHl].
Qed.

Lemma webdriver_get_registered fuel t g realms wait w :
  Forall (registered (redis w)) realms ->
  _webdriver_get fuel t g realms wait w
  = if wait then wait_loop fuel t g realms w
    else Some (_perform_webdriver_get t g realms w).
Proof.
  intros Hall. unfold _webdriver_get, mbind at 1.
  rewrite fetch_registered_realms_spec.
  pose proof (validation_loop
                (elements (Redis.smembers (redis w) realms_key)) realms w) as H.
  cbv zeta in H.
  destruct H as [[_ ->] | (known & unknown & rest & -> & _ & Hu & _)];
    [reflexivity|].
  exfalso. apply Hu, registered_elements.
  rewrite Forall_forall in Hall. apply Hall.
  apply list_elem_of_In, in_or_app. right. left. reflexivity.
Qed.

(** C7: in wait mode, with every realm known, (1) the loop ends with an
    outcome exactly when a run of denials, each followed by one second of
    sleep and a new attempt, leads to an attempt with that outcome, and the
    time slept is one second per denial; (2) an attempt that returns makes
    the loop return that value, which is what the function returned; (3) an
    attempt that raises anything but the rate-limited error makes the loop
    raise it at once, in the world that single attempt left; (4) a denied
    attempt is followed by a sleep of exactly one second and a further
    attempt.  With some realm unknown, (5) the wrapper's error is raised
    before the loop is entered, whatever the fuel, and the world is left as
    it was. *)
Theorem wait_mode_absorbs_only_rate_limited
  (fuel : nat) (t : Z) (g : func) (realms : list string) (w : world) :
  (Forall (registered (redis w)) realms ->
   (forall o,
      _webdriver_get fuel t g realms true w = Some o
      <-> exists k, (k < fuel)%nat /\ rounds t g realms w k o
                    /\ slept (snd o) = slept w + Z.of_nat k
                    /\ leaves_loop o = true)
   /\ (forall v w',
         _perform_webdriver_get t g realms w = (Return v, w') ->
         _webdriver_get (S fuel) t g realms true w = Some (Return v, w')
         /\ call g = Return v)
   /\ (forall e w',
         _perform_webdriver_get t g realms w = (Raise e, w') ->
         is_rate_limited e = false ->
         _webdriver_get (S fuel) t g realms true w = Some (Raise e, w')
         /\ slept w' = slept w)
   /\ (forall msg w',
         _perform_webdriver_get t g realms w
         = (Raise (SeleniumRespectfulRateLimitedError msg), w') ->
         _webdriver_get (S fuel) t g realms true w
         = wait_loop fuel t g realms (snd (sleep 1 w'))
         /\ slept (snd (sleep 1 w')) = slept w + 1
         /\ clock (snd (sleep 1 w')) = clock w + 1))
  /\ (~ Forall (registered (redis w)) realms ->
      exists e,
        _webdriver_get fuel t g realms true w = Some (Raise e, w)
        /\ is_respectful_error e = true).
Proof.
  split.
  - intros Hall. split; [|split; [|split]].
    + intros o. rewrite webdriver_get_registered by assumption.
      rewrite wait_loop_rounds. split.
      * intros (k & Hk & Hr). exists k.
        destruct (rounds_slept _ _ _ _ _ _ Hr) as (Hs & _ & Hl). auto.
      * intros (k & Hk & Hr & _). eauto.
    + intros v w' E. rewrite webdriver_get_registered by assumption. split.
      * now apply wait_loop_leaves.
      * eapply perform_returns_the_result; eassumption.
    + intros e w' E Hrl. rewrite webdriver_get_registered by assumption. split.
      * apply wait_loop_leaves; [exact E|]. unfold leaves_loop. cbn [fst].
        now rewrite Hrl.
      * destruct (instant_perform_webdriver_get t g realms w) as (_ & Hs & _).
        now rewrite E in Hs.
    + intros msg w' E. rewrite webdriver_get_registered by assumption.
      destruct (instant_perform_webdriver_get t g realms w) as (Hc & Hs & _).
      rewrite E in Hc, Hs. cbn [snd] in Hc, Hs.
      split; [now apply (wait_loop_denied _ _ _ _ _ msg)|].
      cbn [sleep snd slept clock]. lia.
  - intros Hnot.
    pose proof (validation_loop
                  (elements (Redis.smembers (redis w) realms_key)) realms w) as H.
    cbv zeta in H.
    destruct H as [[Hall _] | (known & unknown & rest & -> & _ & _ & E)].
    + exfalso. apply Hnot. eapply Forall_impl; [exact Hall|].
      intros x Hx. now apply registered_elements.
    + exists (SeleniumRespectfulError
                ("Realm '" ++ unknown ++ "' hasn't been registered")).
      split; [|reflexivity].
      unfold _webdriver_get, mbind at 1.
      rewrite fetch_registered_realms_spec. now rewrite E.
Qed.

Lemma wait_mode_absorbs_only_rate_limited_witness :
  Forall (registered (redis world_A_busy)) ("A" :: nil)
  /\ exists o k,
       _webdriver_get 5 0 navigate ("A" :: nil) true world_A_busy = Some o
       /\ fst o = Return PyNone
       /\ rounds 0 navigate ("A" :: nil) world_A_busy k o
       /\ k = 2%nat.
Proof.
  assert (Forall (registered (redis world_A_busy)) ("A" :: nil)) as Hreg.
  { constructor; [|constructor]. apply registered_elements.
    apply list_elem_of_In. vm_compute. left. reflexivity. }
  split; [exact Hreg|].
  destruct (wait_mode_absorbs_only_rate_limited
              5 0 navigate ("A" :: nil) world_A_busy) as (Hknown & _).
  destruct (Hknown Hreg) as (H & _).
  assert (exists o,
            _webdriver_get 5 0 navigate ("A" :: nil) true world_A_busy = Some o
            /\ fst o = Return PyNone /\ slept (snd o) = 2) as (o & Ho & Hv & Hs).
  { vm_compute. eexists. repeat split. }
  destruct (proj1 (H o) Ho) as (k & _ & Hr & Hk & _).
  exists o, k. repeat split; try assumption.
  rewrite Hs in Hk. change (slept world_A_busy) with 0 in Hk. lia.
Defined.

(** ** Admission: counting and the headroom test *)

Lemma info_keys_with_hash (d : Redis.db) (name : string) :
  is_Some (Redis.hashes d !! name) ->
  Redis.info_keys d = Some (Z.of_nat (size (Redis.all_keys d))).
Proof.
  intros Hh. unfold Redis.info_keys. case_decide as Hz; [|reflexivity].
  exfalso. apply size_empty_inv in Hz.
  assert (name ∈ Redis.all_keys d) as Hin.
  { unfold Redis.all_keys. apply elem_of_union_l, elem_of_union_l.
    now apply elem_of_dom. }
  rewrite Hz in Hin. now apply not_elem_of_empty in Hin.
Qed.

Lemma stored_some_hash (d : Redis.db) (realm field raw : string) :
  stored d realm field = Some raw ->
  is_Some (Redis.hashes d !! _realm_redis_key realm).
Proof.
  unfold stored, Redis.hgetall.
  destruct (Redis.hashes d !! _realm_redis_key realm); [eauto|].
  cbn. now rewrite lookup_empty.
Qed.

Lemma stored_int_field (w : world) (realm field : string) (z : Z) :
  stored_int (redis w) realm field = Some z ->
  realm_field field realm w = (Return z, w).
Proof.
  unfold stored_int. intros H.
  destruct (stored (redis w) realm field) as [raw|] eqn:E; [|discriminate].
  rewrite (realm_field_raw _ _ _ _ E).
  destruct (int raw); congruence.
Qed.

(** With a readable [max_requests], [_can_perform_get] answers whether the
    headroom is positive. *)
Lemma can_perform_get_headroom (w : world) (t : Z) (realm : string) (h : Z) :
  headroom (redis w) t realm = Some h ->
  _can_perform_get t realm w = (Return (0 <? h), w).
Proof.
  unfold headroom. intros H.
  destruct (stored_int (redis w) realm "max_requests") as [m|] eqn:Em;
    [|discriminate].
  injection H as <-.
  assert (is_Some (Redis.hashes (redis w) !! _realm_redis_key realm)) as Hh.
  { unfold stored_int in Em.
    destruct (stored (redis w) realm "max_requests") eqn:Es; [|discriminate].
    eapply stored_some_hash; eassumption. }
  unfold _can_perform_get, _requests_in_timespan, _redis_keys_in_db.
  unfold mbind at 1 2 3, with_redis at 1.
  rewrite (info_keys_with_hash _ _ Hh).
  unfold ret at 1, mbind at 1, with_redis, ret at 1.
  unfold realm_max_requests, mbind.
  rewrite (stored_int_field _ _ _ _ Em). unfold ret, active_count.
  f_equal. f_equal.
  destruct (Z.ltb_spec (Z.of_nat (length (Redis.scan (redis w) (request_pattern realm))))
              (m - t));
    destruct (Z.ltb_spec 0 (m - t - Z.of_nat (length (Redis.scan (redis w) (request_pattern realm)))));
    try reflexivity; lia.
Qed.

Lemma can_perform_get_has_room (w : world) (t : Z) (realm : string) :
  is_Some (headroom (redis w) t realm) ->
  _can_perform_get t realm w = (Return (has_room (redis w) t realm), w).
Proof.
  intros [h Hh]. rewrite (can_perform_get_headroom _ _ _ _ Hh).
  unfold has_room. now rewrite Hh.
Qed.

(** The first loop of an attempt collects the saturated realms. *)
Lemma rate_limited_saturated (w : world) (t : Z) (realms : list string) :
  Forall (fun realm => is_Some (headroom (redis w) t realm)) realms ->
  rate_limited t realms w = (Return (saturated (redis w) t realms), w).
Proof.
  induction 1 as [|realm realms Hr _ IH]; [reflexivity|].
  cbn [rate_limited saturated List.filter]. unfold mbind.
  rewrite (can_perform_get_has_room _ _ _ Hr).
  fold (saturated (redis w) t realms). rewrite IH. unfold ret.
  reflexivity.
Qed.

Lemma saturated_spec (d : Redis.db) (t : Z) (realms : list string) (realm : string) :
  In realm (saturated d t realms)
  <-> In realm realms /\ has_room d t realm = false.
Proof.
  unfold saturated. rewrite filter_In.
  now rewrite negb_true_iff.
Qed.

Lemma saturated_nil (d : Redis.db) (t : Z) (realms : list string) :
  saturated d t realms = nil
  <-> Forall (fun realm => has_room d t realm = true) realms.
Proof.
  unfold saturated. induction realms as [|r realms IH]; cbn [List.filter].
  - split; [constructor | reflexivity].
  - destruct (has_room d t r) eqn:E; cbn [negb].
    + rewrite IH. split; [now constructor | now inversion 1].
    + split; [discriminate | inversion 1; congruence].
Qed.

(** The function that [get] builds passes the validation. *)
Lemma proxy_lambda_valid (outcome : result value) :
  valid_get_func (proxy_lambda outcome).
Proof. intros w. reflexivity. Qed.

Lemma has_room_false (d : Redis.db) (t : Z) (realm : string) :
  is_Some (headroom d t realm) ->
  has_room d t realm = false
  <-> exists h, headroom d t realm = Some h /\ h <= 0.
Proof.
  intros [h Hh]. unfold has_room. rewrite Hh. split.
  - intros H. exists h. split; [reflexivity|]. now apply Z.ltb_ge.
  - intros (h' & [= <-] & Hle). now apply Z.ltb_ge.
Qed.

(** ** Admission denied *)

(** What a denied attempt does. *)
Lemma perform_denied (t : Z) (g : func) (realms : list string) (w : world) :
  valid_get_func g ->
  Forall (fun realm => is_Some (headroom (redis w) t realm)) realms ->
  saturated (redis w) t realms <> nil ->
  _perform_webdriver_get t g realms w
  = (Raise (SeleniumRespectfulRateLimitedError
              ("Currently rate-limited on Realm(s): "
               ++ join ", " (saturated (redis w) t realms))), w).
Proof.
  intros Hv Hall Hsat. unfold _perform_webdriver_get, mbind.
  rewrite Hv. rewrite (rate_limited_saturated _ _ _ Hall).
  destruct (saturated (redis w) t realms); [congruence|]. reflexivity.
Qed.

(** ** Admission granted *)

Lemma issue_cons d e es :
  issue d (e :: es)
  = issue (Redis.mkDb (base.delete (fst e) (Redis.hashes d))
                      (base.delete (fst e) (Redis.sets d))
                      (<[fst e := snd e]> (Redis.strings d))) es.
Proof. reflexivity. Qed.

Lemma issue_strings d es :
  NoDup es.*1 ->
  Redis.strings (issue d es) = list_to_map es ∪ Redis.strings d.
Proof.
  revert d. induction es as [|[k v] es IH]; intros d Hnd.
  - cbn. now rewrite (left_id_L ∅ (∪)).
  - rewrite issue_cons. cbn [fst snd] in *.
    apply NoDup_cons in Hnd as [Hk Hnd].
    rewrite IH by assumption. cbn [Redis.strings].
    rewrite list_to_map_cons. rewrite <- insert_union_l.
    symmetry. apply insert_union_r. now apply not_elem_of_list_to_map_1.
Qed.

Lemma issue_hashes d es :
  (forall k, k ∈ es.*1 -> Redis.hashes d !! k = None) ->
  Redis.hashes (issue d es) = Redis.hashes d.
Proof.
  revert d. induction es as [|[k v] es IH]; intros d Hf; [reflexivity|].
  rewrite issue_cons. cbn [fst snd] in *.
  assert (base.delete k (Redis.hashes d) = Redis.hashes d) as Hd.
  { apply delete_id, Hf. left. }
  rewrite IH; cbn [Redis.hashes]; rewrite Hd; [reflexivity|].
  intros k' Hk'. apply Hf. now right.
Qed.

Lemma issue_sets d es :
  (forall k, k ∈ es.*1 -> Redis.sets d !! k = None) ->
  Redis.sets (issue d es) = Redis.sets d.
Proof.
  revert d. induction es as [|[k v] es IH]; intros d Hf; [reflexivity|].
  rewrite issue_cons. cbn [fst snd] in *.
  assert (base.delete k (Redis.sets d) = Redis.sets d) as Hd.
  { apply delete_id, Hf. left. }
  rewrite IH; cbn [Redis.sets]; rewrite Hd; [reflexivity|].
  intros k' Hk'. apply Hf. now right.
Qed.

Lemma not_in_all_keys d k :
  k ∉ Redis.all_keys d ->
  Redis.hashes d !! k = None /\ Redis.sets d !! k = None
  /\ Redis.strings d !! k = None.
Proof.
  unfold Redis.all_keys. rewrite !not_elem_of_union, !not_elem_of_dom. tauto.
Qed.

Lemma lease_shift (w w1 : world) ts i realm :
  uuid4 w1 = uuid4 w -> clock w1 = clock w -> drawn w1 = S (drawn w) ->
  lease w1 ts i realm = lease w ts (S i) realm.
Proof.
  intros Hu Hc Hd. unfold lease. rewrite Hu, Hc, Hd.
  now replace (S (drawn w) + i)%nat with (drawn w + S i)%nat by lia.
Qed.

Lemma leases_cons w ts realm realms w1 :
  uuid4 w1 = uuid4 w -> clock w1 = clock w -> drawn w1 = S (drawn w) ->
  leases w ts (realm :: realms) = lease w ts 0 realm :: leases w1 ts realms.
Proof.
  intros Hu Hc Hd. unfold leases. rewrite imap_cons. f_equal.
  apply imap_ext. intros i r _. cbn. symmetry. now apply lease_shift.
Qed.

Lemma stored_after_request (d : Redis.db) k v realm field :
  (forall r, k <> _realm_redis_key r) ->
  stored (Redis.mkDb (base.delete k (Redis.hashes d))
                     (base.delete k (Redis.sets d))
                     (<[k := v]> (Redis.strings d))) realm field
  = stored d realm field.
Proof.
  intros Hk. unfold stored, Redis.hgetall. cbn [Redis.hashes].
  rewrite lookup_delete_ne by apply Hk. reflexivity.
Qed.

(** The second loop of a granted attempt: one identifier drawn and one
    request written per realm, each for the realm's own time span. *)
Lemma issue_loop (ts : string -> Z) (realms : list string) (w : world) :
  (forall realm, In realm realms ->
     stored_int (redis w) realm "timespan" = Some (ts realm) /\ 0 < ts realm) ->
  for_each realms
    (fun realm =>
       let* request_uuid := new_uuid in
       let* time := realm_timespan realm in
       fun w =>
         match Redis.setex (redis w) (clock w)
                 (request_key realm request_uuid) time request_uuid with
         | Return d => update_redis (fun _ => d) w
         | Raise e => (Raise e, w)
         end) w
  = (Return tt,
     mkWorld (issue (redis w) (leases w ts realms)) (clock w) (uuid4 w)
             (drawn w + length realms) (navigations w) (slept w)).
Proof.
  revert w. induction realms as [|realm realms IH]; intros w Hts.
  - cbn [for_each leases imap issue fold_left length ret].
    rewrite Nat.add_0_r. now destruct w.
  - cbn [for_each]. unfold mbind at 1 2 3. unfold new_uuid at 1.
    destruct (Hts realm (or_introl eq_refl)) as [Hr Hpos].
    set (w1 := mkWorld (redis w) (clock w) (uuid4 w) (S (drawn w))
                       (navigations w) (slept w)).
    unfold realm_timespan at 1.
    rewrite (stored_int_field w1 realm "timespan" (ts realm) Hr).
    unfold Redis.setex. rewrite decide_False by lia.
    unfold update_redis at 1. cbn [redis clock uuid4 drawn navigations slept w1].
    rewrite IH.
    + cbn [redis clock uuid4 drawn navigations slept length].
      rewrite (leases_cons w ts realm realms
                 (mkWorld
                    (Redis.mkDb
                       (base.delete (request_key realm (uuid4 w (drawn w)))
                          (Redis.hashes (redis w)))
                       (base.delete (request_key realm (uuid4 w (drawn w)))
                          (Redis.sets (redis w)))
                       (<[request_key realm (uuid4 w (drawn w)) :=
                            (uuid4 w (drawn w), clock w + ts realm)]>
                          (Redis.strings (redis w))))
                    (clock w) (uuid4 w) (S (drawn w)) (navigations w) (slept w)))
        by reflexivity.
      rewrite issue_cons. unfold lease. cbn [fst snd].
      rewrite !Nat.add_0_r.
      now replace (S (drawn w) + length realms)%nat
        with (drawn w + S (length realms))%nat by lia.
    + intros r Hin. cbn [redis].
      unfold stored_int. rewrite stored_after_request
        by (intros r'; apply request_key_not_realm_key).
      apply (Hts r). now right.
Qed.

(** What a granted attempt does. *)
Lemma perform_granted (t : Z) (g : func) (realms : list string) (w : world)
  (ts : string -> Z) :
  valid_get_func g ->
  (forall realm, In realm realms ->
     exists h, headroom (redis w) t realm = Some h /\ 0 < h) ->
  (forall realm, In realm realms ->
     stored_int (redis w) realm "timespan" = Some (ts realm) /\ 0 < ts realm) ->
  _perform_webdriver_get t g realms w
  = (call g,
     mkWorld (issue (redis w) (leases w ts realms)) (clock w) (uuid4 w)
             (drawn w + length realms) (S (navigations w)) (slept w)).
Proof.
  intros Hv Hroom Hts. unfold _perform_webdriver_get, mbind.
  rewrite Hv. rewrite rate_limited_saturated.
  - assert (saturated (redis w) t realms = nil) as ->.
    { apply saturated_nil, List.Forall_forall. intros r Hr.
      destruct (Hroom r Hr) as (h & Hh & Hpos).
      unfold has_room. rewrite Hh. now apply Z.ltb_lt. }
    cbn [length Nat.eqb]. rewrite (issue_loop ts) by assumption.
    reflexivity.
  - apply List.Forall_forall. intros r Hr.
    destruct (Hroom r Hr) as (h & Hh & _). eauto.
Qed.

Lemma leases_keys_disjoint (d : Redis.db) (es : list (string * (string * Z))) :
  (forall k, k ∈ es.*1 -> k ∉ Redis.all_keys d) ->
  (list_to_map es : gmap string (string * Z)) ##ₘ Redis.strings d.
Proof.
  intros Hf. apply map_disjoint_spec. intros k x y Hx Hy.
  apply elem_of_list_to_map_2 in Hx.
  assert (k ∈ es.*1) as Hk.
  { apply list_elem_of_fmap. exists (k, x). split; [reflexivity | exact Hx]. }
  destruct (not_in_all_keys _ _ (Hf k Hk)) as (_ & _ & Hn). congruence.
Qed.

(** ** Patterns and keys *)

Lemma string_app_assoc (a b c : string) : (a ++ b) ++ c = a ++ (b ++ c).
Proof.
  induction a as [|x a IH]; [reflexivity|].
  change (String x ((a ++ b) ++ c) = String x (a ++ (b ++ c))). now rewrite IH.
Qed.

Lemma plain_app (a b : string) : plain (a ++ b) = plain a && plain b.
Proof.
  induction a as [|x a IH]; [reflexivity|].
  change (plain (String x (a ++ b)) = plain (String x a) && plain b).
  cbn [plain]. rewrite IH. now rewrite andb_assoc.
Qed.

Lemma tokens_plain (p rest : string) :
  plain p = true ->
  Redis.tokens None (p ++ rest)
  = (map Redis.TLit (list_ascii_of_string p) ++ Redis.tokens None rest)%list.
Proof.
  induction p as [|c p IH]; intros Hp; [reflexivity|].
  cbn [plain] in Hp. apply andb_true_iff in Hp as [Hc Hp].
  unfold is_glob_special in Hc. apply negb_true_iff in Hc.
  apply orb_false_iff in Hc as [Hc H4]. apply orb_false_iff in Hc as [Hc H3].
  apply orb_false_iff in Hc as [H1 H2].
  change (Redis.tokens None (String c (p ++ rest))
          = (Redis.TLit c :: map Redis.TLit (list_ascii_of_string p)
               ++ Redis.tokens None rest)%list).
  cbn [Redis.tokens]. rewrite H1, H2, H3, H4. now rewrite IH.
Qed.

Lemma token_match_literals (p s : string) (ts : list Redis.token) :
  Redis.token_match (map Redis.TLit (list_ascii_of_string p) ++ ts) (p ++ s)
  = Redis.token_match ts s.
Proof.
  induction p as [|c p IH]; [reflexivity|].
  change (Redis.token_match
            (Redis.TLit c :: map Redis.TLit (list_ascii_of_string p) ++ ts)
            (String c (p ++ s)) = Redis.token_match ts s).
  cbn [Redis.token_match]. rewrite Ascii.eqb_refl. exact IH.
Qed.

Lemma token_match_star (s : string) :
  Redis.token_match (Redis.TStar :: nil) s = true.
Proof.
  induction s as [|c s IH]; [reflexivity|].
  cbn [Redis.token_match] in *. exact IH.
Qed.

Lemma token_match_literals_inv (p s : string) (ts : list Redis.token) :
  Redis.token_match (map Redis.TLit (list_ascii_of_string p) ++ ts) s = true ->
  exists rest, s = p ++ rest /\ Redis.token_match ts rest = true.
Proof.
  revert s. induction p as [|c p IH]; intros s H.
  - exists s. split; [reflexivity | exact H].
  - change (Redis.token_match
              (Redis.TLit c :: map Redis.TLit (list_ascii_of_string p) ++ ts) s
            = true) in H.
    cbn [Redis.token_match] in H. destruct s as [|d s]; [discriminate|].
    apply andb_true_iff in H as [Hc H]. apply Ascii.eqb_eq in Hc as <-.
    destruct (IH _ H) as (rest & -> & Hr). exists rest. split; [reflexivity|].
    exact Hr.
Qed.

Lemma plain_request_prefix (realm : string) :
  plain realm = true -> plain (request_prefix realm) = true.
Proof.
  intros Hp. unfold request_prefix, redis_prefix.
  rewrite !plain_app, Hp. reflexivity.
Qed.

Lemma request_pattern_prefix (realm : string) :
  request_pattern realm = request_prefix realm ++ "*".
Proof.
  unfold request_pattern, request_prefix. now rewrite !string_app_assoc.
Qed.

Lemma request_key_prefix (realm request_uuid : string) :
  request_key realm request_uuid = request_prefix realm ++ request_uuid.
Proof.
  unfold request_key, request_prefix. now rewrite !string_app_assoc.
Qed.

Lemma stringmatch_plain_prefix (p k : string) :
  plain p = true -> p <> "" ->
  Redis.stringmatch (p ++ "*") k = true <-> exists rest, k = p ++ rest.
Proof.
  intros Hp Hne. unfold Redis.stringmatch. split.
  - destruct k as [|c k].
    + destruct p; [contradiction | discriminate].
    + rewrite tokens_plain by assumption. intros H.
      apply token_match_literals_inv in H as (rest & E & _). eauto.
  - intros [rest ->]. destruct (p ++ rest) eqn:E.
    + destruct p; [contradiction | discriminate E].
    + rewrite <- E. rewrite tokens_plain by assumption.
      rewrite token_match_literals. apply token_match_star.
Qed.

Lemma length_filter_perm {A} (f : A -> bool) (l l' : list A) :
  l ≡ₚ l' -> length (List.filter f l) = length (List.filter f l').
Proof.
  induction 1 as [|x l l' _ IH|x y l|l1 l2 l3 _ IH1 _ IH2];
    cbn [List.filter]; try reflexivity.
  - destruct (f x); cbn [length]; now rewrite IH.
  - destruct (f x), (f y); reflexivity.
  - now rewrite IH1.
Qed.

(** A pattern built from a realm name without special characters matches
    every request key of that realm. *)
Lemma request_pattern_matches_own_keys (realm request_uuid : string) :
  plain realm = true ->
  Redis.stringmatch (request_pattern realm) (request_key realm request_uuid)
  = true.
Proof.
  intros Hp. unfold request_pattern, request_key.
  rewrite <- !string_app_assoc.
  set (p := (redis_prefix ++ ":REQUEST:") ++ realm).
  unfold Redis.stringmatch.
  assert (plain p = true) as Hpp.
  { unfold p. rewrite plain_app, Hp. reflexivity. }
  destruct ((p ++ ":") ++ request_uuid) eqn:E.
  - destruct p; discriminate E.
  - rewrite <- E. rewrite !string_app_assoc.
    rewrite tokens_plain by assumption.
    rewrite token_match_literals.
    change (":" ++ request_uuid) with (String ":" request_uuid).
    cbn. apply token_match_star.
Qed.

(** No pattern built from a realm name matches a definition key or the
    index key. *)
Lemma request_pattern_not_realm_key (realm r : string) :
  Redis.stringmatch (request_pattern realm) (_realm_redis_key r) = false.
Proof. reflexivity. Qed.

Lemma request_pattern_not_index (realm : string) :
  Redis.stringmatch (request_pattern realm) realms_key = false.
Proof. reflexivity. Qed.

(** ** unregister_realm *)

Lemma delete_all_cons d k ks :
  delete_all d (k :: ks) = delete_all (Redis.delete d k) ks.
Proof. reflexivity. Qed.

Lemma delete_all_lookup d ks k :
  Redis.hashes (delete_all d ks) !! k
  = (if decide (k ∈ ks) then None else Redis.hashes d !! k)
  /\ Redis.sets (delete_all d ks) !! k
     = (if decide (k ∈ ks) then None else Redis.sets d !! k)
  /\ Redis.strings (delete_all d ks) !! k
     = (if decide (k ∈ ks) then None else Redis.strings d !! k).
Proof.
  revert d. induction ks as [|a ks IH]; intros d.
  - rewrite !decide_False by apply not_elem_of_nil. auto.
  - rewrite delete_all_cons. destruct (IH (Redis.delete d a)) as (Hh & Hs & Hr).
    rewrite Hh, Hs, Hr. cbn [Redis.delete Redis.hashes Redis.sets Redis.strings].
    destruct (decide (k ∈ ks)) as [Hin|Hin].
    + rewrite !decide_True by now right. auto.
    + destruct (decide (a = k)) as [->|Hne].
      * rewrite !decide_True by left. rewrite !lookup_delete_eq. auto.
      * rewrite !decide_False by (rewrite elem_of_cons; intros [?|?]; congruence).
        rewrite !lookup_delete_ne by assumption. auto.
Qed.

Lemma for_each_delete (ks : list string) (w : world) :
  for_each ks (fun k => update_redis (fun d => Redis.delete d k)) w
  = (Return tt,
     mkWorld (delete_all (redis w) ks) (clock w) (uuid4 w) (drawn w)
             (navigations w) (slept w)).
Proof.
  revert w. induction ks as [|k ks IH]; intros w.
  - cbn. now destruct w.
  - cbn [for_each]. unfold mbind, update_redis at 1. rewrite IH.
    reflexivity.
Qed.

Lemma elem_of_keys (d : Redis.db) (pattern k : string) :
  k ∈ Redis.keys d pattern
  <-> k ∈ Redis.all_keys d /\ Redis.stringmatch pattern k = true.
Proof.
  unfold Redis.keys. rewrite list_elem_of_In, filter_In, <- list_elem_of_In.
  now rewrite elem_of_elements.
Qed.

Lemma smembers_srem (d : Redis.db) (name member : string) :
  Redis.smembers (Redis.srem d name member) name
  = Redis.smembers d name ∖ {[member]}.
Proof.
  unfold Redis.srem, Redis.smembers at 1. cbn [Redis.sets].
  case_decide as He.
  - rewrite lookup_delete_eq. cbn. now rewrite He.
  - now rewrite lookup_insert_eq.
Qed.

(** What one call of [unregister_realm] does to the world. *)
Lemma unregister_realm_effect (w : world) (realm : string) :
  exists w',
    unregister_realm realm w = (Return true, w')
    /\ clock w' = clock w /\ drawn w' = drawn w
    /\ navigations w' = navigations w
    /\ (forall field, stored (redis w') realm field = None)
    /\ ~ registered (redis w') realm
    /\ (forall k, Redis.stringmatch (request_pattern realm) k = true ->
          k ∉ Redis.all_keys (redis w'))
    /\ (forall other, other <> realm ->
          (registered (redis w') other <-> registered (redis w) other)
          /\ forall field,
               stored (redis w') other field = stored (redis w) other field)
    /\ (forall k, Redis.stringmatch (request_pattern realm) k = false ->
          k <> _realm_redis_key realm ->
          Redis.strings (redis w') !! k = Redis.strings (redis w) !! k).
Proof.
  unfold unregister_realm, mbind, update_redis at 1 2, with_redis.
  cbn [redis clock uuid4 drawn navigations slept].
  rewrite for_each_delete. cbn [redis clock uuid4 drawn navigations slept].
  unfold ret. eexists. split; [reflexivity|].
  cbn [redis clock uuid4 drawn navigations slept].
  set (d1 := Redis.delete (redis w) (_realm_redis_key realm)).
  set (d2 := Redis.srem d1 realms_key realm).
  set (ks := Redis.keys d2 (request_pattern realm)).
  assert (forall k, k ∈ ks -> Redis.stringmatch (request_pattern realm) k = true)
    as Hks by (intros k Hk; now apply elem_of_keys in Hk).
  assert (forall r, _realm_redis_key r ∉ ks) as Hrk.
  { intros r Hin. apply Hks in Hin.
    now rewrite request_pattern_not_realm_key in Hin. }
  assert (realms_key ∉ ks) as Hik.
  { intros Hin. apply Hks in Hin.
    now rewrite request_pattern_not_index in Hin. }
  assert (Redis.smembers (delete_all d2 ks) realms_key
          = Redis.smembers (redis w) realms_key ∖ {[realm]}) as Hidx.
  { unfold Redis.smembers at 1.
    destruct (delete_all_lookup d2 ks realms_key) as (_ & -> & _).
    rewrite decide_False by assumption.
    fold (Redis.smembers d2 realms_key). unfold d2. rewrite smembers_srem.
    unfold Redis.smembers, d1. cbn [Redis.delete Redis.sets].
    rewrite lookup_delete_ne by apply realm_key_not_index. reflexivity. }
  split; [reflexivity|]. split; [reflexivity|]. split; [reflexivity|].
  split; [|split; [|split; [|split]]].
  - intros field. unfold stored, Redis.hgetall.
    destruct (delete_all_lookup d2 ks (_realm_redis_key realm)) as (-> & _).
    rewrite decide_False by apply Hrk.
    unfold d2, d1. cbn [Redis.srem Redis.delete Redis.hashes].
    rewrite lookup_delete_eq. cbn. apply lookup_empty.
  - unfold registered. rewrite Hidx, elem_of_difference, elem_of_singleton.
    tauto.
  - intros k Hm Hin.
    assert (k ∈ Redis.all_keys d2) as Hin2.
    { unfold Redis.all_keys in *.
      destruct (delete_all_lookup d2 ks k) as (Hh & Hs & Hr).
      rewrite !elem_of_union, !elem_of_dom in *.
      rewrite Hh, Hs, Hr in Hin.
      destruct (decide (k ∈ ks)); [|exact Hin].
      destruct Hin as [[[? [=]]|[? [=]]]|[? [=]]]. }
    assert (k ∈ ks) as Hk by (apply elem_of_keys; auto).
    unfold Redis.all_keys in Hin.
    destruct (delete_all_lookup d2 ks k) as (Hh & Hs & Hr).
    rewrite !elem_of_union, !elem_of_dom in Hin.
    rewrite Hh, Hs, Hr in Hin. rewrite !decide_True in Hin by assumption.
    destruct Hin as [[[? [=]]|[? [=]]]|[? [=]]].
  - intros other Hne. split.
    + unfold registered. rewrite Hidx, elem_of_difference, elem_of_singleton.
      tauto.
    + intros field. unfold stored, Redis.hgetall.
      destruct (delete_all_lookup d2 ks (_realm_redis_key other)) as (-> & _).
      rewrite decide_False by apply Hrk.
      unfold d2, d1. cbn [Redis.srem Redis.delete Redis.hashes].
      rewrite lookup_delete_ne; [reflexivity|].
      intros E. apply realm_key_inj in E. congruence.
  - intros k Hm Hne.
    destruct (delete_all_lookup d2 ks k) as (_ & _ & ->).
    rewrite decide_False by (intros Hin; apply Hks in Hin; congruence).
    unfold d2, d1. cbn [Redis.srem Redis.delete Redis.strings].
    now rewrite lookup_delete_ne by congruence.
Qed.

(** For a realm name without special characters every request of the realm
    is gone after [unregister_realm]. *)
Lemma unregister_plain_realm_deletes_its_requests (w : world)
  (realm request_uuid : string) :
  plain realm = true ->
  Redis.strings (redis (snd (unregister_realm realm w)))
    !! request_key realm request_uuid = None.
Proof.
  intros Hp.
  destruct (unregister_realm_effect w realm)
    as (w' & -> & _ & _ & _ & _ & _ & Hgone & _).
  cbn [snd].
  pose proof (Hgone _ (request_pattern_matches_own_keys
                         realm request_uuid Hp)) as Hk.
  now destruct (not_in_all_keys _ _ Hk) as (_ & _ & ?).
Qed.

(** C4, the defect: the realm name is put into the pattern as it is.  Unregistering ["api"], which was never
    registered and has no definition, deletes the one live request of the
    registered realm ["api:v2"], so the call is not a no-op; and
    unregistering ["[a]"] leaves that realm's own request in the store,
    because the pattern reads the brackets as a character class. *)
Theorem unregister_realm_pattern_is_not_escaped :
  (~ registered (redis world_nested) "api"
   /\ has_definition (redis world_nested) "api" = false
   /\ Redis.strings (redis world_nested) !! request_key "api:v2" "u"
      = Some ("u", 60)
   /\ fst (unregister_realm "api" world_nested) = Return true
   /\ Redis.strings (redis (snd (unregister_realm "api" world_nested)))
        !! request_key "api:v2" "u" = None
   /\ active_count (redis world_nested) "api:v2" = 1
   /\ active_count (redis (snd (unregister_realm "api" world_nested))) "api:v2"
      = 0)
  /\ (registered (redis world_bracket) "[a]"
      /\ Redis.strings (redis world_bracket) !! request_key "[a]" "u"
         = Some ("u", 60)
      /\ fst (unregister_realm "[a]" world_bracket) = Return true
      /\ Redis.strings (redis (snd (unregister_realm "[a]" world_bracket)))
           !! request_key "[a]" "u" = Some ("u", 60)).
Proof.
  split; [split|split].
  - unfold registered. apply (bool_decide_unpack _). vm_compute. exact I.
  - repeat (match goal with |- _ /\ _ => split end); vm_compute; reflexivity.
  - unfold registered. apply (bool_decide_unpack _). vm_compute. exact I.
  - repeat (match goal with |- _ /\ _ => split end); vm_compute; reflexivity.
Qed.

(** ** The registry across calls *)

Section Frames.

Variable R : world -> world -> Prop.
Hypothesis R_refl : forall w, R w w.
Hypothesis R_trans : forall w1 w2 w3, R w1 w2 -> R w2 w3 -> R w1 w3.

Lemma frame_bind {A B} (m : M A) (k : A -> M B) :
  (forall w, R w (snd (m w))) ->
  (forall a w, R w (snd (k a w))) ->
  forall w, R w (snd (mbind m k w)).
Proof.
  intros Hm Hk w. unfold mbind. specialize (Hm w).
  destruct (m w) as [[a|e] w1]; cbn [snd] in *; [|exact Hm].
  eapply R_trans; [exact Hm | apply Hk].
Qed.

Lemma frame_for_each {A} (l : list A) (body : A -> M unit) :
  (forall a w, R w (snd (body a w))) ->
  forall w, R w (snd (for_each l body w)).
Proof.
  intros Hb. induction l as [|a l IH]; cbn [for_each].
  - intros w. apply R_refl.
  - apply frame_bind; auto.
Qed.

Lemma frame_read_only {A} (m : M A) :
  read_only m -> forall w, R w (snd (m w)).
Proof. intros H w. rewrite H. apply R_refl. Qed.

End Frames.

Lemma same_registry_refl w : same_registry w w.
Proof. split; reflexivity. Qed.

Lemma same_registry_trans w1 w2 w3 :
  same_registry w1 w2 -> same_registry w2 w3 -> same_registry w1 w3.
Proof.
  intros [Hs Hh] [Hs' Hh']. split; [congruence|].
  intros realm. now rewrite Hh', Hh.
Qed.

(** An attempt, whatever its outcome, leaves the index and the definitions
    alone: it only ever writes request keys. *)
Lemma perform_same_registry t g realms w :
  same_registry w (snd (_perform_webdriver_get t g realms w)).
Proof.
  revert w. unfold _perform_webdriver_get.
  apply (frame_bind _ same_registry_trans);
    [apply (frame_read_only _ same_registry_refl), read_only_validate_get_func|].
  intros _.
  apply (frame_bind _ same_registry_trans);
    [apply (frame_read_only _ same_registry_refl), read_only_rate_limited|].
  intros limited. destruct (length limited =? 0)%nat.
  - apply (frame_bind _ same_registry_trans).
    + apply (frame_for_each _ same_registry_refl same_registry_trans).
      intros realm.
      apply (frame_bind _ same_registry_trans); [intros w; split; reflexivity|].
      intros u.
      apply (frame_bind _ same_registry_trans);
        [apply (frame_read_only _ same_registry_refl), read_only_realm_field|].
      intros time w. unfold Redis.setex.
      case_decide; [apply same_registry_refl|].
      split; cbn [snd update_redis redis Redis.sets Redis.hashes].
      * apply lookup_delete_ne, request_key_not_index.
      * intros r. apply lookup_delete_ne, request_key_not_realm_key.
    + intros _ w. split; reflexivity.
  - apply (frame_read_only _ same_registry_refl), read_only_raise.
Qed.

Lemma same_registry_facts w w' realm :
  same_registry w w' ->
  (registered (redis w') realm <-> registered (redis w) realm)
  /\ has_definition (redis w') realm = has_definition (redis w) realm
  /\ forall field, stored (redis w') realm field = stored (redis w) realm field.
Proof.
  intros [Hs Hh].
  unfold registered, has_definition, stored, Redis.smembers, Redis.hexists,
    Redis.hgetall.
  rewrite Hs, Hh. repeat split; auto.
Qed.

Lemma has_definition_other_hash d d' realm :
  Redis.hashes d' !! _realm_redis_key realm
  = Redis.hashes d !! _realm_redis_key realm ->
  has_definition d' realm = has_definition d realm.
Proof. unfold has_definition, Redis.hexists. now intros ->. Qed.

(** The soundness of the index is kept by every call and by the passage of
    time. *)
Lemma index_sound_step w w' :
  step w w' -> index_sound (redis w) -> index_sound (redis w').
Proof.
  intros Hstep Hsound realm.
  destruct Hstep as [r m t w | r kwargs w | r w | t g realms w | s w].
  - destruct (register_realm_effect w r m t) as [Hp Ha].
    destruct (has_definition (redis w) r) eqn:Hd.
    + rewrite (Hp eq_refl). cbn [snd]. apply Hsound.
    + destruct (Ha eq_refl) as (w' & -> & Hm & _ & Hi & Hh & _). cbn [snd].
      unfold registered. rewrite Hi, elem_of_union, elem_of_singleton.
      destruct (decide (realm = r)) as [->|Hne].
      * intros _. apply has_definition_stored. rewrite Hm. eauto.
      * intros [?|Hreg]; [congruence|].
        rewrite (has_definition_other_hash (redis w)); [now apply Hsound|].
        apply Hh. intros E. apply realm_key_inj in E. congruence.
  - destruct (update_realm_effect w r kwargs)
      as (w' & -> & Hst & Hh & Hs & _). cbn [snd].
    unfold registered, Redis.smembers. rewrite Hs. intros Hreg.
    pose proof (Hsound realm Hreg) as Hd.
    destruct (decide (realm = r)) as [->|Hne].
    + apply has_definition_stored. apply has_definition_stored in Hd.
      rewrite Hst. rewrite bool_decide_eq_true_2 by auto.
      destruct (supplied_int kwargs "max_requests"); eauto.
    + rewrite (has_definition_other_hash (redis w)); [exact Hd|].
      apply Hh. intros E. apply realm_key_inj in E. congruence.
  - destruct (unregister_realm_effect w r)
      as (w' & -> & _ & _ & _ & _ & Hnot & _ & Hother & _). cbn [snd].
    destruct (decide (realm = r)) as [->|Hne]; [intros H; now destruct Hnot|].
    destruct (Hother realm Hne) as [Hreg Hst]. intros H. apply Hreg in H.
    apply has_definition_stored. rewrite Hst.
    now apply has_definition_stored, Hsound.
  - destruct (same_registry_facts _ _ realm (perform_same_registry t g realms w))
      as (Hreg & Hd & _).
    rewrite Hd. intros H. now apply Hsound, Hreg.
  - cbn. apply Hsound.
Qed.

Lemma index_sound_empty : index_sound Redis.empty.
Proof.
  intros realm H. unfold registered, Redis.smembers, Redis.empty in H.
  cbn in H. rewrite lookup_empty in H. now apply not_elem_of_empty in H.
Qed.

(** So the index is sound in every world reached from an empty server. *)
Lemma index_sound_reachable w w' :
  rtc step w w' -> index_sound (redis w) -> index_sound (redis w').
Proof.
  induction 1 as [|w1 w2 w3 Hs _ IH]; [auto|].
  intros H. apply IH. eapply index_sound_step; eassumption.
Qed.

(** ** The registry, in the spec's words *)

(** C3, counterexample: ["A"] was never registered and the index does not
    name it, but [update_realm] has written a [max_requests] for it.
    Registering ["A"] then inserts nothing: the call returns [True] and the
    world is as before, so the stored [max_requests] is the updated one, no
    [timespan] is stored and the index still lacks ["A"]. *)
Lemma register_realm_after_update_inserts_nothing :
  ~ registered (redis world_A_updated) "A"
  /\ register_realm "A" (PyInt 100) (PyInt 300) world_A_updated
     = (Return true, world_A_updated)
  /\ stored (redis world_A_updated) "A" "max_requests" = Some "5"
  /\ stored (redis world_A_updated) "A" "timespan" = None.
Proof.
  split; [|split; [reflexivity|split; reflexivity]].
  unfold registered. apply (bool_decide_unpack _). vm_compute. exact I.
Qed.

(** C3, amended: where every name of the index has a stored definition, as
    in every store that the wrapper's calls produce, registering a name of
    the index returns [True] and changes nothing.  The test the call makes
    is the stored [max_requests], not the index: a name that has one is
    left alone whether the index names it or not, and a name that has none
    gets the two given values stored under its key and is added to the
    index, all other keys staying as they were. *)
Theorem register_realm_inserts_only_if_absent
  (w : world) (realm : string) (max_requests timespan : value) :
  (index_sound (redis w) -> registered (redis w) realm ->
   register_realm realm max_requests timespan w = (Return true, w))
  /\ (has_definition (redis w) realm = true ->
      register_realm realm max_requests timespan w = (Return true, w))
  /\ (has_definition (redis w) realm = false ->
      exists w',
        register_realm realm max_requests timespan w = (Return true, w')
        /\ stored (redis w') realm "max_requests" = Some (str max_requests)
        /\ stored (redis w') realm "timespan" = Some (str timespan)
        /\ has_definition (redis w') realm = true
        /\ registered (redis w') realm
        /\ Redis.smembers (redis w') realms_key
           = {[realm]} ∪ Redis.smembers (redis w) realms_key
        /\ (forall other, other <> _realm_redis_key realm ->
              Redis.hashes (redis w') !! other = Redis.hashes (redis w) !! other)
        /\ (forall other, other <> realms_key ->
              Redis.sets (redis w') !! other = Redis.sets (redis w) !! other)
        /\ Redis.strings (redis w') = Redis.strings (redis w)).
Proof.
  destruct (register_realm_effect w realm max_requests timespan) as [Hp Ha].
  split; [intros Hs Hr; now apply Hp, Hs|].
  split; [exact Hp|]. intros H.
  destruct (Ha H) as (w' & E & Hm & Ht & Hi & Hh & Hs & Hr & _).
  exists w'. repeat split; try assumption.
  - apply has_definition_stored. rewrite Hm. eauto.
  - unfold registered. rewrite Hi.
    apply elem_of_union_l, elem_of_singleton. reflexivity.
Qed.

Lemma register_realm_inserts_only_if_absent_witness :
  index_sound (redis world_A)
  /\ registered (redis world_A) "A"
  /\ register_realm "A" (PyInt 999) (PyInt 999) world_A = (Return true, world_A)
  /\ stored (redis world_A) "A" "max_requests" = Some "1"
  /\ has_definition (redis fresh_world) "A" = false
  /\ exists w',
       register_realm "A" (PyInt 100) (PyInt 300) fresh_world = (Return true, w')
       /\ stored (redis w') "A" "max_requests" = Some "100"
       /\ registered (redis w') "A".
Proof.
  pose proof (register_realm_inserts_only_if_absent
                world_A "A" (PyInt 999) (PyInt 999)) as (Hreg & _ & _).
  pose proof (register_realm_inserts_only_if_absent
                fresh_world "A" (PyInt 100) (PyInt 300)) as (_ & _ & Ha).
  assert (index_sound (redis world_A)) as Hs.
  { apply (index_sound_step fresh_world); [|exact index_sound_empty].
    apply step_register. }
  assert (registered (redis world_A) "A") as Hr.
  { unfold registered. apply (bool_decide_unpack _). vm_compute. exact I. }
  split; [exact Hs|]. split; [exact Hr|].
  split; [exact (Hreg Hs Hr)|]. split; [reflexivity|].
  split; [reflexivity|].
  destruct (Ha eq_refl) as (w' & E & Hm & _ & _ & Hi & _).
  exists w'. split; [exact E|]. split; [exact Hm | exact Hi].
Defined.

(** ** Admission, counted as the spec counts *)

Lemma lease_headroom_exact (d : Redis.db) (t : Z) (realm : string) :
  counted_exactly d realm -> lease_headroom d t realm = headroom d t realm.
Proof.
  unfold counted_exactly, lease_headroom, headroom. now intros ->.
Qed.

Lemma lease_saturated_exact (d : Redis.db) (t : Z) (realms : list string) :
  Forall (fun realm => counted_exactly d realm
                       /\ is_Some (lease_headroom d t realm)) realms ->
  lease_saturated d t realms = saturated d t realms.
Proof.
  induction 1 as [|realm realms [Hc [h Hh]] _ IH]; [reflexivity|].
  unfold lease_saturated, saturated in *. cbn [List.filter]. rewrite IH.
  unfold has_room. rewrite <- (lease_headroom_exact _ _ _ Hc), Hh.
  destruct (Z.leb_spec h 0), (Z.ltb_spec 0 h); try reflexivity; lia.
Qed.

Lemma NoDup_filter_fst {A B} (f : A * B -> bool) (l : list (A * B)) :
  NoDup l.*1 -> NoDup (List.filter f l).*1.
Proof.
  induction l as [|x l IH]; intros H; cbn [List.filter]; [constructor|].
  rewrite fmap_cons in H. apply NoDup_cons in H as [Hx Hl].
  destruct (f x); [|auto]. rewrite fmap_cons. apply NoDup_cons.
  split; [|auto]. intros Hin. apply Hx.
  apply list_elem_of_fmap in Hin as (y & E & Hy).
  apply list_elem_of_fmap. exists y. split; [exact E|].
  apply list_elem_of_In. apply list_elem_of_In, filter_In in Hy. tauto.
Qed.

(** Where the realm's name is plain and the keys under its prefix are its
    own leases, the scan counts what the spec counts. *)
Lemma counted_exactly_plain (d : Redis.db) (realm : string) :
  plain realm = true -> prefix_is_own d realm -> counted_exactly d realm.
Proof.
  intros Hp Hown.
  unfold counted_exactly, active_count, lease_count, live_leases, Redis.scan.
  f_equal.
  rewrite <- (length_fmap fst (List.filter (is_lease_of realm) _)).
  apply Permutation_length, NoDup_Permutation.
  - apply NoDup_ListNoDup, List.NoDup_filter, NoDup_ListNoDup, NoDup_elements.
  - apply NoDup_filter_fst, NoDup_fst_map_to_list.
  - intros k. split.
    + intros Hin. apply list_elem_of_In, filter_In in Hin as [Hk Hm].
      apply list_elem_of_In, elem_of_elements in Hk.
      rewrite request_pattern_prefix in Hm.
      apply stringmatch_plain_prefix in Hm as [rest E];
        [|now apply plain_request_prefix
         |unfold request_prefix, redis_prefix; cbv [String.append]; discriminate].
      destruct (Hown k rest Hk E) as (v & Hv & Hl).
      apply list_elem_of_fmap. exists (k, v). split; [reflexivity|].
      apply list_elem_of_In, filter_In. split; [|exact Hl].
      now apply list_elem_of_In, elem_of_map_to_list.
    + intros Hin. apply list_elem_of_fmap in Hin as ([k' v] & -> & Hin).
      apply list_elem_of_In, filter_In in Hin as [Hin Hl].
      apply list_elem_of_In, elem_of_map_to_list in Hin. cbn [fst].
      apply list_elem_of_In, filter_In. split.
      * apply list_elem_of_In, elem_of_elements. unfold Redis.all_keys.
        apply elem_of_union_r, elem_of_dom. eauto.
      * unfold is_lease_of in Hl. cbn [fst snd] in Hl.
        apply String.eqb_eq in Hl. rewrite Hl.
        now apply request_pattern_matches_own_keys.
Qed.

Lemma string_length_app (a s : string) :
  String.length (a ++ s) = (String.length a + String.length s)%nat.
Proof.
  induction a as [|c a IH]; [reflexivity|].
  change (S (String.length (a ++ s)) = S (String.length a + String.length s)%nat).
  now rewrite IH.
Qed.

Lemma string_app_inv_tail (a b s : string) : a ++ s = b ++ s -> a = b.
Proof.
  revert b. induction a as [|c a IH]; intros [|c' b] E.
  - reflexivity.
  - apply (f_equal String.length) in E.
    rewrite !string_length_app in E. cbn [String.length] in E. lia.
  - apply (f_equal String.length) in E.
    rewrite !string_length_app in E. cbn [String.length] in E. lia.
  - change (String c (a ++ s) = String c' (b ++ s)) in E.
    injection E as -> E. now rewrite (IH _ E).
Qed.

(** A request key with a given identifier belongs to one realm. *)
Lemma request_key_realm_inj (r r' u : string) :
  request_key r u = request_key r' u -> r = r'.
Proof.
  unfold request_key, redis_prefix. cbv [String.append]. intros E.
  injection E as E. fold String.append in E.
  exact (string_app_inv_tail r r' (String ":" u) E).
Qed.

Lemma is_lease_of_lease (w : world) (ts : string -> Z) (i : nat)
  (r realm : string) :
  is_lease_of realm (lease w ts i r) = String.eqb realm r.
Proof.
  unfold is_lease_of, lease. cbn [fst snd].
  destruct (String.eqb_spec realm r) as [->|Hne].
  - apply String.eqb_refl.
  - apply String.eqb_neq. intros E. apply Hne. symmetry.
    exact (request_key_realm_inj _ _ _ E).
Qed.

(** Among the requests that a granted attempt writes, the realm has one
    lease for each time it was asked. *)
Lemma leases_of_realm (w : world) (ts : string -> Z) (realms : list string)
  (realm : string) :
  length (List.filter (is_lease_of realm) (leases w ts realms))
  = times_asked realms realm.
Proof.
  unfold leases, times_asked.
  assert (forall (g : nat -> string -> string * (string * Z)),
            (forall i r, is_lease_of realm (g i r) = String.eqb realm r) ->
            length (List.filter (is_lease_of realm) (imap g realms))
            = length (List.filter (String.eqb realm) realms)) as H.
  { induction realms as [|r realms IH]; intros g Hg; [reflexivity|].
    rewrite imap_cons. cbn [List.filter]. rewrite Hg.
    destruct (String.eqb realm r); cbn [length];
      rewrite (IH (g ∘ S)); auto; intros i r'; apply Hg. }
  apply H. intros i r. apply is_lease_of_lease.
Qed.

Lemma lease_count_issue (d : Redis.db) (es : list (string * (string * Z)))
  (realm : string) :
  NoDup es.*1 ->
  (forall k, k ∈ es.*1 -> Redis.strings d !! k = None) ->
  lease_count (issue d es) realm
  = lease_count d realm
    + Z.of_nat (length (List.filter (is_lease_of realm) es)).
Proof.
  revert d. induction es as [|[k v] es IH]; intros d Hnd Hfresh.
  - cbn. lia.
  - rewrite issue_cons. rewrite fmap_cons in Hnd.
    apply NoDup_cons in Hnd as [Hk Hnd]. cbn [fst snd] in *.
    rewrite IH; [|assumption|].
    + unfold lease_count at 1, live_leases. cbn [Redis.strings].
      rewrite (length_filter_perm _ _ ((k, v) :: map_to_list (Redis.strings d)))
        by (apply map_to_list_insert, Hfresh; left).
      cbn [List.filter]. unfold lease_count, live_leases.
      destruct (is_lease_of realm (k, v)); cbn [length]; lia.
    + intros k' Hk'. cbn [Redis.strings].
      rewrite lookup_insert_ne by (intros ->; contradiction).
      apply Hfresh. now right.
Qed.

(** C2, counterexample: two requests that the claim wants denied.  Realm
    ["[a]"] allows one request and holds one live lease, so its headroom is
    zero; the pattern built from its name matches none of its keys, the
    code counts no request, and the next attempt is granted: the function
    is called and a second lease is written.  Realm ["A"] has no headroom
    and is asked together with realm ["F"], whose stored [max_requests] is
    no number: the attempt ends in [ValueError], not in the rate-limited
    error. *)
Lemma admission_without_headroom_is_not_always_denied :
  registered (redis world_bracket_full) "[a]"
  /\ lease_count (redis world_bracket_full) "[a]" = 1
  /\ lease_headroom (redis world_bracket_full) 0 "[a]" = Some 0
  /\ fst (_perform_webdriver_get 0 navigate ("[a]" :: nil) world_bracket_full)
     = Return PyNone
  /\ navigations
       (snd (_perform_webdriver_get 0 navigate ("[a]" :: nil)
               world_bracket_full))
     = S (navigations world_bracket_full)
  /\ lease_count
       (redis (snd (_perform_webdriver_get 0 navigate ("[a]" :: nil)
                      world_bracket_full))) "[a]"
     = 2
  /\ registered (redis world_AF) "A"
  /\ registered (redis world_AF) "F"
  /\ lease_headroom (redis world_AF) 0 "A" = Some 0
  /\ _perform_webdriver_get 0 navigate ("A" :: "F" :: nil) world_AF
     = (Raise (ValueError "invalid literal for int() with base 10"),
        world_AF).
Proof.
  repeat match goal with |- _ /\ _ => split end;
    try (vm_compute; reflexivity);
    unfold registered; apply (bool_decide_unpack _); vm_compute; exact I.
Qed.

(** C2, amended: the function is a valid one, every requested realm has a
    stored [max_requests] that reads as an integer and is counted exactly
    (the scan for its pattern finds as many keys as the realm has live
    leases), and at least one requested realm has no headroom.  Then the
    attempt raises the rate-limited error whose message lists exactly the
    requested realms without headroom, in the order asked, and it leaves
    the world as it found it: no lease is written for any realm and the
    function is not called.  The same outcome reaches the caller of
    [_webdriver_get] and of [get] in fail-fast mode. *)
Theorem admission_denied_is_all_or_nothing
  (fuel : nat) (t : Z) (g : func) (realms : list string) (w : world) :
  valid_get_func g ->
  Forall (fun realm => counted_exactly (redis w) realm
                       /\ is_Some (lease_headroom (redis w) t realm)) realms ->
  (exists realm h,
     In realm realms /\ lease_headroom (redis w) t realm = Some h /\ h <= 0) ->
  let limited := lease_saturated (redis w) t realms in
  let denial :=
    (Raise (SeleniumRespectfulRateLimitedError
              ("Currently rate-limited on Realm(s): " ++ join ", " limited)), w) in
  _perform_webdriver_get t g realms w = denial
  /\ limited <> nil
  /\ (forall realm,
        In realm limited
        <-> In realm realms
            /\ exists h, lease_headroom (redis w) t realm = Some h /\ h <= 0)
  /\ (Forall (registered (redis w)) realms ->
      _webdriver_get fuel t g realms false w = Some denial
      /\ _selenium_webdriver_proxy_get fuel t (call g) realms false w
         = Some denial).
Proof.
  intros Hv Hall (realm & h & Hin & Hh & Hle) limited denial.
  assert (forall r, In r limited
            <-> In r realms
                /\ exists h, lease_headroom (redis w) t r = Some h /\ h <= 0)
    as Hspec.
  { intros r. unfold limited, lease_saturated. rewrite filter_In. split.
    - intros [Hr Hf]. split; [exact Hr|].
      destruct (lease_headroom (redis w) t r) as [h'|]; [|discriminate].
      exists h'. split; [reflexivity|]. now apply Z.leb_le.
    - intros [Hr (h' & -> & Hle')]. split; [exact Hr|]. now apply Z.leb_le. }
  assert (limited <> nil) as Hne.
  { intros E. assert (In realm limited) as Hl by (apply Hspec; eauto).
    rewrite E in Hl. exact Hl. }
  assert (limited = saturated (redis w) t realms) as Hsat
    by now apply lease_saturated_exact.
  assert (Forall (fun r => is_Some (headroom (redis w) t r)) realms) as Hread.
  { eapply Forall_impl; [exact Hall|]. intros r [Hc Hs].
    now rewrite <- (lease_headroom_exact _ _ _ Hc). }
  assert (forall g', valid_get_func g' ->
            _perform_webdriver_get t g' realms w = denial) as Hp.
  { intros g' Hg'. unfold denial. rewrite Hsat.
    apply perform_denied; [assumption..|]. now rewrite <- Hsat. }
  split; [now apply Hp|]. split; [exact Hne|]. split; [exact Hspec|].
  intros Hreg. split.
  - rewrite webdriver_get_registered by assumption. now rewrite Hp.
  - unfold _selenium_webdriver_proxy_get.
    destruct realms as [|r0 realms']; [destruct Hin|]. cbn [length Nat.eqb].
    rewrite webdriver_get_registered by assumption.
    now rewrite Hp by apply proxy_lambda_valid.
Qed.

Lemma admission_denied_is_all_or_nothing_witness :
  valid_get_func navigate
  /\ _perform_webdriver_get 0 navigate ("A" :: "B" :: nil) world_AB
     = (Raise (SeleniumRespectfulRateLimitedError
                 "Currently rate-limited on Realm(s): A"), world_AB)
  /\ lease_count (redis world_AB) "B" = 0
  /\ lease_count (redis world_A_busy) "A" = 1
  /\ _perform_webdriver_get 0 navigate ("A" :: nil) world_A_busy
     = (Raise (SeleniumRespectfulRateLimitedError
                 "Currently rate-limited on Realm(s): A"), world_A_busy).
Proof.
  assert (valid_get_func navigate) as Hv by apply proxy_lambda_valid.
  split; [exact Hv|].
  destruct (admission_denied_is_all_or_nothing 0 0 navigate
              ("A" :: "B" :: nil) world_AB Hv) as (H & _).
  { constructor; [|constructor; [|constructor]];
      (split; [vm_compute; reflexivity | vm_compute; eauto]). }
  { exists "A", 0. split; [left; reflexivity|]. split; [reflexivity | lia]. }
  destruct (admission_denied_is_all_or_nothing 0 0 navigate
              ("A" :: nil) world_A_busy Hv) as (H' & _).
  { constructor; [|constructor].
    split; [vm_compute; reflexivity | vm_compute; eauto]. }
  { exists "A", 0. split; [left; reflexivity|].
    split; [vm_compute; reflexivity | lia]. }
  split; [rewrite H; reflexivity|]. split; [reflexivity|].
  split; [vm_compute; reflexivity|]. rewrite H'. vm_compute. reflexivity.
Defined.

(** C1, counterexample: two requests that the claim wants granted.  Realm
    ["api"] allows one request and has no lease, so its headroom is one;
    the pattern built from its name also matches the lease of realm
    ["api:v2"], the code counts one request, and the attempt is denied.
    Realms ["C"] and ["Z"] both have headroom, and ["Z"] was registered
    with a time span of zero seconds: the server refuses the lease of
    ["Z"], so the attempt ends in [ResponseError] after the lease of ["C"]
    was written, and the function is not called. *)
Lemma admission_with_headroom_is_not_always_granted :
  registered (redis world_api) "api"
  /\ lease_count (redis world_api) "api" = 0
  /\ lease_headroom (redis world_api) 0 "api" = Some 1
  /\ _perform_webdriver_get 0 navigate ("api" :: nil) world_api
     = (Raise (SeleniumRespectfulRateLimitedError
                 "Currently rate-limited on Realm(s): api"), world_api)
  /\ registered (redis world_CZ) "C"
  /\ registered (redis world_CZ) "Z"
  /\ lease_headroom (redis world_CZ) 0 "C" = Some 3
  /\ lease_headroom (redis world_CZ) 0 "Z" = Some 5
  /\ fst (_perform_webdriver_get 0 navigate ("C" :: "Z" :: nil) world_CZ)
     = Raise (ResponseError "invalid expire time in setex")
  /\ navigations
       (snd (_perform_webdriver_get 0 navigate ("C" :: "Z" :: nil) world_CZ))
     = navigations world_CZ
  /\ lease_count
       (redis (snd (_perform_webdriver_get 0 navigate ("C" :: "Z" :: nil)
                      world_CZ))) "C"
     = 1
  /\ lease_count
       (redis (snd (_perform_webdriver_get 0 navigate ("C" :: "Z" :: nil)
                      world_CZ))) "Z"
     = 0.
Proof.
  repeat match goal with |- _ /\ _ => split end;
    try (vm_compute; reflexivity);
    unfold registered; apply (bool_decide_unpack _); vm_compute; exact I.
Qed.

(** C1, amended: the function is a valid one; every requested realm is
    counted exactly (the scan for its pattern finds as many keys as the
    realm has live leases), has positive headroom and has a stored time
    span that reads as a positive integer; and the identifiers drawn give
    keys that are new and distinct.  Then the attempt returns what the
    function returns, having called it exactly once; it draws one
    identifier per requested realm and writes, for the [i]-th realm, one
    lease under the key built from that realm and the [i]-th identifier,
    holding the identifier and expiring the realm's own time span from
    now; nothing else in the store changes, so the store holds exactly
    [length realms] more leases, one more for a realm each time the request
    names it.  The same outcome reaches the caller of [_webdriver_get] and
    of [get] in fail-fast mode. *)
Theorem admission_granted_issues_one_lease_per_realm
  (fuel : nat) (t : Z) (g : func) (realms : list string) (w : world)
  (ts : string -> Z) :
  valid_get_func g ->
  (forall realm, In realm realms -> counted_exactly (redis w) realm) ->
  (forall realm, In realm realms ->
     exists h, lease_headroom (redis w) t realm = Some h /\ 0 < h) ->
  (forall realm, In realm realms ->
     stored_int (redis w) realm "timespan" = Some (ts realm) /\ 0 < ts realm) ->
  NoDup (leases w ts realms).*1 ->
  (forall k, k ∈ (leases w ts realms).*1 -> k ∉ Redis.all_keys (redis w)) ->
  exists w',
    _perform_webdriver_get t g realms w = (call g, w')
    /\ navigations w' = S (navigations w)
    /\ drawn w' = (drawn w + length realms)%nat
    /\ clock w' = clock w /\ slept w' = slept w
    /\ Redis.hashes (redis w') = Redis.hashes (redis w)
    /\ Redis.sets (redis w') = Redis.sets (redis w)
    /\ Redis.strings (redis w')
       = list_to_map (leases w ts realms) ∪ Redis.strings (redis w)
    /\ size (Redis.strings (redis w'))
       = (size (Redis.strings (redis w)) + length realms)%nat
    /\ (forall i realm,
          realms !! i = Some realm ->
          Redis.strings (redis w')
            !! request_key realm (uuid4 w (drawn w + i)%nat)
          = Some (uuid4 w (drawn w + i)%nat, clock w + ts realm))
    /\ (forall realm,
          lease_count (redis w') realm
          = lease_count (redis w) realm + Z.of_nat (times_asked realms realm))
    /\ (Forall (registered (redis w)) realms ->
        _webdriver_get fuel t g realms false w = Some (call g, w')
        /\ (realms <> nil ->
            _selenium_webdriver_proxy_get fuel t (call g) realms false w
            = Some (call g, w'))).
Proof.
  intros Hv Hexact Hroom' Hts Hnd Hfresh.
  assert (forall realm, In realm realms ->
            exists h, headroom (redis w) t realm = Some h /\ 0 < h) as Hroom.
  { intros realm Hin. rewrite <- (lease_headroom_exact _ _ _ (Hexact realm Hin)).
    now apply Hroom'. }
  eexists. split; [now apply (perform_granted t g realms w ts)|].
  cbn [redis clock drawn navigations slept].
  assert (Redis.strings (issue (redis w) (leases w ts realms))
          = list_to_map (leases w ts realms) ∪ Redis.strings (redis w)) as Hs
    by now apply issue_strings.
  split; [reflexivity|]. split; [reflexivity|].
  split; [reflexivity|]. split; [reflexivity|].
  split; [|split; [|split; [|split; [|split; [|split]]]]].
  - apply issue_hashes. intros k Hk.
    now destruct (not_in_all_keys _ _ (Hfresh k Hk)).
  - apply issue_sets. intros k Hk.
    now destruct (not_in_all_keys _ _ (Hfresh k Hk)) as (_ & ? & _).
  - exact Hs.
  - rewrite Hs. rewrite map_size_disj_union
      by now apply leases_keys_disjoint.
    rewrite map_size_list_to_map by assumption.
    unfold leases. rewrite length_imap. lia.
  - intros i realm Hi. rewrite Hs. apply lookup_union_Some_l.
    apply elem_of_list_to_map_1; [assumption|].
    apply list_elem_of_lookup. exists i. unfold leases.
    rewrite list_lookup_imap, Hi. reflexivity.
  - intros realm. rewrite lease_count_issue, leases_of_realm;
      [reflexivity | assumption |].
    intros k Hk. now destruct (not_in_all_keys _ _ (Hfresh k Hk)) as (_ & _ & ?).
  - intros Hreg. split.
    + rewrite webdriver_get_registered by assumption.
      now rewrite (perform_granted t g realms w ts).
    + intros Hne. unfold _selenium_webdriver_proxy_get.
      destruct realms as [|r0 realms']; [congruence|]. cbn [length Nat.eqb].
      rewrite webdriver_get_registered by assumption.
      rewrite (perform_granted t (proxy_lambda (call g)) (r0 :: realms') w ts)
        by (try apply proxy_lambda_valid; assumption).
      reflexivity.
Qed.

Lemma admission_granted_issues_one_lease_per_realm_witness :
  lease_count (redis world_CD_busy) "C" = 1
  /\ lease_count (redis world_CD_busy) "D" = 1
  /\ exists w',
       _perform_webdriver_get 0 navigate ("C" :: "D" :: nil) world_CD_busy
       = (Return PyNone, w')
       /\ navigations w' = 2%nat
       /\ size (Redis.strings (redis w')) = 4%nat
       /\ Redis.strings (redis w') !! "SeleniumRequester:REQUEST:C:uuu"
          = Some ("uuu", 7)
       /\ Redis.strings (redis w') !! "SeleniumRequester:REQUEST:D:uuuu"
          = Some ("uuuu", 30)
       /\ lease_count (redis w') "C" = 2
       /\ lease_count (redis w') "D" = 2.
Proof.
  split; [vm_compute; reflexivity|]. split; [vm_compute; reflexivity|].
  destruct (admission_granted_issues_one_lease_per_realm 0 0 navigate
              ("C" :: "D" :: nil) world_CD_busy
              (fun realm => if String.eqb realm "C" then 7 else 30))
    as (w' & E & Hn & _ & _ & _ & _ & _ & _ & Hsize & Hkeys & Hcount & _).
  - apply proxy_lambda_valid.
  - intros realm [<-|[<-|[]]]; vm_compute; reflexivity.
  - intros realm [<-|[<-|[]]]; vm_compute; eexists; (split; reflexivity).
  - intros realm [<-|[<-|[]]]; vm_compute; (split; reflexivity).
  - apply (bool_decide_unpack _). vm_compute. exact I.
  - intros k Hk.
    assert (k = "SeleniumRequester:REQUEST:C:uuu"
            \/ k = "SeleniumRequester:REQUEST:D:uuuu") as [->| ->].
    { apply list_elem_of_In in Hk.
      change (In k ("SeleniumRequester:REQUEST:C:uuu"
                    :: "SeleniumRequester:REQUEST:D:uuuu" :: nil)) in Hk.
      destruct Hk as [<-|[<-|[]]]; auto. }
    all: apply (bool_decide_unpack _); vm_compute; exact I.
  - exists w'. split; [exact E|]. split; [exact Hn|]. split; [exact Hsize|].
    split; [exact (Hkeys 0%nat "C" eq_refl)|].
    split; [exact (Hkeys 1%nat "D" eq_refl)|].
    split; [rewrite (Hcount "C") | rewrite (Hcount "D")];
      vm_compute; reflexivity.
Defined.

(** ** The scenarios of the test suite, run on the model *)

(** [max_requests=11] under a safety threshold of 10 admits one request and
    refuses the second. *)
Example safety_threshold_leaves_one_request :
  let w0 := snd (register_realm "TEST123" (PyInt 11) (PyInt 300) fresh_world) in
  let first := _selenium_webdriver_proxy_get 1 10 (Return PyNone)
                 ("TEST123" :: nil) false w0 in
  let second :=
    match first with
    | Some (_, w1) =>
        _selenium_webdriver_proxy_get 1 10 (Return PyNone)
          ("TEST123" :: nil) false w1
    | None => None
    end in
  option_map fst first = Some (Return PyNone)
  /\ option_map fst second
     = Some (Raise (SeleniumRespectfulRateLimitedError
                      "Currently rate-limited on Realm(s): TEST123")).
Proof. split; vm_compute; reflexivity. Qed.

(** Three waiting requests in a row on a realm that admits one request every
    two seconds all return; the second and the third each wait two seconds. *)
Example three_waiting_requests_all_return :
  let get w :=
    _selenium_webdriver_proxy_get 10 0 (Return PyNone) ("TEST123" :: nil) true w in
  let w0 := snd (register_realm "TEST123" (PyInt 1) (PyInt 2) fresh_world) in
  match get w0 with
  | Some (r1, w1) =>
      match get w1 with
      | Some (r2, w2) =>
          match get w2 with
          | Some (r3, w3) =>
              (r1, r2, r3, slept w1, slept w2, slept w3, navigations w3)
              = (Return PyNone, Return PyNone, Return PyNone, 0, 2, 4, 3%nat)
          | None => False
          end
      | None => False
      end
  | None => False
  end.
Proof. vm_compute. reflexivity. Qed.

(** A request on a realm that was never registered is refused. *)
Example unregistered_realm_is_refused :
  option_map fst
    (_selenium_webdriver_proxy_get 1 0 (Return PyNone) ("TEST123" :: nil)
       false fresh_world)
  = Some (Raise (SeleniumRespectfulError
                   "Realm 'TEST123' hasn't been registered")).
Proof. vm_compute. reflexivity. Qed.

(** [_validate_get_func] refuses what is not a function and a lambda that
    does not start with the sanctioned call, and accepts one that does. *)
Example validate_get_func_cases :
  fst (_validate_get_func (mkFunc false "" (Return PyNone)) fresh_world)
  = Raise (SeleniumRespectfulError "'get_func' is expected to be a lambda")
  /\ fst (_validate_get_func
            (mkFunc true "        driver._validate_get_func(lambda: 1 + 1)"
                    (Return PyNone)) fresh_world)
     = Raise (SeleniumRespectfulError
                "The lambda can only contain a self.webdriver.get function call")
  /\ fst (_validate_get_func
            (mkFunc true
               "    get_func = lambda: self.webdriver.get('http://google.com')"
               (Return PyNone)) fresh_world)
     = Return tt.
Proof. repeat (match goal with |- _ /\ _ => split end); vm_compute; reflexivity. Qed.

(** * Further properties of the code *)

(** ** Keys *)

(** X1: the keys of realm definitions, the key of the index and the keys of
    requests never coincide, whatever the realm names and identifiers, and
    different realms have different definition keys. *)
Theorem key_families_never_collide (realm realm' request_uuid : string) :
  (_realm_redis_key realm = _realm_redis_key realm' -> realm = realm')
  /\ _realm_redis_key realm <> realms_key
  /\ request_key realm request_uuid <> _realm_redis_key realm'
  /\ request_key realm request_uuid <> realms_key.
Proof.
  split; [apply realm_key_inj|]. split; [apply realm_key_not_index|].
  split; [apply request_key_not_realm_key | apply request_key_not_index].
Qed.

Lemma colon_free_app_colon (a b : string) :
  colon_free (a ++ String ":" b) = false.
Proof.
  induction a as [|c a IH]; [reflexivity|].
  change (colon_free (String c (a ++ String ":" b)) = false).
  cbn [colon_free]. rewrite IH. apply andb_false_r.
Qed.

Lemma app_colon_inj (r r' u u' : string) :
  colon_free u = true -> colon_free u' = true ->
  r ++ String ":" u = r' ++ String ":" u' -> r = r' /\ u = u'.
Proof.
  intros Hu Hu'. revert r'.
  induction r as [|c r IH]; intros [|c' r'] E.
  - injection E as <-. auto.
  - change (String ":" u = String c' (r' ++ String ":" u')) in E.
    injection E as _ ->. now rewrite colon_free_app_colon in Hu.
  - change (String c (r ++ String ":" u) = String ":" u') in E.
    injection E as _ <-. now rewrite colon_free_app_colon in Hu'.
  - change (String c (r ++ String ":" u) = String c' (r' ++ String ":" u')) in E.
    injection E as -> E. destruct (IH _ E) as [-> ->]. auto.
Qed.

(** X2: a request key determines its realm and its identifier as long as
    identifiers contain no colon, which is the case of the text of a UUID;
    with a colon in the identifier the key is shared with a longer realm
    name. *)
Theorem request_key_determines_realm_and_identifier
  (realm realm' request_uuid request_uuid' : string) :
  (colon_free request_uuid = true -> colon_free request_uuid' = true ->
   request_key realm request_uuid = request_key realm' request_uuid' ->
   realm = realm' /\ request_uuid = request_uuid')
  /\ request_key realm (request_uuid ++ ":" ++ request_uuid')
     = request_key (realm ++ ":" ++ request_uuid) request_uuid'.
Proof.
  split.
  - intros Hu Hu'. unfold request_key, redis_prefix. intros E.
    assert (realm ++ String ":" request_uuid = realm' ++ String ":" request_uuid')
      as E'.
    { cbv [String.append] in E. injection E. auto. }
    now apply app_colon_inj.
  - unfold request_key. now rewrite !string_app_assoc.
Qed.

Lemma request_key_determines_realm_and_identifier_witness :
  colon_free "6fa459ea" = true
  /\ ("api" = "api" /\ "6fa459ea" = "6fa459ea").
Proof.
  split; [reflexivity|].
  apply (request_key_determines_realm_and_identifier
           "api" "api" "6fa459ea" "6fa459ea"); reflexivity.
Defined.

(** ** register_realms *)

Lemma register_realm_returns w realm m t :
  register_realm realm m t w
  = (Return true, snd (register_realm realm m t w)).
Proof.
  destruct (register_realm_effect w realm m t) as [Hp Ha].
  destruct (has_definition (redis w) realm) eqn:Hd.
  - now rewrite (Hp eq_refl).
  - destruct (Ha eq_refl) as (w' & -> & _). reflexivity.
Qed.

Lemma register_realm_strings w realm m t :
  Redis.strings (redis (snd (register_realm realm m t w)))
  = Redis.strings (redis w).
Proof.
  destruct (register_realm_effect w realm m t) as [Hp Ha].
  destruct (has_definition (redis w) realm) eqn:Hd.
  - now rewrite (Hp eq_refl).
  - destruct (Ha eq_refl) as (w' & -> & _ & _ & _ & _ & _ & Hs & _). exact Hs.
Qed.

Lemma register_realm_other w name m t realm :
  realm <> name ->
  (forall field,
     stored (redis (snd (register_realm name m t w))) realm field
     = stored (redis w) realm field)
  /\ has_definition (redis (snd (register_realm name m t w))) realm
     = has_definition (redis w) realm
  /\ (registered (redis (snd (register_realm name m t w))) realm
      <-> registered (redis w) realm).
Proof.
  intros Hne.
  destruct (register_realm_effect w name m t) as [Hp Ha].
  destruct (has_definition (redis w) name) eqn:Hd.
  - rewrite (Hp eq_refl). cbn [snd]. repeat split; auto.
  - destruct (Ha eq_refl) as (w' & -> & _ & _ & Hi & Hh & _). cbn [snd].
    assert (Redis.hashes (redis w') !! _realm_redis_key realm
            = Redis.hashes (redis w) !! _realm_redis_key realm) as Hk.
    { apply Hh. intros E. apply realm_key_inj in E. congruence. }
    split; [|split].
    + intros field. unfold stored, Redis.hgetall. now rewrite Hk.
    + now apply has_definition_other_hash.
    + unfold registered. rewrite Hi, elem_of_union, elem_of_singleton.
      tauto.
Qed.

Lemma register_realms_cons w name m t rest :
  register_realms ((name, m, t) :: rest) w
  = register_realms rest (snd (register_realm name m t w)).
Proof.
  unfold register_realms. cbn [for_each]. unfold mbind at 1 2 3.
  rewrite register_realm_returns. unfold ret at 1.
  unfold mbind at 1. reflexivity.
Qed.

(** X3: [register_realms] returns [True] for every list; a realm that had a
    definition keeps it, a realm without one gets the values of the first
    tuple that names it and enters the index, a realm that no tuple names is
    left as it was; no request is touched. *)
Theorem register_realms_first_tuple_wins
  (w : world) (realm_tuples : list (string * value * value)) :
  exists w',
    register_realms realm_tuples w = (Return true, w')
    /\ Redis.strings (redis w') = Redis.strings (redis w)
    /\ forall realm,
         match first_tuple realm realm_tuples with
         | Some (max_requests, timespan) =>
             if has_definition (redis w) realm
             then stored (redis w') realm "max_requests"
                  = stored (redis w) realm "max_requests"
                  /\ stored (redis w') realm "timespan"
                     = stored (redis w) realm "timespan"
                  /\ (registered (redis w') realm <-> registered (redis w) realm)
             else stored (redis w') realm "max_requests" = Some (str max_requests)
                  /\ stored (redis w') realm "timespan" = Some (str timespan)
                  /\ registered (redis w') realm
         | None =>
             stored (redis w') realm "max_requests"
             = stored (redis w) realm "max_requests"
             /\ stored (redis w') realm "timespan"
                = stored (redis w) realm "timespan"
             /\ (registered (redis w') realm <-> registered (redis w) realm)
         end.
Proof.
  revert w. induction realm_tuples as [|[[name m] t] rest IH]; intros w.
  - exists w. split; [reflexivity|]. split; [reflexivity|].
    intros realm. cbn [first_tuple]. repeat split; auto.
  - destruct (IH (snd (register_realm name m t w))) as (w' & E & Hs & Hall).
    exists w'. split; [now rewrite register_realms_cons|].
    split; [now rewrite Hs, register_realm_strings|].
    intros realm. cbn [first_tuple]. specialize (Hall realm).
    destruct (String.eqb_spec realm name) as [->|Hne].
    + destruct (register_realm_effect w name m t) as [Hp Ha].
      destruct (has_definition (redis w) name) eqn:Hd.
      * rewrite (Hp eq_refl) in Hall. cbn [snd] in Hall. rewrite Hd in Hall.
        destruct (first_tuple name rest) as [[m' t']|]; exact Hall.
      * destruct (Ha eq_refl) as (w1 & E1 & Hm & Ht & Hi & _).
        rewrite E1 in Hall. cbn [snd] in Hall.
        assert (has_definition (redis w1) name = true) as Hd1
          by (apply has_definition_stored; rewrite Hm; eauto).
        assert (registered (redis w1) name) as Hr1.
        { unfold registered. rewrite Hi.
          apply elem_of_union_l, elem_of_singleton. reflexivity. }
        rewrite Hd1 in Hall.
        assert (stored (redis w') name "max_requests" = stored (redis w1) name "max_requests"
                /\ stored (redis w') name "timespan" = stored (redis w1) name "timespan"
                /\ (registered (redis w') name <-> registered (redis w1) name))
          as (H1 & H2 & H3)
          by (destruct (first_tuple name rest) as [[m' t']|]; exact Hall).
        rewrite H1, H2, Hm, Ht. repeat split; auto. now apply H3.
    + destruct (register_realm_other w name m t realm Hne) as (Hst & Hd & Hr).
      rewrite Hd, !Hst in Hall.
      destruct (first_tuple realm rest) as [[m' t']|];
        [destruct (has_definition (redis w) realm)|];
        destruct Hall as (H1 & H2 & H3); repeat split; auto;
        try (intros; apply Hr, H3; assumption);
        try (intros; apply H3, Hr; assumption).
Qed.

(** ** unregister_realm, again *)

Lemma filter_nil_if {A} (f : A -> bool) (l : list A) :
  (forall x, In x l -> f x = false) -> List.filter f l = nil.
Proof.
  induction l as [|a l IH]; intros H; [reflexivity|].
  cbn [List.filter]. rewrite (H a) by now left.
  apply IH. intros x Hx. apply H. now right.
Qed.

Lemma db_eta (d : Redis.db) :
  Redis.mkDb (Redis.hashes d) (Redis.sets d) (Redis.strings d) = d.
Proof. now destruct d. Qed.

Lemma world_eta (w : world) :
  mkWorld (redis w) (clock w) (uuid4 w) (drawn w) (navigations w) (slept w) = w.
Proof. now destruct w. Qed.

(** A world in which nothing of the realm is left. *)
Lemma unregister_realm_nothing_left (w : world) (realm : string) :
  Redis.hashes (redis w) !! _realm_redis_key realm = None ->
  Redis.sets (redis w) !! _realm_redis_key realm = None ->
  Redis.strings (redis w) !! _realm_redis_key realm = None ->
  (Redis.sets (redis w) !! realms_key = None
   \/ exists S, Redis.sets (redis w) !! realms_key = Some S
                /\ S <> ∅ /\ realm ∉ S) ->
  (forall k, k ∈ Redis.all_keys (redis w) ->
     Redis.stringmatch (request_pattern realm) k = false) ->
  unregister_realm realm w = (Return true, w).
Proof.
  intros Hh Hs Hr Hidx Hkeys.
  unfold unregister_realm, mbind, update_redis at 1 2, with_redis.
  cbn [redis clock uuid4 drawn navigations slept].
  assert (Redis.delete (redis w) (_realm_redis_key realm) = redis w) as ->.
  { unfold Redis.delete. rewrite !delete_id by assumption. apply db_eta. }
  assert (Redis.srem (redis w) realms_key realm = redis w) as ->.
  { unfold Redis.srem, Redis.smembers.
    destruct Hidx as [Hn | (S & HS & Hne & Hnot)].
    - rewrite Hn. cbn [default from_option id].
      rewrite decide_True
        by (apply set_eq; intros x;
            rewrite elem_of_difference, elem_of_empty; tauto).
      rewrite delete_id by assumption. apply db_eta.
    - rewrite HS. cbn [default from_option id].
      assert (S ∖ {[realm]} = S) as ->.
      { apply set_eq. intros x. rewrite elem_of_difference, elem_of_singleton.
        split; [tauto|]. intros Hx. split; [exact Hx | congruence]. }
      rewrite decide_False by assumption.
      rewrite insert_id by assumption. apply db_eta. }
  assert (Redis.keys (redis w) (request_pattern realm) = nil) as ->.
  { unfold Redis.keys. apply filter_nil_if. intros k Hk.
    apply Hkeys, elem_of_elements, list_elem_of_In, Hk. }
  cbn [for_each]. unfold ret. now rewrite world_eta.
Qed.

(** After one call nothing of the realm is left. *)
Lemma unregister_realm_leaves_nothing (w : world) (realm : string) :
  let w' := snd (unregister_realm realm w) in
  Redis.hashes (redis w') !! _realm_redis_key realm = None
  /\ Redis.sets (redis w') !! _realm_redis_key realm = None
  /\ Redis.strings (redis w') !! _realm_redis_key realm = None
  /\ (Redis.sets (redis w') !! realms_key = None
      \/ exists S, Redis.sets (redis w') !! realms_key = Some S
                   /\ S <> ∅ /\ realm ∉ S)
  /\ (forall k, k ∈ Redis.all_keys (redis w') ->
        Redis.stringmatch (request_pattern realm) k = false).
Proof.
  cbv zeta.
  destruct (unregister_realm_effect w realm)
    as (w' & E & _ & _ & _ & _ & _ & Hgone & _).
  assert (forall k, k ∈ Redis.all_keys (redis w') ->
            Redis.stringmatch (request_pattern realm) k = false) as Hkeys.
  { intros k Hk.
    destruct (Redis.stringmatch (request_pattern realm) k) eqn:Hm;
      [|reflexivity].
    now destruct (Hgone k Hm). }
  rewrite E. cbn [snd]. clear Hgone.
  revert E. unfold unregister_realm, mbind, update_redis at 1 2, with_redis.
  cbn [redis clock uuid4 drawn navigations slept].
  rewrite for_each_delete. cbn [redis clock uuid4 drawn navigations slept].
  unfold ret. intros [= <-]. cbn [redis] in *.
  set (d1 := Redis.delete (redis w) (_realm_redis_key realm)) in *.
  set (d2 := Redis.srem d1 realms_key realm) in *.
  set (ks := Redis.keys d2 (request_pattern realm)) in *.
  assert (forall k, k ∈ ks -> Redis.stringmatch (request_pattern realm) k = true)
    as Hks by (intros k Hk; now apply elem_of_keys in Hk).
  assert (_realm_redis_key realm ∉ ks) as Hrk.
  { intros Hin. apply Hks in Hin.
    now rewrite request_pattern_not_realm_key in Hin. }
  assert (realms_key ∉ ks) as Hik.
  { intros Hin. apply Hks in Hin.
    now rewrite request_pattern_not_index in Hin. }
  destruct (delete_all_lookup d2 ks (_realm_redis_key realm)) as (Eh & Es & Er).
  destruct (delete_all_lookup d2 ks realms_key) as (_ & Ei & _).
  rewrite decide_False in Eh by assumption.
  rewrite decide_False in Es by assumption.
  rewrite decide_False in Er by assumption.
  rewrite decide_False in Ei by assumption.
  rewrite Eh, Es, Er, Ei. unfold d2, d1, Redis.srem.
  cbn [Redis.delete Redis.hashes Redis.sets Redis.strings].
  split; [apply lookup_delete_eq|]. split; [|split; [apply lookup_delete_eq|]].
  - case_decide.
    + rewrite lookup_delete_ne by (apply not_eq_sym, realm_key_not_index).
      apply lookup_delete_eq.
    + rewrite lookup_insert_ne by (apply not_eq_sym, realm_key_not_index).
      apply lookup_delete_eq.
  - split; [|exact Hkeys]. case_decide as He.
    + left. apply lookup_delete_eq.
    + right. eexists. rewrite lookup_insert_eq. split; [reflexivity|].
      split; [exact He|]. rewrite elem_of_difference, elem_of_singleton.
      tauto.
Qed.

(** X4: calling [unregister_realm] a second time changes nothing at all: the
    second call returns [True] in the world the first one left. *)
Theorem unregister_realm_twice_is_once (w : world) (realm : string) :
  unregister_realm realm (snd (unregister_realm realm w))
  = (Return true, snd (unregister_realm realm w)).
Proof.
  destruct (unregister_realm_leaves_nothing w realm) as (H1 & H2 & H3 & H4 & H5).
  now apply unregister_realm_nothing_left.
Qed.

(** X5: whatever the realm name, [unregister_realm] returns [True], takes no
    time, and afterwards the realm has no stored field, is not in the index
    and no key that its request pattern matches is left; every other realm
    keeps its index entry and its definition, and every string key that the
    pattern does not match is kept. *)
Theorem unregister_realm_removes_the_realm_only (w : world) (realm : string) :
  exists w',
    unregister_realm realm w = (Return true, w')
    /\ clock w' = clock w /\ navigations w' = navigations w
    /\ (forall field, stored (redis w') realm field = None)
    /\ has_definition (redis w') realm = false
    /\ ~ registered (redis w') realm
    /\ (forall k, Redis.stringmatch (request_pattern realm) k = true ->
          k ∉ Redis.all_keys (redis w'))
    /\ (forall other, other <> realm ->
          (registered (redis w') other <-> registered (redis w) other)
          /\ forall field,
               stored (redis w') other field = stored (redis w) other field)
    /\ (forall k, Redis.stringmatch (request_pattern realm) k = false ->
          k <> _realm_redis_key realm ->
          Redis.strings (redis w') !! k = Redis.strings (redis w) !! k).
Proof.
  destruct (unregister_realm_effect w realm)
    as (w' & E & Hc & _ & Hn & Hst & Hnot & Hgone & Hother & Hkeep).
  exists w'. repeat (split; [assumption|]).
  split; [|auto].
  destruct (has_definition (redis w') realm) eqn:Hd; [|reflexivity].
  apply has_definition_stored in Hd. rewrite Hst in Hd. now destruct Hd.
Qed.

(** X6: a realm can always be registered afresh after [unregister_realm]:
    the registration that follows stores its two values, whatever was
    stored for the realm before, and puts the realm into the index. *)
Theorem register_after_unregister_takes_effect
  (w : world) (realm : string) (max_requests timespan : value) :
  let w1 := snd (unregister_realm realm w) in
  exists w2,
    register_realm realm max_requests timespan w1 = (Return true, w2)
    /\ stored (redis w2) realm "max_requests" = Some (str max_requests)
    /\ stored (redis w2) realm "timespan" = Some (str timespan)
    /\ registered (redis w2) realm.
Proof.
  cbv zeta.
  destruct (unregister_realm_effect w realm) as (w1 & -> & _ & _ & _ & Hst & _).
  cbn [snd].
  assert (has_definition (redis w1) realm = false) as Hd.
  { destruct (has_definition (redis w1) realm) eqn:Hd; [|reflexivity].
    apply has_definition_stored in Hd. rewrite Hst in Hd. now destruct Hd. }
  destruct (register_realm_effect w1 realm max_requests timespan) as [_ Ha].
  destruct (Ha Hd) as (w2 & E & Hm & Ht & Hi & _).
  exists w2. repeat split; try assumption.
  unfold registered. rewrite Hi. apply elem_of_union_l, elem_of_singleton.
  reflexivity.
Qed.

(** ** unregister_realms, update_realm and fetch_registered_realms *)

Lemma unregister_realms_cons w realm rest :
  unregister_realms (realm :: rest) w
  = unregister_realms rest (snd (unregister_realm realm w)).
Proof.
  unfold unregister_realms. cbn [for_each]. unfold mbind at 1 2 3.
  destruct (unregister_realm_effect w realm) as (w' & -> & _).
  reflexivity.
Qed.

(** X7: [unregister_realms] returns [True] for every list; afterwards no
    listed realm is in the index or has a stored field, and every realm that
    is not listed keeps its index entry and its definition. *)
Theorem unregister_realms_removes_exactly_the_listed
  (w : world) (realms : list string) :
  exists w',
    unregister_realms realms w = (Return true, w')
    /\ (forall realm, In realm realms ->
          ~ registered (redis w') realm
          /\ forall field, stored (redis w') realm field = None)
    /\ (forall other, ~ In other realms ->
          (registered (redis w') other <-> registered (redis w) other)
          /\ forall field,
               stored (redis w') other field = stored (redis w) other field).
Proof.
  revert w. induction realms as [|r rest IH]; intros w.
  - exists w. split; [reflexivity|]. split; [intros ? []|].
    intros other _. split; [tauto | reflexivity].
  - destruct (unregister_realm_effect w r)
      as (w1 & E1 & _ & _ & _ & Hst & Hnot & _ & Hother & _).
    destruct (IH w1) as (w' & E & Hin & Hout).
    exists w'. split.
    { rewrite unregister_realms_cons, E1. exact E. }
    split.
    + intros realm Hr. destruct (in_dec string_dec realm rest) as [Hi|Hn].
      * now apply Hin.
      * destruct Hr as [<-|Hr]; [|contradiction].
        destruct (Hout r Hn) as [Hreg Hs]. split.
        -- intros H. now apply Hnot, Hreg.
        -- intros field. now rewrite Hs.
    + intros other Hn.
      assert (other <> r) as Hne by (intros ->; apply Hn; now left).
      assert (~ In other rest) as Hn' by (intros H; apply Hn; now right).
      destruct (Hout other Hn') as [Hreg Hs].
      destruct (Hother other Hne) as [Hreg1 Hs1]. split.
      * rewrite Hreg. exact Hreg1.
      * intros field. now rewrite Hs, Hs1.
Qed.

(** X8: what [update_realm] writes is what the readers return: after a call
    that supplies an [int] for [max_requests] (for [timespan]),
    [realm_max_requests] ([realm_timespan]) returns that integer, whether or
    not the realm was ever registered. *)
Theorem update_realm_then_read
  (w : world) (realm : string) (kwargs : gmap string value) (z : Z) :
  let w' := snd (update_realm realm kwargs w) in
  (supplied_int kwargs "max_requests" = Some z ->
   realm_max_requests realm w' = (Return z, w'))
  /\ (supplied_int kwargs "timespan" = Some z ->
      realm_timespan realm w' = (Return z, w')).
Proof.
  cbv zeta.
  destruct (update_realm_effect w realm kwargs) as (w' & -> & Hst & _).
  cbn [snd]. unfold realm_max_requests, realm_timespan.
  split; intros Hs; apply realm_field_int; rewrite Hst;
    rewrite bool_decide_eq_true_2 by auto; now rewrite Hs.
Qed.

Lemma update_realm_then_read_witness :
  realm_max_requests "A"
    (snd (update_realm "A" (<["max_requests" := PyInt 7]> ∅) world_A))
  = (Return 7,
     snd (update_realm "A" (<["max_requests" := PyInt 7]> ∅) world_A)).
Proof.
  apply (update_realm_then_read world_A "A"
           (<["max_requests" := PyInt 7]> ∅) 7).
  reflexivity.
Defined.

(** X9: [update_realm] does not ask whether the realm is registered.  On a
    realm that is not in the index, a call that supplies an [int] for
    [max_requests] creates a definition; from then on [register_realm] finds
    the realm defined and does nothing, the realm stays out of the index,
    and every request for it is refused as unregistered. *)
Theorem update_of_unregistered_realm_blocks_registration
  (w : world) (realm : string) (kwargs : gmap string value) (z : Z) :
  supplied_int kwargs "max_requests" = Some z ->
  ~ registered (redis w) realm ->
  let w1 := snd (update_realm realm kwargs w) in
  has_definition (redis w1) realm = true
  /\ ~ registered (redis w1) realm
  /\ (forall max_requests timespan,
        register_realm realm max_requests timespan w1 = (Return true, w1))
  /\ (forall fuel safety_threshold get_func wait,
        _webdriver_get fuel safety_threshold get_func (realm :: nil) wait w1
        = Some (Raise (SeleniumRespectfulError
                         ("Realm '" ++ realm ++ "' hasn't been registered")),
                w1)).
Proof.
  intros Hs Hnot. cbv zeta.
  destruct (update_realm_effect w realm kwargs)
    as (w1 & -> & Hst & _ & Hsets & _).
  cbn [snd].
  assert (has_definition (redis w1) realm = true) as Hd.
  { apply has_definition_stored. rewrite Hst.
    rewrite bool_decide_eq_true_2 by auto. rewrite Hs. eauto. }
  assert (~ registered (redis w1) realm) as Hnot1.
  { unfold registered, Redis.smembers in *. now rewrite Hsets. }
  split; [exact Hd|]. split; [exact Hnot1|]. split.
  - intros m t. now apply register_realm_effect.
  - intros fuel th g wait. unfold _webdriver_get, mbind at 1.
    rewrite fetch_registered_realms_spec. cbn [for_each]. unfold mbind.
    rewrite bool_decide_eq_false_2
      by (intros H; now apply Hnot1, registered_elements).
    reflexivity.
Qed.

Lemma update_of_unregistered_realm_blocks_registration_witness :
  register_realm "A" (PyInt 100) (PyInt 300)
    (snd (update_realm "A" (<["max_requests" := PyInt 5]> ∅) fresh_world))
  = (Return true,
     snd (update_realm "A" (<["max_requests" := PyInt 5]> ∅) fresh_world)).
Proof.
  apply (update_of_unregistered_realm_blocks_registration
           fresh_world "A" (<["max_requests" := PyInt 5]> ∅) 5).
  - reflexivity.
  - unfold registered. apply (bool_decide_unpack _). vm_compute. exact I.
Defined.

(** X10: [fetch_registered_realms] returns the names in the index, each
    once, and leaves the world alone; a realm registered while it had no
    definition is in the list afterwards, and a realm is never in the list
    after [unregister_realm]. *)
Theorem fetch_registered_realms_lists_the_index (w : world) (realm : string) :
  (exists names,
     fetch_registered_realms w = (Return names, w)
     /\ NoDup names
     /\ forall name, name ∈ names <-> registered (redis w) name)
  /\ (forall max_requests timespan names,
        has_definition (redis w) realm = false ->
        fst (fetch_registered_realms
               (snd (register_realm realm max_requests timespan w)))
        = Return names ->
        realm ∈ names)
  /\ (forall names,
        fst (fetch_registered_realms (snd (unregister_realm realm w)))
        = Return names ->
        realm ∉ names).
Proof.
  split; [|split].
  - eexists. split; [apply fetch_registered_realms_spec|].
    split; [apply NoDup_elements|]. intros name. apply registered_elements.
  - intros m t names Hd.
    destruct (register_realm_effect w realm m t) as [_ Ha].
    destruct (Ha Hd) as (w' & -> & _ & _ & Hi & _). cbn [snd].
    rewrite fetch_registered_realms_spec. cbn [fst]. intros [= <-].
    apply registered_elements. unfold registered. rewrite Hi.
    apply elem_of_union_l, elem_of_singleton. reflexivity.
  - intros names.
    destruct (unregister_realm_effect w realm)
      as (w' & -> & _ & _ & _ & _ & Hnot & _). cbn [snd].
    rewrite fetch_registered_realms_spec. cbn [fst]. intros [= <-] H.
    now apply Hnot, registered_elements.
Qed.

(** ** Reading and counting at the edges *)

Lemma info_keys_nonempty (d : Redis.db) :
  Redis.all_keys d <> ∅ ->
  Redis.info_keys d = Some (Z.of_nat (size (Redis.all_keys d))).
Proof.
  intros Hne. unfold Redis.info_keys. case_decide as Hz; [|reflexivity].
  apply size_empty_inv, leibniz_equiv in Hz. contradiction.
Qed.

Lemma info_keys_empty (d : Redis.db) :
  Redis.all_keys d = ∅ -> Redis.info_keys d = None.
Proof.
  intros He. unfold Redis.info_keys. rewrite He, size_empty.
  now rewrite decide_True.
Qed.

(** X11: [register_realm] stores whatever it is given.  When the text of
    the value given for [max_requests] does not read as an integer (as for
    ["FOO"]; a text such as ["1_000"] does read as one), the registration
    succeeds, and afterwards [realm_max_requests], [_can_perform_get] and
    any attempt whose first realm is this one raise the error in which the
    read ends, the [ValueError] of [int], leaving the world as it was. *)
Theorem register_realm_does_not_check_its_values
  (w : world) (realm : string) (max_requests timespan : value) (e : exn)
  (safety_threshold : Z) (get_func : func) (others : list string) :
  has_definition (redis w) realm = false ->
  int (str max_requests) = Raise e ->
  valid_get_func get_func ->
  let w' := snd (register_realm realm max_requests timespan w) in
  fst (register_realm realm max_requests timespan w) = Return true
  /\ realm_max_requests realm w' = (Raise e, w')
  /\ _can_perform_get safety_threshold realm w' = (Raise e, w')
  /\ _perform_webdriver_get safety_threshold get_func (realm :: others) w'
     = (Raise e, w').
Proof.
  intros Hd He Hv. cbv zeta.
  destruct (register_realm_effect w realm max_requests timespan) as [_ Ha].
  destruct (Ha Hd) as (w' & -> & Hm & _). cbn [fst snd].
  assert (realm_max_requests realm w' = (Raise e, w')) as Hread.
  { unfold realm_max_requests. rewrite (realm_field_raw _ _ _ _ Hm).
    now rewrite He. }
  assert (_can_perform_get safety_threshold realm w' = (Raise e, w')) as Hcan.
  { unfold _can_perform_get, _requests_in_timespan, _redis_keys_in_db.
    unfold mbind at 1 2 3, with_redis at 1.
    rewrite (info_keys_with_hash _ _ (stored_some_hash _ _ _ _ Hm)).
    unfold ret at 1, mbind at 1, with_redis, ret at 1. unfold mbind.
    now rewrite Hread. }
  split; [reflexivity|]. split; [exact Hread|]. split; [exact Hcan|].
  unfold _perform_webdriver_get, mbind at 1. rewrite Hv.
  cbn [rate_limited]. unfold mbind. now rewrite Hcan.
Qed.

Lemma register_realm_does_not_check_its_values_witness :
  realm_max_requests "T"
    (snd (register_realm "T" (PyStr "FOO") (PyInt 5) fresh_world))
  = (Raise (ValueError "invalid literal for int() with base 10"),
     snd (register_realm "T" (PyStr "FOO") (PyInt 5) fresh_world)).
Proof.
  apply (register_realm_does_not_check_its_values fresh_world "T"
           (PyStr "FOO") (PyInt 5)
           (ValueError "invalid literal for int() with base 10")
           0 navigate nil).
  - reflexivity.
  - reflexivity.
  - apply proxy_lambda_valid.
Defined.

(** X12: counting the requests of a realm needs a database that [INFO]
    lists: on a server without any key [_requests_in_timespan],
    [_can_perform_get] and an attempt on a non-empty list of realms raise
    [AttributeError]; on any other server [_requests_in_timespan] returns
    the number of keys its pattern matches.  The world is never changed. *)
Theorem requests_in_timespan_needs_a_listed_database
  (w : world) (realm : string) (safety_threshold : Z) (get_func : func)
  (others : list string) :
  (Redis.all_keys (redis w) = ∅ ->
   valid_get_func get_func ->
   _requests_in_timespan realm w
   = (Raise (AttributeError "'NoneType' object has no attribute 'get'"), w)
   /\ _can_perform_get safety_threshold realm w
      = (Raise (AttributeError "'NoneType' object has no attribute 'get'"), w)
   /\ _perform_webdriver_get safety_threshold get_func (realm :: others) w
      = (Raise (AttributeError "'NoneType' object has no attribute 'get'"), w))
  /\ (Redis.all_keys (redis w) <> ∅ ->
      _requests_in_timespan realm w = (Return (active_count (redis w) realm), w)).
Proof.
  split.
  - intros He Hv.
    assert (_requests_in_timespan realm w
            = (Raise (AttributeError "'NoneType' object has no attribute 'get'"), w))
      as Hreq.
    { unfold _requests_in_timespan, _redis_keys_in_db.
      unfold mbind, with_redis. now rewrite (info_keys_empty _ He). }
    assert (_can_perform_get safety_threshold realm w
            = (Raise (AttributeError "'NoneType' object has no attribute 'get'"), w))
      as Hcan.
    { unfold _can_perform_get, mbind. now rewrite Hreq. }
    split; [exact Hreq|]. split; [exact Hcan|].
    unfold _perform_webdriver_get, mbind at 1. rewrite Hv.
    cbn [rate_limited]. unfold mbind. now rewrite Hcan.
  - intros Hne. unfold _requests_in_timespan, _redis_keys_in_db.
    unfold mbind, with_redis. rewrite (info_keys_nonempty _ Hne).
    reflexivity.
Qed.

Lemma requests_in_timespan_needs_a_listed_database_witness :
  _requests_in_timespan "A" fresh_world
  = (Raise (AttributeError "'NoneType' object has no attribute 'get'"),
     fresh_world)
  /\ _requests_in_timespan "A" world_A_busy
     = (Return (active_count (redis world_A_busy) "A"), world_A_busy).
Proof.
  destruct (requests_in_timespan_needs_a_listed_database
              fresh_world "A" 0 navigate nil) as [He _].
  destruct (requests_in_timespan_needs_a_listed_database
              world_A_busy "A" 0 navigate nil) as [_ Hne].
  split.
  - apply He; [reflexivity | apply proxy_lambda_valid].
  - apply Hne. intros H.
    assert (_realm_redis_key "A" ∈ Redis.all_keys (redis world_A_busy)) as Hin
      by (apply (bool_decide_unpack _); vm_compute; exact I).
    rewrite H in Hin. now apply not_elem_of_empty in Hin.
Defined.



(** ** What a request pattern matches *)

(** X14: for a realm name without the special characters of patterns, the
    pattern that counts and deletes the realm's requests matches exactly the
    keys that start with the realm's request prefix.  So it matches every
    request of the realm, and also every request of a realm whose name
    continues this one after a colon: those count against this realm and
    are deleted with it. *)
Theorem request_pattern_matches_the_prefix (realm : string) :
  plain realm = true ->
  (forall k,
     Redis.stringmatch (request_pattern realm) k = true
     <-> exists rest, k = request_prefix realm ++ rest)
  /\ (forall request_uuid,
        Redis.stringmatch (request_pattern realm)
          (request_key realm request_uuid) = true)
  /\ (forall sub request_uuid,
        Redis.stringmatch (request_pattern realm)
          (request_key (realm ++ ":" ++ sub) request_uuid) = true).
Proof.
  intros Hp.
  assert (forall k,
            Redis.stringmatch (request_pattern realm) k = true
            <-> exists rest, k = request_prefix realm ++ rest) as H.
  { intros k. rewrite request_pattern_prefix.
    apply stringmatch_plain_prefix; [now apply plain_request_prefix|].
    unfold request_prefix, redis_prefix. cbv [String.append]. discriminate. }
  split; [exact H|]. split.
  - intros u. apply H. exists u. apply request_key_prefix.
  - intros sub u. apply H. exists (sub ++ ":" ++ u).
    unfold request_key, request_prefix. now rewrite !string_app_assoc.
Qed.

Lemma request_pattern_matches_the_prefix_witness :
  plain "api" = true
  /\ Redis.stringmatch (request_pattern "api") (request_key "api:v2" "u") = true.
Proof.
  split; [reflexivity|].
  destruct (request_pattern_matches_the_prefix "api" eq_refl) as (_ & _ & H).
  exact (H "v2" "u").
Defined.

(** ** The ledger after a granted attempt *)

Lemma length_filter_in {A} (f : A -> bool) (l : list A) (x : A) :
  In x l -> f x = true -> (1 <= length (List.filter f l))%nat.
Proof.
  induction l as [|a l IH]; [intros []|].
  intros [<-|Hin] Hf; cbn [List.filter].
  - rewrite Hf. cbn [length]. lia.
  - destruct (f a); cbn [length]; [lia | now apply IH].
Qed.

Lemma all_keys_issue (d : Redis.db) (es : list (string * (string * Z))) :
  NoDup es.*1 ->
  (forall k, k ∈ es.*1 -> k ∉ Redis.all_keys d) ->
  Redis.all_keys (issue d es) = Redis.all_keys d ∪ list_to_set es.*1.
Proof.
  intros Hnd Hfresh. unfold Redis.all_keys.
  rewrite issue_hashes
    by (intros k Hk; now destruct (not_in_all_keys _ _ (Hfresh k Hk))).
  rewrite issue_sets
    by (intros k Hk; now destruct (not_in_all_keys _ _ (Hfresh k Hk)) as (_ & ? & _)).
  rewrite issue_strings by assumption.
  rewrite dom_union_L, dom_list_to_map_L.
  apply set_eq. intros x. rewrite !elem_of_union. tauto.
Qed.

Lemma active_count_issue (d : Redis.db) (es : list (string * (string * Z)))
  (realm : string) :
  NoDup es.*1 ->
  (forall k, k ∈ es.*1 -> k ∉ Redis.all_keys d) ->
  active_count (issue d es) realm
  = active_count d realm
    + Z.of_nat (length (List.filter
                          (Redis.stringmatch (request_pattern realm)) es.*1)).
Proof.
  intros Hnd Hfresh. unfold active_count, Redis.scan.
  rewrite all_keys_issue by assumption.
  rewrite <- Nat2Z.inj_add. f_equal.
  rewrite <- length_app, <- List.filter_app.
  apply length_filter_perm.
  rewrite elements_disj_union.
  - now rewrite elements_list_to_set.
  - intros k Hk Hk'. apply elem_of_list_to_set in Hk'. now apply (Hfresh k).
Qed.

(** X15: a granted attempt is counted.  Under the conditions of a grant
    (valid function, positive headroom and positive time span for every
    realm, new and distinct keys), the number of live requests that the
    server reports for any realm grows by the number of written keys that
    the realm's pattern matches; for a requested realm with a plain name
    that is at least one, and exactly one when it is the only realm asked. *)
Theorem granted_attempt_is_counted
  (t : Z) (g : func) (realms : list string) (w : world) (ts : string -> Z) :
  valid_get_func g ->
  (forall realm, In realm realms ->
     exists h, headroom (redis w) t realm = Some h /\ 0 < h) ->
  (forall realm, In realm realms ->
     stored_int (redis w) realm "timespan" = Some (ts realm) /\ 0 < ts realm) ->
  NoDup (leases w ts realms).*1 ->
  (forall k, k ∈ (leases w ts realms).*1 -> k ∉ Redis.all_keys (redis w)) ->
  let w' := snd (_perform_webdriver_get t g realms w) in
  (forall realm,
     active_count (redis w') realm
     = active_count (redis w) realm
       + Z.of_nat (length (List.filter
                             (Redis.stringmatch (request_pattern realm))
                             (leases w ts realms).*1)))
  /\ (forall realm, plain realm = true -> In realm realms ->
        active_count (redis w) realm + 1 <= active_count (redis w') realm)
  /\ (forall realm, plain realm = true -> realms = realm :: nil ->
        active_count (redis w') realm = active_count (redis w) realm + 1).
Proof.
  intros Hv Hroom Hts Hnd Hfresh. cbv zeta.
  rewrite (perform_granted t g realms w ts) by assumption.
  cbn [snd redis].
  assert (forall realm,
            active_count (issue (redis w) (leases w ts realms)) realm
            = active_count (redis w) realm
              + Z.of_nat (length (List.filter
                                    (Redis.stringmatch (request_pattern realm))
                                    (leases w ts realms).*1))) as Hcount
    by (intros realm; now apply active_count_issue).
  split; [exact Hcount|]. split.
  - intros realm Hp Hin. rewrite Hcount.
    apply list_elem_of_In, list_elem_of_lookup in Hin as [i Hi].
    assert (In (request_key realm (uuid4 w (drawn w + i)%nat))
               (leases w ts realms).*1) as Hk.
    { apply list_elem_of_In, list_elem_of_fmap.
      exists (lease w ts i realm). split; [reflexivity|].
      apply list_elem_of_lookup. exists i. unfold leases.
      now rewrite list_lookup_imap, Hi. }
    pose proof (length_filter_in _ _ _ Hk
                  (request_pattern_matches_own_keys realm _ Hp)).
    lia.
  - intros realm Hp ->. rewrite Hcount.
    cbn [leases imap fmap list_fmap lease fst List.filter].
    rewrite (request_pattern_matches_own_keys realm _ Hp). reflexivity.
Qed.

Lemma granted_attempt_is_counted_witness :
  active_count (redis (snd (_perform_webdriver_get 0 navigate ("C" :: nil)
                              world_CD))) "C"
  = active_count (redis world_CD) "C" + 1.
Proof.
  destruct (granted_attempt_is_counted 0 navigate ("C" :: nil) world_CD
              (fun _ => 7)) as (_ & _ & H).
  - apply proxy_lambda_valid.
  - intros realm [<-|[]]; vm_compute; eexists; (split; reflexivity).
  - intros realm [<-|[]]; vm_compute; (split; reflexivity).
  - apply (bool_decide_unpack _). vm_compute. exact I.
  - intros k Hk. apply list_elem_of_In in Hk. vm_compute in Hk.
    destruct Hk as [<-|[]]; apply (bool_decide_unpack _); vm_compute; exact I.
  - apply (H "C"); reflexivity.
Defined.

(** ** A time span that the server refuses *)

Lemma for_each_app {A} (l1 l2 : list A) (body : A -> M unit) (w : world) :
  for_each (l1 ++ l2) body w
  = match for_each l1 body w with
    | (Return _, w1) => for_each l2 body w1
    | (Raise e, w1) => (Raise e, w1)
    end.
Proof.
  revert w. induction l1 as [|a l1 IH]; intros w; [reflexivity|].
  cbn [app for_each]. unfold mbind.
  destruct (body a w) as [[[]|e] w1]; [apply IH | reflexivity].
Qed.

Lemma stored_issue (d : Redis.db) (es : list (string * (string * Z)))
  (realm field : string) :
  (forall k, k ∈ es.*1 -> forall r, k <> _realm_redis_key r) ->
  stored (issue d es) realm field = stored d realm field.
Proof.
  revert d. induction es as [|[k v] es IH]; intros d Hk; [reflexivity|].
  rewrite issue_cons. cbn [fst snd]. rewrite IH.
  - apply stored_after_request. apply Hk. left.
  - intros k' Hk'. apply Hk. now right.
Qed.

Lemma leases_keys_are_request_keys w ts realms k :
  k ∈ (leases w ts realms).*1 -> forall r, k <> _realm_redis_key r.
Proof.
  intros Hk r. apply list_elem_of_fmap in Hk as ([k' v] & -> & Hin).
  apply list_elem_of_lookup in Hin as [i Hi]. unfold leases in Hi.
  rewrite list_lookup_imap in Hi.
  destruct (realms !! i) as [realm|]; [|discriminate].
  injection Hi as <- _. apply request_key_not_realm_key.
Qed.

(** X16: an attempt is not undone when the server refuses a time span.  If
    every requested realm has headroom, the realms before some realm have
    positive time spans and that realm's stored time span is zero or
    negative, the attempt raises the server's error when it reaches that
    realm: the requests of the realms before it are written and stay, one
    identifier more is used up, and the function is not called. *)
Theorem non_positive_timespan_fails_midway
  (t : Z) (g : func) (before : list string) (realm : string)
  (after : list string) (w : world) (ts : string -> Z) (z : Z) :
  valid_get_func g ->
  (forall r, In r (before ++ realm :: after) ->
     exists h, headroom (redis w) t r = Some h /\ 0 < h) ->
  (forall r, In r before ->
     stored_int (redis w) r "timespan" = Some (ts r) /\ 0 < ts r) ->
  stored_int (redis w) realm "timespan" = Some z ->
  z <= 0 ->
  exists w',
    _perform_webdriver_get t g (before ++ realm :: after) w
    = (Raise (ResponseError "invalid expire time in setex"), w')
    /\ redis w' = issue (redis w) (leases w ts before)
    /\ drawn w' = S (drawn w + length before)
    /\ navigations w' = navigations w
    /\ (NoDup (leases w ts before).*1 ->
        Redis.strings (redis w')
        = list_to_map (leases w ts before) ∪ Redis.strings (redis w)).
Proof.
  intros Hv Hroom Hts Hz Hle.
  eexists. split.
  - unfold _perform_webdriver_get, mbind at 1. rewrite Hv.
    unfold mbind at 1. rewrite rate_limited_saturated.
    + assert (saturated (redis w) t (before ++ realm :: after) = nil) as ->.
      { apply saturated_nil, List.Forall_forall. intros r Hr.
        destruct (Hroom r Hr) as (h & Hh & Hpos).
        unfold has_room. rewrite Hh. now apply Z.ltb_lt. }
      cbn [length Nat.eqb]. unfold mbind at 1.
      rewrite for_each_app. rewrite (issue_loop ts) by assumption.
      cbn [for_each]. unfold mbind at 1 2 3. unfold new_uuid at 1.
      cbn [redis clock uuid4 drawn navigations slept].
      unfold realm_timespan at 1.
      rewrite (stored_int_field _ realm "timespan" z).
      * unfold Redis.setex. rewrite decide_True by assumption. reflexivity.
      * cbn [redis]. unfold stored_int.
        rewrite stored_issue by apply leases_keys_are_request_keys.
        exact Hz.
    + apply List.Forall_forall. intros r Hr.
      destruct (Hroom r Hr) as (h & Hh & _). eauto.
  - cbn [redis drawn navigations]. repeat split.
    intros Hnd. now apply issue_strings.
Qed.

Lemma non_positive_timespan_fails_midway_witness :
  let w := snd (register_realm "Z" (PyInt 5) (PyInt 0) world_CD) in
  exists w',
    _perform_webdriver_get 0 navigate ("C" :: "Z" :: "D" :: nil) w
    = (Raise (ResponseError "invalid expire time in setex"), w')
    /\ navigations w' = navigations w.
Proof.
  cbv zeta.
  destruct (non_positive_timespan_fails_midway 0 navigate ("C" :: nil) "Z"
              ("D" :: nil)
              (snd (register_realm "Z" (PyInt 5) (PyInt 0) world_CD))
              (fun _ => 7) 0) as (w' & E & _ & _ & Hn & _).
  - apply proxy_lambda_valid.
  - intros r [<-|[<-|[<-|[]]]]; vm_compute; eexists; (split; reflexivity).
  - intros r [<-|[]]; vm_compute; (split; reflexivity).
  - reflexivity.
  - lia.
  - exists w'. split; [exact E | exact Hn].
Defined.

(** ** _validate_get_func *)

Lemma split_not_nil (sep : ascii) (s : string) : split sep s <> nil.
Proof.
  destruct s as [|c r]; cbn [split]; [discriminate|].
  destruct (Ascii.eqb c sep); [discriminate|].
  destruct (split sep r); discriminate.
Qed.

Lemma split_cons_other (sep c : ascii) (r : string) :
  Ascii.eqb c sep = false ->
  split sep (String c r)
  = String c (hd "" (split sep r)) :: tl (split sep r).
Proof.
  intros H. cbn [split]. rewrite H.
  destruct (split sep r) eqn:E; [|reflexivity].
  now destruct (split_not_nil sep r).
Qed.

Lemma split_colon_free (s : string) :
  colon_free s = true -> split ":" s = s :: nil.
Proof.
  induction s as [|c s IH]; [reflexivity|]. cbn [colon_free].
  intros H. apply andb_true_iff in H as [Hc Hs].
  apply negb_true_iff in Hc.
  rewrite split_cons_other by assumption. now rewrite IH.
Qed.

Lemma split_colon_free_app (head body : string) :
  colon_free head = true ->
  split ":" (head ++ String ":" body) = head :: split ":" body.
Proof.
  induction head as [|c head IH]; [reflexivity|]. cbn [colon_free].
  intros H. apply andb_true_iff in H as [Hc Hs].
  apply negb_true_iff in Hc.
  change (split ":" (String c (head ++ String ":" body))
          = String c head :: split ":" body).
  rewrite split_cons_other by assumption. now rewrite IH.
Qed.

Lemma is_space_not_colon (c : ascii) :
  is_space c = true -> Ascii.eqb c ":" = false.
Proof.
  destruct (Ascii.eqb_spec c ":") as [->|]; [discriminate | reflexivity].
Qed.

Lemma strip_piece_blank (gap x : string) :
  blank gap = true ->
  lstrip (hd "" (split ":" (gap ++ x))) = lstrip (hd "" (split ":" x)).
Proof.
  induction gap as [|c gap IH]; [reflexivity|]. cbn [blank].
  intros H. apply andb_true_iff in H as [Hc Hg].
  change (lstrip (hd "" (split ":" (String c (gap ++ x))))
          = lstrip (hd "" (split ":" x))).
  rewrite split_cons_other by now apply is_space_not_colon.
  cbn [hd lstrip]. rewrite Hc. now apply IH.
Qed.

Lemma rstrip_solid (p y : string) :
  solid p = true -> rstrip (p ++ y) = p ++ rstrip y.
Proof.
  induction p as [|c p IH]; [reflexivity|]. cbn [solid].
  intros H. apply andb_true_iff in H as [H Hp].
  apply andb_true_iff in H as [Hc _]. apply negb_true_iff in Hc.
  change (rstrip (String c (p ++ y)) = String c (p ++ rstrip y)).
  cbn [rstrip]. rewrite IH by assumption. rewrite Hc.
  now destruct (p ++ rstrip y).
Qed.

Lemma hd_split_solid (p rest : string) :
  solid p = true ->
  hd "" (split ":" (p ++ rest)) = p ++ hd "" (split ":" rest).
Proof.
  induction p as [|c p IH]; [reflexivity|]. cbn [solid].
  intros H. apply andb_true_iff in H as [H Hp].
  apply andb_true_iff in H as [_ Hc]. apply negb_true_iff in Hc.
  change (hd "" (split ":" (String c (p ++ rest)))
          = String c (p ++ hd "" (split ":" rest))).
  rewrite split_cons_other by assumption. cbn [hd]. now rewrite IH.
Qed.

Lemma startswith_app (p y : string) : startswith p (p ++ y) = true.
Proof.
  induction p as [|c p IH]; [reflexivity|].
  change (startswith (String c p) (String c (p ++ y)) = true).
  cbn [startswith]. now rewrite Ascii.eqb_refl, IH.
Qed.

(** X17: [_validate_get_func] looks at the text of the function only, and
    only at its beginning.  What is not a function is refused with the
    wrapper's error; a function whose source text has no colon makes the
    check itself fail with [IndexError]; and a function is accepted as soon
    as the text after the first colon, once leading whitespace is dropped,
    starts with [self.webdriver.get], whatever follows. *)
Theorem validate_get_func_reads_the_beginning_of_the_text
  (get_func : func) (w : world) :
  (is_function get_func = false ->
   _validate_get_func get_func w
   = (Raise (SeleniumRespectfulError "'get_func' is expected to be a lambda"),
      w))
  /\ (is_function get_func = true ->
      colon_free (getsource get_func) = true ->
      _validate_get_func get_func w
      = (Raise (IndexError "list index out of range"), w))
  /\ (is_function get_func = true ->
      forall head gap rest,
        colon_free head = true -> blank gap = true ->
        getsource get_func
        = head ++ ":" ++ gap ++ "self.webdriver.get" ++ rest ->
        _validate_get_func get_func w = (Return tt, w)).
Proof.
  unfold _validate_get_func. split; [|split].
  - now intros ->.
  - intros -> Hc. cbn [negb]. now rewrite split_colon_free.
  - intros -> head gap rest Hh Hg ->. cbn [negb].
    change (head ++ ":" ++ gap ++ "self.webdriver.get" ++ rest)
      with (head ++ String ":" (gap ++ "self.webdriver.get" ++ rest)).
    rewrite split_colon_free_app by assumption. cbn [nth_error].
    destruct (split ":" (gap ++ "self.webdriver.get" ++ rest)) as [|piece ps] eqn:E;
      [now destruct (split_not_nil ":" (gap ++ "self.webdriver.get" ++ rest))|].
    assert (strip piece
            = "self.webdriver.get" ++ rstrip (hd "" (split ":" rest))) as ->.
    { unfold strip.
      replace piece
        with (hd "" (split ":" (gap ++ "self.webdriver.get" ++ rest)))
        by now rewrite E.
      rewrite strip_piece_blank by assumption.
      rewrite hd_split_solid by reflexivity.
      change (lstrip ("self.webdriver.get" ++ hd "" (split ":" rest)))
        with ("self.webdriver.get" ++ hd "" (split ":" rest)).
      now rewrite rstrip_solid by reflexivity. }
    now rewrite startswith_app.
Qed.

Lemma validate_get_func_reads_the_beginning_of_the_text_witness :
  _validate_get_func
    (mkFunc true "f = lambda: self.webdriver.get_cookies() or launch()"
            (Return PyNone)) fresh_world
  = (Return tt, fresh_world).
Proof.
  destruct (validate_get_func_reads_the_beginning_of_the_text
              (mkFunc true "f = lambda: self.webdriver.get_cookies() or launch()"
                      (Return PyNone)) fresh_world) as (_ & _ & H).
  apply (H eq_refl "f = lambda" " " "_cookies() or launch()"); reflexivity.
Defined.

(** ** _load_config and __init__, case by case *)

Lemma missing_keys_lacking (section : list (string * node))
  (expected : list string) :
  missing_keys (YMap section) expected
  = Return (List.filter
              (fun key => negb (bool_decide (is_Some (assoc key section))))
              expected).
Proof.
  induction expected as [|k expected IH]; [reflexivity|].
  cbn [missing_keys List.filter contains bind]. rewrite IH. cbn [bind].
  now destruct (negb (bool_decide (is_Some (assoc k section)))).
Qed.

Lemma load_config_after_threshold (entries : list (string * node))
  (section : list (string * node)) :
  assoc "redis" entries = Some (YMap section) ->
  (do has_redis <- contains "redis" (YMap entries);
   if negb has_redis then
     Raise (SeleniumRespectfulError
       "'redis' key is missing from 'selenium-respectful.config.yml'")
   else
     do section <- getitem (YMap entries) "redis";
     do missing_redis_keys <-
       missing_keys section ("host" :: "port" :: "database" :: nil);
     if negb (length missing_redis_keys =? 0)%nat then
       Raise (SeleniumRespectfulError
         ("'" ++ join ", " missing_redis_keys ++ "' "
          ++ (if (length missing_redis_keys =? 1)%nat then "is" else "are")
          ++ " missing from the 'redis' configuration key in 'selenium-respectful.config.yml'"))
     else Return YNull)
  = match lacking section with
    | nil => Return YNull
    | missing =>
        Raise (SeleniumRespectfulError
          ("'" ++ join ", " missing ++ "' "
           ++ (if (length missing =? 1)%nat then "is" else "are")
           ++ " missing from the 'redis' configuration key in 'selenium-respectful.config.yml'"))
    end.
Proof.
  intros Hr. unfold contains at 1, getitem, bind at 1 2. rewrite Hr.
  rewrite bool_decide_eq_true_2 by eauto. cbn [negb].
  rewrite missing_keys_lacking. cbn [bind]. fold (lacking section).
  now destruct (lacking section).
Qed.

(** X18: for a configuration whose [safety_threshold] passes and whose
    [redis] entry is a mapping, [_load_config] raises the wrapper's error
    exactly when a connection field is missing, and the message lists the
    missing fields in the order host, port, database, with "is" for one and
    "are" for several; when none is missing it returns [None].  A boolean
    threshold passes, being an instance of [int]. *)
Theorem load_config_names_the_missing_fields
  (entries section : list (string * node)) :
  threshold_accepted entries = true ->
  assoc "redis" entries = Some (YMap section) ->
  _load_config (Some (YMap entries))
  = match lacking section with
    | nil => Return YNull
    | missing =>
        Raise (SeleniumRespectfulError
          ("'" ++ join ", " missing ++ "' "
           ++ (if (length missing =? 1)%nat then "is" else "are")
           ++ " missing from the 'redis' configuration key in 'selenium-respectful.config.yml'"))
    end.
Proof.
  unfold threshold_accepted. intros Ht Hr. unfold _load_config.
  destruct (assoc "safety_threshold" entries) as [t|] eqn:E.
  - apply andb_true_iff in Ht as [Hi Hn]. apply negb_true_iff in Hn.
    unfold contains at 1. rewrite E.
    rewrite bool_decide_eq_true_2 by eauto. cbn [negb bind].
    unfold getitem at 1. rewrite E. cbn [bind]. rewrite Hi, Hn.
    cbn [negb orb bind]. now apply load_config_after_threshold.
  - unfold contains at 1. rewrite E.
    rewrite bool_decide_eq_false_2 by (intros [? [=]]).
    cbn [negb bind getitem default_config assoc String.eqb Ascii.eqb
         Bool.eqb setitem].
    apply load_config_after_threshold.
    now rewrite assoc_set_other by discriminate.
Qed.

Lemma load_config_names_the_missing_fields_witness :
  _load_config
    (Some (YMap (("safety_threshold", YBool true)
                 :: ("redis", YMap (("port", YInt 6379) :: nil)) :: nil)))
  = Raise (SeleniumRespectfulError
      "'host, database' are missing from the 'redis' configuration key in 'selenium-respectful.config.yml'").
Proof.
  apply (load_config_names_the_missing_fields
           (("safety_threshold", YBool true)
            :: ("redis", YMap (("port", YInt 6379) :: nil)) :: nil)
           (("port", YInt 6379) :: nil)); reflexivity.
Defined.

(** X19: a configuration file that does not hold a mapping (an empty file,
    a scalar, a list, a plain string) makes [_load_config], and with it the
    constructor, fail with [TypeError], not with the wrapper's error. *)
Theorem load_config_of_a_non_mapping_is_a_type_error
  (config : node) (env : surroundings) :
  is_mapping config = false ->
  (exists msg, _load_config (Some config) = Raise (TypeError msg))
  /\ (config_file env = Some config ->
      exists msg, __init__ env = Raise (TypeError msg)).
Proof.
  intros Hm.
  assert (exists msg, _load_config (Some config) = Raise (TypeError msg)) as H.
  { unfold _load_config.
    destruct config as [| b | z | r | s | items | entries];
      try discriminate Hm; cbn [contains bind]; eauto.
    - destruct (substring_of "safety_threshold" s); cbn; eauto.
    - destruct (existsb (is_str "safety_threshold") items); cbn; eauto. }
  split; [exact H|]. intros He. destruct H as [msg H].
  exists msg. unfold __init__. now rewrite He, H.
Qed.

Lemma load_config_of_a_non_mapping_is_a_type_error_witness :
  exists msg, _load_config (Some YNull) = Raise (TypeError msg).
Proof.
  destruct (load_config_of_a_non_mapping_is_a_type_error YNull
              (mkSurroundings (Some YNull) true true) eq_refl) as [H _].
  exact H.
Defined.

(** X20: the constructor returns an instance exactly when there is no
    configuration file, the webdriver derives from the remote webdriver and
    the server answers; the instance then holds the default configuration
    and connects to localhost, port 6379, database 0.  Without a file, a
    webdriver of another kind is refused before the server is tried, and a
    silent server is reported with the wrapper's error. *)
Theorem init_succeeds_on_the_defaults_only (env : surroundings) :
  (forall i,
     __init__ env = Return i
     <-> config_file env = None
         /\ webdriver_is_remote env = true
         /\ server_answers env = true
         /\ i = mkInstance default_config (YStr "localhost") (YInt 6379)
                           (YInt 0))
  /\ (config_file env = None -> webdriver_is_remote env = false ->
      __init__ env
      = Raise (SeleniumRespectfulError
          "The provided webdriver does not inherit from RemoteWebDriver"))
  /\ (config_file env = None -> webdriver_is_remote env = true ->
      server_answers env = false ->
      __init__ env
      = Raise (SeleniumRespectfulError
          "Could not establish a connection to the provided Redis server")).
Proof.
  split; [|split].
  - intros i. split.
    + intros H. destruct (config_file env) as [config|] eqn:Ec.
      * destruct (init_with_config_file_fails env config Ec) as [e He].
        congruence.
      * unfold __init__ in H. rewrite Ec in H. cbn [_load_config bind] in H.
        destruct (webdriver_is_remote env); [|discriminate H].
        cbn in H. destruct (server_answers env); [|discriminate H].
        injection H as <-. auto.
    + intros (Ec & Hw & Hs & ->). unfold __init__.
      now rewrite Ec, Hw, Hs.
  - intros Ec Hw. unfold __init__. now rewrite Ec, Hw.
  - intros Ec Hw Hs. unfold __init__. now rewrite Ec, Hw, Hs.
Qed.

Lemma init_succeeds_on_the_defaults_only_witness :
  __init__ (mkSurroundings None true true)
  = Return (mkInstance default_config (YStr "localhost") (YInt 6379) (YInt 0)).
Proof.
  destruct (init_succeeds_on_the_defaults_only (mkSurroundings None true true))
    as (H & _).
  apply H. repeat split.
Defined.

(** ** One attempt, one call at most *)

Lemma issue_step_keeps_navigations (realm : string) (w : world) :
  navigations
    (snd ((let* request_uuid := new_uuid in
           let* time := realm_timespan realm in
           fun w =>
             match Redis.setex (redis w) (clock w)
                     (request_key realm request_uuid) time request_uuid with
             | Return d => update_redis (fun _ => d) w
             | Raise e => (Raise e, w)
             end) w))
  = navigations w.
Proof.
  unfold mbind, new_uuid. cbn [redis clock uuid4 drawn navigations slept].
  unfold realm_timespan.
  match goal with
  | |- context [realm_field "timespan" realm ?x] =>
      pose proof (read_only_realm_field "timespan" realm x) as Hr;
      destruct (realm_field "timespan" realm x) as [[z|e'] w5];
      cbn [snd] in Hr; subst w5; [|reflexivity]
  end.
  destruct (Redis.setex _ _ _ _ _); reflexivity.
Qed.

Lemma perform_calls_at_most_once (t : Z) (g : func) (realms : list string)
  (w : world) :
  let o := _perform_webdriver_get t g realms w in
  (navigations (snd o) = navigations w /\ exists e, fst o = Raise e)
  \/ (navigations (snd o) = S (navigations w) /\ fst o = call g).
Proof.
  cbv zeta.
  destruct (_perform_webdriver_get t g realms w) as [r w'] eqn:E.
  cbn [fst snd]. revert E. unfold _perform_webdriver_get, mbind.
  pose proof (read_only_validate_get_func g w) as H1.
  destruct (_validate_get_func g w) as [[[]|e] w1]; cbn [snd] in H1; subst w1;
    [|intros [= <- <-]; left; eauto].
  pose proof (read_only_rate_limited t realms w) as H2.
  destruct (rate_limited t realms w) as [[limited|e] w2]; cbn [snd] in H2;
    subst w2; [|intros [= <- <-]; left; eauto].
  destruct (length limited =? 0)%nat;
    [|unfold raise; intros [= <- <-]; left; eauto].
  match goal with
  | |- context [for_each realms ?b w] =>
      pose proof (frame_for_each
                    (fun w w' => navigations w' = navigations w)
                    (fun _ => eq_refl)
                    (fun w1 w2 w3 H12 H23 => eq_trans H23 H12)
                    realms b issue_step_keeps_navigations w) as Hloop;
      destruct (for_each realms b w) as [[[]|e] w3]
  end; cbn [snd] in Hloop.
  - unfold invoke. intros [= <- <-]. right. cbn [navigations].
    split; [f_equal; exact Hloop | reflexivity].
  - intros [= <- <-]. left. eauto.
Qed.

(** X21: in fail-fast mode [_webdriver_get] always ends after one attempt,
    whatever the fuel; it takes no time (it never sleeps), calls the
    function at most once, and when it has called it the outcome is the
    function's outcome; it returns a value only by calling the function. *)
Theorem fail_fast_makes_one_attempt
  (fuel : nat) (t : Z) (g : func) (realms : list string) (w : world) :
  exists r w',
    _webdriver_get fuel t g realms false w = Some (r, w')
    /\ slept w' = slept w /\ clock w' = clock w
    /\ (navigations w' = navigations w
        \/ (navigations w' = S (navigations w) /\ r = call g))
    /\ (forall v, r = Return v ->
          navigations w' = S (navigations w) /\ call g = Return v).
Proof.
  pose proof (validation_loop
                (elements (Redis.smembers (redis w) realms_key)) realms w) as H.
  cbv zeta in H.
  destruct H as [[Hall _] | (known & unknown & rest & -> & _ & _ & E)].
  - assert (Forall (registered (redis w)) realms) as Hreg.
    { eapply Forall_impl; [exact Hall|].
      intros x Hx. now apply registered_elements. }
    rewrite webdriver_get_registered by assumption.
    destruct (instant_perform_webdriver_get t g realms w) as (Hc & Hs & _).
    pose proof (perform_calls_at_most_once t g realms w) as Hn.
    cbv zeta in Hn.
    destruct (_perform_webdriver_get t g realms w) as [r w'].
    cbn [fst snd] in *.
    exists r, w'. split; [reflexivity|].
    split; [exact Hs|]. split; [exact Hc|]. split; [tauto|].
    intros v ->. destruct Hn as [[_ [e [=]]] | [Hn Hv]]. auto.
  - eexists _, w. split.
    + unfold _webdriver_get, mbind at 1.
      rewrite fetch_registered_realms_spec. rewrite E. reflexivity.
    + split; [reflexivity|]. split; [reflexivity|]. split; [now left|].
      intros v [=].
Qed.

(** ** The registry keeps both fields *)

Lemma index_defined_step w w' :
  step w w' -> index_defined (redis w) -> index_defined (redis w').
Proof.
  intros Hstep Hdef realm.
  destruct Hstep as [r m t w | r kwargs w | r w | t g realms w | s w].
  - destruct (register_realm_effect w r m t) as [Hp Ha].
    destruct (has_definition (redis w) r) eqn:Hd.
    + rewrite (Hp eq_refl). cbn [snd]. apply Hdef.
    + pose proof (register_realm_other w r m t realm) as Hoth.
      destruct (Ha eq_refl) as (w' & E & Hm & Ht & Hi & _).
      rewrite E in Hoth |- *. cbn [snd] in Hoth |- *.
      destruct (decide (realm = r)) as [->|Hne].
      * intros _. rewrite Hm, Ht. eauto.
      * destruct (Hoth Hne) as (Hst & _ & Hr).
        intros H. rewrite !Hst. now apply Hdef, Hr.
  - destruct (update_realm_effect w r kwargs)
      as (w' & -> & Hst & Hh & Hs & _). cbn [snd].
    unfold registered, Redis.smembers. rewrite Hs. intros Hreg.
    destruct (Hdef realm Hreg) as [Hm Ht].
    destruct (decide (realm = r)) as [->|Hne].
    + rewrite !Hst. rewrite !bool_decide_eq_true_2 by auto.
      destruct (supplied_int kwargs "max_requests"),
        (supplied_int kwargs "timespan"); eauto.
    + assert (forall field, stored (redis w') realm field
                            = stored (redis w) realm field) as Hsame.
      { intros field. unfold stored, Redis.hgetall. rewrite Hh; [reflexivity|].
        intros E. apply realm_key_inj in E. congruence. }
      now rewrite !Hsame.
  - destruct (unregister_realm_effect w r)
      as (w' & -> & _ & _ & _ & _ & Hnot & _ & Hother & _). cbn [snd].
    destruct (decide (realm = r)) as [->|Hne]; [intros H; now destruct Hnot|].
    destruct (Hother realm Hne) as [Hreg Hst]. intros H. apply Hreg in H.
    rewrite !Hst. now apply Hdef.
  - destruct (same_registry_facts _ _ realm (perform_same_registry t g realms w))
      as (Hreg & _ & Hst).
    rewrite !Hst. intros H. now apply Hdef, Hreg.
  - cbn. apply Hdef.
Qed.

(** X22: every realm in the index has both fields of its definition, in
    every world reached from an empty server by registering, updating,
    unregistering, attempting and sleeping in any order.  So for a realm in
    the index the readers never fail with [KeyError]: each returns what
    [int] makes of the stored text. *)
Theorem indexed_realms_keep_both_fields (w w' : world) (realm : string) :
  index_defined Redis.empty
  /\ (index_defined (redis w) -> rtc step w w' -> index_defined (redis w'))
  /\ (index_defined (redis w) -> registered (redis w) realm ->
      exists raw_max raw_span,
        realm_max_requests realm w = (int raw_max, w)
        /\ realm_timespan realm w = (int raw_span, w)).
Proof.
  split; [|split].
  - intros r H. unfold registered, Redis.smembers, Redis.empty in H.
    cbn in H. rewrite lookup_empty in H. now apply not_elem_of_empty in H.
  - intros Hd Hsteps. induction Hsteps as [|w1 w2 w3 Hs _ IH]; [exact Hd|].
    apply IH. eapply index_defined_step; eassumption.
  - intros Hd Hr. destruct (Hd realm Hr) as [[m Hm] [t Ht]].
    exists m, t. unfold realm_max_requests, realm_timespan.
    now rewrite (realm_field_raw _ _ _ _ Hm), (realm_field_raw _ _ _ _ Ht).
Qed.

Lemma indexed_realms_keep_both_fields_witness :
  index_defined (redis world_A_busy).
Proof.
  destruct (indexed_realms_keep_both_fields fresh_world world_A_busy "A")
    as (He & Hinv & _).
  apply Hinv; [exact He|].
  eapply rtc_l; [apply (step_register "A" (PyInt 1) (PyInt 2))|].
  eapply rtc_l; [apply (step_attempt 0 navigate ("A" :: nil))|].
  apply rtc_refl.
Defined.

(** ** How the wait loop ends, and when it does not *)

Lemma stored_sleep (w : world) (s : Z) (realm field : string) :
  stored (redis (snd (sleep s w))) realm field = stored (redis w) realm field.
Proof. reflexivity. Qed.

Lemma stored_int_sleep (w : world) (s : Z) (realm field : string) :
  stored_int (redis (snd (sleep s w))) realm field
  = stored_int (redis w) realm field.
Proof. reflexivity. Qed.


Lemma active_count_nonneg (d : Redis.db) (realm : string) :
  0 <= active_count d realm.
Proof. unfold active_count. lia. Qed.


Lemma headroom_of_max (d : Redis.db) (t : Z) (realm : string) (m : Z) :
  stored_int d realm "max_requests" = Some m ->
  headroom d t realm = Some (m - t - active_count d realm).
Proof. unfold headroom. now intros ->. Qed.




(** X24: the wait loop does not end when a requested realm has no capacity
    at all.  If every requested realm is registered with a readable
    [max_requests] and one of them has a [max_requests] that does not exceed
    the safety threshold, then the fail-fast call is denied and the waiting
    call is still in its loop after any number of rounds. *)
Theorem wait_mode_never_ends_without_capacity
  (t : Z) (g : func) (realms : list string) (w : world)
  (realm : string) (m : Z) :
  valid_get_func g ->
  Forall (registered (redis w)) realms ->
  (forall r, In r realms -> is_Some (stored_int (redis w) r "max_requests")) ->
  In realm realms ->
  stored_int (redis w) realm "max_requests" = Some m ->
  m <= t ->
  (forall fuel, _webdriver_get fuel t g realms true w = None)
  /\ exists msg,
       _webdriver_get 0 t g realms false w
       = Some (Raise (SeleniumRespectfulRateLimitedError msg), w).
Proof.
  intros Hv Hreg Hread Hin Hm Hle.
  assert (forall w0,
            (forall r field, stored_int (redis w0) r field
                             = stored_int (redis w) r field) ->
            exists msg,
              _perform_webdriver_get t g realms w0
              = (Raise (SeleniumRespectfulRateLimitedError msg), w0)) as Hden.
  { intros w0 Hsame. eexists. apply perform_denied; [assumption| |].
    - apply List.Forall_forall. intros r Hr.
      destruct (Hread r Hr) as [mr Hmr]. rewrite <- Hsame in Hmr.
      rewrite (headroom_of_max _ _ _ _ Hmr). eauto.
    - intros Es.
      assert (In realm (saturated (redis w0) t realms)) as Hs.
      { apply saturated_spec. split; [exact Hin|]. unfold has_room.
        rewrite <- Hsame in Hm. rewrite (headroom_of_max _ _ _ _ Hm).
        apply Z.ltb_ge. pose proof (active_count_nonneg (redis w0) realm). lia. }
      rewrite Es in Hs. exact Hs. }
  split.
  - intros fuel. rewrite webdriver_get_registered by assumption.
    assert (forall w0,
              (forall r field, stored_int (redis w0) r field
                               = stored_int (redis w) r field) ->
              wait_loop fuel t g realms w0 = None) as Hloop.
    { induction fuel as [|fuel IH]; intros w0 Hsame; [reflexivity|].
      destruct (Hden w0 Hsame) as [msg E].
      rewrite (wait_loop_denied _ _ _ _ _ _ _ E). apply IH.
      intros r field. rewrite stored_int_sleep. apply Hsame. }
    apply Hloop. reflexivity.
  - destruct (Hden w (fun _ _ => eq_refl)) as [msg E]. exists msg.
    rewrite webdriver_get_registered by assumption. now rewrite E.
Qed.



Lemma wait_mode_never_ends_without_capacity_witness :
  _webdriver_get 1000 0 navigate ("A" :: "B" :: nil) true world_AB = None.
Proof.
  destruct (wait_mode_never_ends_without_capacity 0 navigate
              ("A" :: "B" :: nil) world_AB "A" 0) as [H _].
  - apply proxy_lambda_valid.
  - constructor; [|constructor; [|constructor]]; unfold registered;
      apply (bool_decide_unpack _); vm_compute; exact I.
  - intros r [<-|[<-|[]]]; vm_compute; eauto.
  - left. reflexivity.
  - vm_compute. reflexivity.
  - lia.
  - apply H.
Defined.

(** ** Capacity across calls *)

Lemma active_count_zero_if_unmatched (d : Redis.db) (realm : string) :
  (forall k, k ∈ Redis.all_keys d ->
     Redis.stringmatch (request_pattern realm) k = false) ->
  active_count d realm = 0.
Proof.
  intros H. unfold active_count, Redis.scan.
  rewrite filter_nil_if; [reflexivity|].
  intros k Hk. apply H, elem_of_elements, list_elem_of_In, Hk.
Qed.

Lemma active_count_same_matches (d d' : Redis.db) (realm : string) :
  (forall k, Redis.stringmatch (request_pattern realm) k = true ->
     (k ∈ Redis.all_keys d' <-> k ∈ Redis.all_keys d)) ->
  active_count d' realm = active_count d realm.
Proof.
  intros H. unfold active_count, Redis.scan. f_equal.
  assert (forall (X Y : gset string),
            (forall k, Redis.stringmatch (request_pattern realm) k = true ->
               (k ∈ X <-> k ∈ Y)) ->
            List.filter (Redis.stringmatch (request_pattern realm)) (elements X)
            ≡ₚ List.filter (Redis.stringmatch (request_pattern realm)) (elements Y))
    as Hperm.
  { intros X Y HXY. apply NoDup_Permutation.
    - apply NoDup_ListNoDup, List.NoDup_filter, NoDup_ListNoDup, NoDup_elements.
    - apply NoDup_ListNoDup, List.NoDup_filter, NoDup_ListNoDup, NoDup_elements.
    - intros k. rewrite !list_elem_of_In, !filter_In, <- !list_elem_of_In,
        !elem_of_elements.
      split; intros [Hk Hm]; (split; [apply (HXY k Hm), Hk | exact Hm]). }
  apply Permutation_length, Hperm, H.
Qed.

Lemma all_keys_lookup (d : Redis.db) (k : string) :
  k ∈ Redis.all_keys d
  <-> is_Some (Redis.hashes d !! k) \/ is_Some (Redis.sets d !! k)
      \/ is_Some (Redis.strings d !! k).
Proof.
  unfold Redis.all_keys. rewrite !elem_of_union, !elem_of_dom. tauto.
Qed.

(** The keys that a request pattern matches are the same before and after
    [register_realm] and [update_realm]. *)
Lemma register_realm_keeps_matches w name m t realm k :
  Redis.stringmatch (request_pattern realm) k = true ->
  k ∈ Redis.all_keys (redis (snd (register_realm name m t w)))
  <-> k ∈ Redis.all_keys (redis w).
Proof.
  intros Hm.
  assert (k <> _realm_redis_key name) as Hk
    by (intros ->; now rewrite request_pattern_not_realm_key in Hm).
  assert (k <> realms_key) as Hi
    by (intros ->; now rewrite request_pattern_not_index in Hm).
  destruct (register_realm_effect w name m t) as [Hp Ha].
  destruct (has_definition (redis w) name) eqn:Hd.
  - now rewrite (Hp eq_refl).
  - destruct (Ha eq_refl) as (w' & -> & _ & _ & _ & Hh & Hs & Hr & _).
    cbn [snd]. rewrite !all_keys_lookup.
    now rewrite (Hh k Hk), (Hs k Hi), Hr.
Qed.

Lemma update_realm_keeps_matches w name kwargs realm k :
  Redis.stringmatch (request_pattern realm) k = true ->
  k ∈ Redis.all_keys (redis (snd (update_realm name kwargs w)))
  <-> k ∈ Redis.all_keys (redis w).
Proof.
  intros Hm.
  assert (k <> _realm_redis_key name) as Hk
    by (intros ->; now rewrite request_pattern_not_realm_key in Hm).
  destruct (update_realm_effect w name kwargs)
    as (w' & -> & _ & Hh & Hs & Hr & _).
  cbn [snd]. rewrite !all_keys_lookup.
  now rewrite (Hh k Hk), Hs, Hr.
Qed.

(** X25: unregistering a realm and registering it again gives the realm its
    whole quota back: after [unregister_realm] the server reports no live
    request for the realm, whatever its name, and after a registration with
    integers that follows, the headroom is the new [max_requests] less the
    safety threshold. *)
Theorem reregistration_resets_the_count
  (w : world) (realm : string) (max_requests timespan safety_threshold : Z) :
  let w1 := snd (unregister_realm realm w) in
  let w2 := snd (register_realm realm (PyInt max_requests) (PyInt timespan) w1) in
  active_count (redis w1) realm = 0
  /\ active_count (redis w2) realm = 0
  /\ headroom (redis w2) safety_threshold realm
     = Some (max_requests - safety_threshold)
  /\ _can_perform_get safety_threshold realm w2
     = (Return (0 <? max_requests - safety_threshold), w2).
Proof.
  cbv zeta.
  destruct (unregister_realm_effect w realm)
    as (w1 & -> & _ & _ & _ & Hst & _ & Hgone & _).
  cbn [snd].
  assert (active_count (redis w1) realm = 0) as H1.
  { apply active_count_zero_if_unmatched. intros k Hk.
    destruct (Redis.stringmatch (request_pattern realm) k) eqn:Hm;
      [|reflexivity].
    now destruct (Hgone k Hm). }
  assert (active_count
            (redis (snd (register_realm realm (PyInt max_requests)
                           (PyInt timespan) w1))) realm = 0) as H2.
  { rewrite <- H1. apply active_count_same_matches.
    intros k Hm. exact (register_realm_keeps_matches _ _ _ _ realm k Hm). }
  assert (has_definition (redis w1) realm = false) as Hd.
  { destruct (has_definition (redis w1) realm) eqn:Hd; [|reflexivity].
    apply has_definition_stored in Hd. rewrite Hst in Hd. now destruct Hd. }
  destruct (register_realm_effect w1 realm (PyInt max_requests) (PyInt timespan))
    as [_ Ha].
  destruct (Ha Hd) as (w2 & E & Hm & _).
  rewrite E in H2 |- *. cbn [snd] in H2 |- *.
  assert (headroom (redis w2) safety_threshold realm
          = Some (max_requests - safety_threshold)) as Hh.
  { unfold headroom, stored_int. rewrite Hm, int_str, H2. f_equal. lia. }
  split; [exact H1|]. split; [exact H2|]. split; [exact Hh|].
  now apply can_perform_get_headroom.
Qed.

(** X26: [update_realm] moves the capacity at once and leaves the count
    alone: after a call that supplies the integer [z] for [max_requests],
    the server reports as many live requests for the realm as before and
    [_can_perform_get] answers whether that count is below [z] less the
    safety threshold. *)
Theorem update_realm_moves_the_capacity
  (w : world) (realm : string) (kwargs : gmap string value)
  (z safety_threshold : Z) :
  supplied_int kwargs "max_requests" = Some z ->
  let w' := snd (update_realm realm kwargs w) in
  active_count (redis w') realm = active_count (redis w) realm
  /\ _can_perform_get safety_threshold realm w'
     = (Return (active_count (redis w) realm <? z - safety_threshold), w').
Proof.
  intros Hs. cbv zeta.
  assert (active_count (redis (snd (update_realm realm kwargs w))) realm
          = active_count (redis w) realm) as Hc.
  { apply active_count_same_matches. intros k Hm.
    exact (update_realm_keeps_matches _ _ _ realm k Hm). }
  split; [exact Hc|].
  destruct (update_realm_effect w realm kwargs) as (w' & E & Hst & _).
  rewrite E in Hc |- *. cbn [snd] in Hc |- *.
  assert (headroom (redis w') safety_threshold realm
          = Some (z - safety_threshold - active_count (redis w) realm)) as Hh.
  { unfold headroom, stored_int. rewrite Hst.
    rewrite bool_decide_eq_true_2 by auto. rewrite Hs, int_str, Hc.
    reflexivity. }
  rewrite (can_perform_get_headroom _ _ _ _ Hh). f_equal. f_equal.
  destruct (Z.ltb_spec 0 (z - safety_threshold - active_count (redis w) realm));
    destruct (Z.ltb_spec (active_count (redis w) realm) (z - safety_threshold));
    try reflexivity; lia.
Qed.

Lemma update_realm_moves_the_capacity_witness :
  _can_perform_get 0 "A"
    (snd (update_realm "A" (<["max_requests" := PyInt 0]> ∅) world_A))
  = (Return false,
     snd (update_realm "A" (<["max_requests" := PyInt 0]> ∅) world_A)).
Proof.
  destruct (update_realm_moves_the_capacity world_A "A"
              (<["max_requests" := PyInt 0]> ∅) 0 0) as [_ H].
  - reflexivity.
  - exact H.
Defined.

(** X27: an attempt for one realm with a plain name never takes the realm
    above its capacity.  With a valid function, readable integers for the
    realm, a positive time span and a new key for the identifier drawn, the
    count after the attempt is the count before plus one when there was
    headroom, and the count before otherwise; so a count within
    [max_requests] less the safety threshold stays within it. *)
Theorem single_realm_attempt_respects_the_capacity
  (t : Z) (g : func) (realm : string) (w : world) (m span : Z) :
  valid_get_func g ->
  plain realm = true ->
  stored_int (redis w) realm "max_requests" = Some m ->
  stored_int (redis w) realm "timespan" = Some span ->
  0 < span ->
  request_key realm (uuid4 w (drawn w)) ∉ Redis.all_keys (redis w) ->
  let w' := snd (_perform_webdriver_get t g (realm :: nil) w) in
  active_count (redis w') realm
  = (if active_count (redis w) realm <? m - t
     then active_count (redis w) realm + 1
     else active_count (redis w) realm)
  /\ (active_count (redis w) realm <= m - t ->
      active_count (redis w') realm <= m - t).
Proof.
  intros Hv Hp Hm Hspan Hpos Hfresh. cbv zeta.
  assert (active_count
            (redis (snd (_perform_webdriver_get t g (realm :: nil) w))) realm
          = (if active_count (redis w) realm <? m - t
             then active_count (redis w) realm + 1
             else active_count (redis w) realm)) as H.
  { destruct (Z.ltb_spec (active_count (redis w) realm) (m - t)) as [Hlt|Hge].
    - rewrite (perform_granted t g (realm :: nil) w (fun _ => span)).
      + cbn [snd redis]. rewrite active_count_issue.
        * cbn [leases imap fmap list_fmap lease fst List.filter].
          rewrite Nat.add_0_r.
          rewrite (request_pattern_matches_own_keys realm _ Hp). reflexivity.
        * cbn [leases imap fmap list_fmap lease fst].
          apply NoDup_singleton.
        * cbn [leases imap fmap list_fmap lease fst]. intros k Hk.
          apply list_elem_of_singleton in Hk as ->. now rewrite Nat.add_0_r.
      + assumption.
      + intros r [<-|[]]. eexists.
        split; [exact (headroom_of_max _ _ _ _ Hm) | lia].
      + intros r [<-|[]]. auto.
    - rewrite perform_denied; [reflexivity | assumption | |].
      + constructor; [|constructor].
        rewrite (headroom_of_max _ _ _ _ Hm). eauto.
      + cbn [saturated List.filter]. unfold has_room.
        rewrite (headroom_of_max _ _ _ _ Hm).
        destruct (Z.ltb_spec 0 (m - t - active_count (redis w) realm));
          [lia | discriminate]. }
  split; [exact H|]. intros Hle. rewrite H.
  destruct (Z.ltb_spec (active_count (redis w) realm) (m - t)); lia.
Qed.

Lemma single_realm_attempt_respects_the_capacity_witness :
  active_count
    (redis (snd (_perform_webdriver_get 0 navigate ("A" :: nil) world_A_busy)))
    "A" <= 1 - 0.
Proof.
  destruct (single_realm_attempt_respects_the_capacity 0 navigate "A"
              world_A_busy 1 2) as [_ H].
  - apply proxy_lambda_valid.
  - reflexivity.
  - vm_compute. reflexivity.
  - vm_compute. reflexivity.
  - lia.
  - apply (bool_decide_unpack _). vm_compute. exact I.
  - apply H. vm_compute. discriminate.
Defined.
